(** * MCP client manager and integration layer: a shallow embedding

    Source embedded here:
    - class [MCPClientManager] (module [mcp-client-manager]): connection
      set-up, JSON-RPC correlation over a child process, discovery of
      tools / resources / prompts, [callTool], [shutdown];
    - class [MCPIntegration] (the integration layer built on it): the
      flattened tool registry, [executeTool], the IPC handlers
      ['mcp-refresh'], ['mcp-call-tool'] and ['mcp-get-stats'],
      [getHighPriorityTools], [shutdown];
    - class [ResponseCache] (module [response-cache]): the key of a
      request, [get], [set], [delete], [clear], the eviction and the saved
      index;
    - class [ProviderRouter] (module [provider-router]): [complete] with
      its cache look-up, its routing and its history.

    JavaScript [Map]s are insertion-ordered association lists, [async]
    functions are resumption trees that expose the manager state at every
    [await] of a JSON-RPC request, and the child-process callbacks
    (stdout message, timer, exit) are transitions of a connection.  A
    response is what the server chose to send: its body may be [null], a
    list member may be absent, hold [null] elements or not be iterable,
    and a listed object may carry a [serverId] of its own. *)

From Stdlib Require Import String Ascii List ZArith Bool Lia PeanoNat Permutation Sorted.
Import ListNotations.
Local Open Scope string_scope.
Local Open Scope list_scope.

Set Implicit Arguments.

(** ** JavaScript [Map]: insertion-ordered, one entry per key *)

Class EqKey (K : Type) := {
  keqb : K -> K -> bool;
  keqb_spec : forall a b, keqb a b = true <-> a = b
}.

#[export] Instance EqKey_string : EqKey string :=
  {| keqb := String.eqb; keqb_spec := String.eqb_eq |}.

#[export] Instance EqKey_Z : EqKey Z :=
  {| keqb := Z.eqb; keqb_spec := Z.eqb_eq |}.

Module JsMap.
Section Ops.
Context {K V : Type} `{EqKey K}.

(** [new Map()] and [map.clear()] *)
Definition empty : list (K * V) := [].

(** [map.get(k)]; [None] is [undefined] *)
Fixpoint get (m : list (K * V)) (k : K) : option V :=
  match m with
  | [] => None
  | (k', v) :: r => if keqb k' k then Some v else get r k
  end.

(** [map.has(k)] *)
Definition has (m : list (K * V)) (k : K) : bool :=
  match get m k with Some _ => true | None => false end.

(** [map.set(k, v)]: an existing key keeps its position and takes the
    new value, a new key is appended. *)
Fixpoint set (m : list (K * V)) (k : K) (v : V) : list (K * V) :=
  match m with
  | [] => [(k, v)]
  | (k', v') :: r => if keqb k' k then (k, v) :: r else (k', v') :: set r k v
  end.

(** [map.delete(k)] *)
Definition delete (m : list (K * V)) (k : K) : list (K * V) :=
  filter (fun kv => negb (keqb (fst kv) k)) m.

Definition keys (m : list (K * V)) : list K := map fst m.

(** The representation invariant of a [Map]. *)
Definition wf (m : list (K * V)) : Prop := NoDup (keys m).
End Ops.
End JsMap.

(** ** Strings *)

(** [s.endsWith(suffix)] *)
Fixpoint endsWith (s suffix : string) : bool :=
  if String.eqb s suffix then true
  else match s with
       | EmptyString => false
       | String _ s' => endsWith s' suffix
       end.

(** The template literal [`${serverId}/${name}`]. *)
Definition qualified (serverId name : string) : string :=
  serverId ++ "/" ++ name.

(** ** Errors

    The source throws plain [Error] objects; one constructor per message. *)

Inductive transport := SSE | Command.

Inductive error :=
| ToolNotFound (toolName : string)
    (* callTool: Tool '<toolName>' not found *)
| ServerUnavailable (serverId : string)
    (* callTool: Server '<serverId>' is not connected *)
| NotConnected (id : string)
    (* sendCommand: Server <id> is not connected *)
| CommandTimeout (seconds : Z)
    (* sendCommand timer: Command timeout after <seconds>s *)
| RPCError (message : string)
    (* handleJSONRPCMessage: message.error.message || 'Unknown RPC error' *)
| TransportError (message : string)
    (* makeSSERequest: HTTP status, network error, request timeout, bad JSON *)
| ConfigError (serverId : string)
    (* connectToServer: Invalid server configuration for <serverId> *)
| ConnectionFailed (kind : transport) (cause : error)
    (* 'SSE connection failed: ...' / 'Command connection failed: ...' *)
| ConfigFileError
    (* loadMCPConfig: MCP configuration file not found or invalid *)
| IpcHandlerError
    (* ipcMain.handle: a second handler for a channel *)
| TypeError (message : string).
    (* thrown by the engine: a property read on [null], a [for...of] over a
       value that is not iterable *)

(** ** Wire data *)

(** A tool object as a server lists it.  [td_serverId] is the object's own
    [serverId] property, when the server sent one: the registry entry is
    built with the spread [{ serverId, ...tool }], where such a property
    wins. *)
Record tool_decl := {
  td_name : string;
  td_description : string;
  td_inputSchema : string;
  td_serverId : option string
}.

Record resource_decl := {
  rd_uri : string;
  rd_name : string;
  rd_description : string;
  rd_mimeType : string;
  rd_serverId : option string
}.

Record prompt_decl := {
  pd_name : string;
  pd_description : string;
  pd_serverId : option string
}.

Inductive params :=
| PInitialize                                   (* protocolVersion, capabilities, clientInfo *)
| PNone                                         (* {} *)
| PToolCall (name : string) (arguments : string).

(** [{ jsonrpc: '2.0', id, method, params }] *)
Record rpc_request := {
  rq_id : Z;
  rq_method : string;
  rq_params : params
}.

(** A list member of a result, as the loops of discovery find it: absent
    (or another falsy value), an array whose elements are objects or
    [null], or a truthy value that [for...of] refuses to iterate. *)
Inductive member (A : Type) : Type :=
| Absent
| Items (l : list (option A))
| NotIterable.
Arguments Absent {A}.
Arguments Items {A} l.
Arguments NotIterable {A}.

(** The member of a response that lists objects, when it lists any. *)
Definition array_of {A : Type} (l : option (list A)) : member A :=
  match l with
  | Some l => Items (map Some l)
  | None => Absent
  end.

(** The [result] member of a response, with the members the client reads. *)
Record rpc_result := {
  res_capabilities : option string;
  res_tools : member tool_decl;
  res_resources : member resource_decl;
  res_prompts : member prompt_decl;
  res_content : string
}.

Record rpc_error_obj := {
  err_code : Z;
  err_message : option string
}.

(** A parsed incoming message. *)
Record rpc_message := {
  msg_id : option Z;
  msg_error : option rpc_error_obj;
  msg_result : option rpc_result
}.

(** How a pending promise ends: resolved with a parsed message, resolved
    with [null] (an HTTP body that is the JSON text [null]), or rejected. *)
Inductive settle :=
| Fulfilled (message : rpc_message)
| FulfilledNull
| Rejected (e : error).

(** ** Server objects *)

(** A promise is named by a number; the entry stored in
    [responseHandlers] is the pair of its [resolve] and [reject]. *)
Definition promise := nat.

Record server := {
  srv_id : string;
  srv_type : transport;
  srv_url : option string;
  srv_command : option string;
  srv_args : list string;
  srv_timeout : Z;
  srv_autoApprove : list string;
  srv_process : bool;                 (* [process] is not null *)
  srv_connected : bool;
  srv_capabilities : option string;
  srv_responseHandlers : list (Z * promise)
}.

Definition with_connected (b : bool) (s : server) : server :=
  {| srv_id := srv_id s; srv_type := srv_type s; srv_url := srv_url s;
     srv_command := srv_command s; srv_args := srv_args s;
     srv_timeout := srv_timeout s; srv_autoApprove := srv_autoApprove s;
     srv_process := srv_process s; srv_connected := b;
     srv_capabilities := srv_capabilities s;
     srv_responseHandlers := srv_responseHandlers s |}.

Definition with_capabilities (c : option string) (s : server) : server :=
  {| srv_id := srv_id s; srv_type := srv_type s; srv_url := srv_url s;
     srv_command := srv_command s; srv_args := srv_args s;
     srv_timeout := srv_timeout s; srv_autoApprove := srv_autoApprove s;
     srv_process := srv_process s; srv_connected := srv_connected s;
     srv_capabilities := c;
     srv_responseHandlers := srv_responseHandlers s |}.

Definition with_process (b : bool) (s : server) : server :=
  {| srv_id := srv_id s; srv_type := srv_type s; srv_url := srv_url s;
     srv_command := srv_command s; srv_args := srv_args s;
     srv_timeout := srv_timeout s; srv_autoApprove := srv_autoApprove s;
     srv_process := b; srv_connected := srv_connected s;
     srv_capabilities := srv_capabilities s;
     srv_responseHandlers := srv_responseHandlers s |}.

Definition with_responseHandlers (h : list (Z * promise)) (s : server) : server :=
  {| srv_id := srv_id s; srv_type := srv_type s; srv_url := srv_url s;
     srv_command := srv_command s; srv_args := srv_args s;
     srv_timeout := srv_timeout s; srv_autoApprove := srv_autoApprove s;
     srv_process := srv_process s; srv_connected := srv_connected s;
     srv_capabilities := srv_capabilities s;
     srv_responseHandlers := h |}.

(** Events of the manager's [EventEmitter]. *)
Inductive event :=
| EvInitialized
| EvServerError (serverId : string)
| EvServerDisconnected (serverId : string)
| EvServerMessage (serverId : string) (message : rpc_message).

(** ** The process transport: callbacks of one command connection *)

Module Connection.

(** One connection with what its callbacks did so far: [settled] lists the
    calls of [resolve] / [reject] (oldest first), [stdin] the lines written
    to the child, [timers] the armed [setTimeout] callbacks, each closed
    over the promise and the message id of its [sendCommand]. *)
Record conn := {
  c_server : server;
  c_settled : list (promise * settle);
  c_emitted : list event;
  c_stdin : list rpc_request;
  c_timers : list (promise * Z)
}.

Definition with_server (s : server) (c : conn) : conn :=
  {| c_server := s; c_settled := c_settled c; c_emitted := c_emitted c;
     c_stdin := c_stdin c; c_timers := c_timers c |}.

Definition settle_promise (p : promise) (o : settle) (c : conn) : conn :=
  {| c_server := c_server c; c_settled := c_settled c ++ [(p, o)];
     c_emitted := c_emitted c; c_stdin := c_stdin c; c_timers := c_timers c |}.

Definition emit (e : event) (c : conn) : conn :=
  {| c_server := c_server c; c_settled := c_settled c;
     c_emitted := c_emitted c ++ [e]; c_stdin := c_stdin c;
     c_timers := c_timers c |}.

(** [message.id || Date.now()] *)
Definition message_id (message : rpc_request) (now : Z) : Z :=
  if Z.eqb (rq_id message) 0 then now else rq_id message.

Definition with_id (i : Z) (message : rpc_request) : rpc_request :=
  {| rq_id := i; rq_method := rq_method message; rq_params := rq_params message |}.

(** The guard that opens [sendCommand]. *)
Definition sendCommand_refused (s : server) : bool :=
  negb (srv_process s) || negb (srv_connected s).

(** [server.responseHandlers.set(messageId, { resolve, reject })] *)
Definition store_handler (messageId : Z) (p : promise) (s : server) : server :=
  with_responseHandlers (JsMap.set (srv_responseHandlers s) messageId p) s.

Definition drop_handler (messageId : Z) (s : server) : server :=
  with_responseHandlers (JsMap.delete (srv_responseHandlers s) messageId) s.

(** The executor of the promise [p] that [sendCommand(server, message)]
    returns, run when [Date.now()] is [now]. *)
Definition sendCommand (p : promise) (message : rpc_request) (now : Z)
    (c : conn) : conn :=
  let s := c_server c in
  if sendCommand_refused s then
    settle_promise p (Rejected (NotConnected (srv_id s))) c
  else
    let messageId := message_id message now in
    {| c_server := store_handler messageId p s;
       c_settled := c_settled c;
       c_emitted := c_emitted c;
       c_stdin := c_stdin c ++ [with_id messageId message];
       c_timers := c_timers c ++ [(p, messageId)] |}.

(** [message.id &&]: a missing id and the id 0 are falsy. *)
Definition truthy_id (message : rpc_message) : option Z :=
  match msg_id message with
  | Some i => if Z.eqb i 0 then None else Some i
  | None => None
  end.

(** [message.error.message || 'Unknown RPC error'] *)
Definition rpc_error_text (e : rpc_error_obj) : string :=
  match err_message e with
  | Some (String a r) => String a r
  | _ => "Unknown RPC error"
  end.

Definition handleJSONRPCMessage (message : rpc_message) (c : conn) : conn :=
  let s := c_server c in
  match truthy_id message with
  | Some i =>
      if JsMap.has (srv_responseHandlers s) i then
        match JsMap.get (srv_responseHandlers s) i with
        | Some handler =>
            let c' := with_server (drop_handler i s) c in
            match msg_error message with
            | Some e => settle_promise handler (Rejected (RPCError (rpc_error_text e))) c'
            | None => settle_promise handler (Fulfilled message) c'
            end
        | None => c
        end
      else emit (EvServerMessage (srv_id s) message) c
  | None => emit (EvServerMessage (srv_id s) message) c
  end.

Definition timer_eqb (a b : promise * Z) : bool :=
  Nat.eqb (fst a) (fst b) && Z.eqb (snd a) (snd b).

Fixpoint disarm (t : promise * Z) (l : list (promise * Z)) : list (promise * Z) :=
  match l with
  | [] => []
  | x :: r => if timer_eqb x t then r else x :: disarm t r
  end.

(** The [setTimeout] callback of the [sendCommand] that created promise
    [p] with id [messageId]; it runs only if it was armed, and once. *)
Definition timer_fires (p : promise) (messageId : Z) (c : conn) : conn :=
  if existsb (timer_eqb (p, messageId)) (c_timers c) then
    let s := c_server c in
    let c1 := {| c_server := s; c_settled := c_settled c;
                 c_emitted := c_emitted c; c_stdin := c_stdin c;
                 c_timers := disarm (p, messageId) (c_timers c) |} in
    if JsMap.has (srv_responseHandlers s) messageId then
      settle_promise p (Rejected (CommandTimeout (srv_timeout s)))
        (with_server (drop_handler messageId s) c1)
    else c1
  else c.

(** [server.process.on('exit', (code, signal) => ...)] *)
Definition process_exit (code : option Z) (signal : option string) (c : conn) : conn :=
  emit (EvServerDisconnected (srv_id (c_server c)))
       (with_server (with_connected false (c_server c)) c).

(** [server.process.on('error', ...)] *)
Definition process_error (c : conn) : conn :=
  emit (EvServerError (srv_id (c_server c))) c.

(** What can happen to a connection. *)
Inductive input :=
| InSend (p : promise) (message : rpc_request) (now : Z)
| InMessage (message : rpc_message)
| InTimer (p : promise) (messageId : Z)
| InExit (code : option Z) (signal : option string)
| InError.

Definition step (c : conn) (i : input) : conn :=
  match i with
  | InSend p message now => sendCommand p message now c
  | InMessage message => handleJSONRPCMessage message c
  | InTimer p messageId => timer_fires p messageId c
  | InExit code signal => process_exit code signal c
  | InError => process_error c
  end.

Definition steps (c : conn) (l : list input) : conn := fold_left step l c.

(** What was done to promise [p], oldest first. *)
Definition settlements (p : promise) (c : conn) : list settle :=
  map snd (filter (fun x => Nat.eqb (fst x) p) (c_settled c)).

(** No [sendCommand] among the inputs registers under [id]. *)
Definition no_resend (id : Z) (l : list input) : Prop :=
  forall p message now, In (InSend p message now) l -> message_id message now <> id.

(** The promises that the [sendCommand]s among the inputs create. *)
Fixpoint sent_promises (l : list input) : list promise :=
  match l with
  | [] => []
  | InSend p _ _ :: r => p :: sent_promises r
  | _ :: r => sent_promises r
  end.

(** A connection on which nothing happened yet. *)
Definition untouched (c : conn) : Prop :=
  srv_responseHandlers (c_server c) = [] /\ c_settled c = [] /\ c_timers c = [].

(** The bookkeeping that every run keeps, [used] being the promises
    created so far: a stored handler has its timer armed, a promise arms
    one timer, and no stored handler belongs to a settled promise. *)
Record coherent (used : list promise) (c : conn) : Prop := {
  coh_armed : forall k q, In (k, q) (srv_responseHandlers (c_server c)) -> In (q, k) (c_timers c);
  coh_once : NoDup (map fst (c_timers c));
  coh_timers_used : forall q k, In (q, k) (c_timers c) -> In q used;
  coh_settled_used : forall q o, In (q, o) (c_settled c) -> In q used;
  coh_unsettled : forall k q o, In (k, q) (srv_responseHandlers (c_server c)) ->
                                ~ In (q, o) (c_settled c)
}.

End Connection.

(** ** The process transport: framing of the standard output *)

Module Framing.
Import Connection.

Definition newline : ascii := "010"%char.

(** [s.split('\n')]: the segments between the newlines, at least one. *)
Fixpoint split (s : string) : list string :=
  match s with
  | EmptyString => [EmptyString]
  | String ch r =>
      if Ascii.eqb ch newline then EmptyString :: split r
      else match split r with
           | seg :: segs => String ch seg :: segs
           | [] => [String ch EmptyString]
           end
  end.

(** [segments.join('\n')] *)
Fixpoint join (segments : list string) : string :=
  match segments with
  | [] => EmptyString
  | [seg] => seg
  | seg :: rest => seg ++ String newline (join rest)
  end.

Fixpoint has_newline (s : string) : bool :=
  match s with
  | EmptyString => false
  | String ch r => Ascii.eqb ch newline || has_newline r
  end.

Section Reader.
(** [JSON.parse(line)], [None] when it throws, and [!line.trim()]. *)
Variable parse : string -> option rpc_message.
Variable blank : string -> bool.

(** The body of the loop over the complete lines. *)
Definition read_line (c : conn) (line : string) : conn :=
  if blank line then c
  else match parse line with
       | Some message => handleJSONRPCMessage message c
       | None => c
       end.

(** The ['data'] listener of [setupJSONRPCCommunication] from the text
    [data.toString()] of its read on; [buffer] is the variable that the
    listener closes over. *)
Definition on_data (buffer : string) (data : string) (c : conn) : string * conn :=
  let lines := split (buffer ++ data) in
  (last lines EmptyString, fold_left read_line (removelast lines) c).

(** The listener called for each text in turn. *)
Fixpoint on_chunks (buffer : string) (chunks : list string) (c : conn) : string * conn :=
  match chunks with
  | [] => (buffer, c)
  | data :: rest =>
      let (buffer', c') := on_data buffer data c in
      on_chunks buffer' rest c'
  end.

(** The listener on the reads themselves.  A read is a [Buffer], and
    [buffer += data.toString()] decodes each read on its own: the bytes of
    a character that a read cuts are not put together again. *)
Variable chunk : Type.
Variable toString : chunk -> string.

Definition on_read (buffer : string) (data : chunk) (c : conn) : string * conn :=
  on_data buffer (toString data) c.

Fixpoint on_reads (buffer : string) (reads : list chunk) (c : conn) : string * conn :=
  match reads with
  | [] => (buffer, c)
  | data :: rest =>
      let (buffer', c') := on_read buffer data c in
      on_reads buffer' rest c'
  end.
End Reader.
End Framing.

(** ** The process transport: calls under distinct ids *)

Module Settlement.
Import Connection.

(** The ids under which the [sendCommand]s among the inputs register. *)
Fixpoint sent_ids (l : list input) : list Z :=
  match l with
  | [] => []
  | InSend _ message now :: r => message_id message now :: sent_ids r
  | _ :: r => sent_ids r
  end.

(** What a run keeps when no id is used twice, [ids] being the ids and
    [used] the promises so far: an entry under the id of an armed timer
    belongs to the promise of that timer; a promise whose timer is armed
    and whose entry is gone has been settled; no promise is settled
    twice; and a promise without an armed timer has been settled. *)
Record orderly (ids : list Z) (used : list promise) (c : conn) : Prop := {
  ord_owner : forall p id q,
      In (p, id) (c_timers c) -> In (id, q) (srv_responseHandlers (c_server c)) -> q = p;
  ord_ids : forall p id, In (p, id) (c_timers c) -> In id ids;
  ord_gone : forall p id,
      In (p, id) (c_timers c) ->
      JsMap.has (srv_responseHandlers (c_server c)) id = false ->
      settlements p c <> [];
  ord_once : forall p, length (settlements p c) <= 1;
  ord_done : forall p, In p used -> In p (map fst (c_timers c)) \/ settlements p c <> []
}.

End Settlement.

(** ** Registries and manager state *)

(** A registry entry is the spread [{ serverId, ...tool }]. *)
Record tool_entry := {
  te_serverId : string;
  te_name : string;
  te_description : string;
  te_inputSchema : string
}.

Record resource_entry := {
  re_serverId : string;
  re_uri : string;
  re_name : string;
  re_description : string;
  re_mimeType : string
}.

Record prompt_entry := {
  pe_serverId : string;
  pe_name : string;
  pe_description : string
}.

(** In [{ serverId, ...x }] an own [serverId] of [x] comes last and wins. *)
Definition spread_serverId (serverId : string) (own : option string) : string :=
  match own with
  | Some s => s
  | None => serverId
  end.

Definition tool_entry_of (serverId : string) (tool : tool_decl) : tool_entry :=
  {| te_serverId := spread_serverId serverId (td_serverId tool);
     te_name := td_name tool;
     te_description := td_description tool;
     te_inputSchema := td_inputSchema tool |}.

Definition resource_entry_of (serverId : string) (resource : resource_decl) : resource_entry :=
  {| re_serverId := spread_serverId serverId (rd_serverId resource);
     re_uri := rd_uri resource;
     re_name := rd_name resource;
     re_description := rd_description resource;
     re_mimeType := rd_mimeType resource |}.

Definition prompt_entry_of (serverId : string) (prompt : prompt_decl) : prompt_entry :=
  {| pe_serverId := spread_serverId serverId (pd_serverId prompt);
     pe_name := pd_name prompt;
     pe_description := pd_description prompt |}.

(** An entry of the configuration object [config.servers]. *)
Record server_config := {
  cfg_type : option string;
  cfg_url : option string;
  cfg_command : option string;
  cfg_args : list string;
  cfg_timeout : option Z;
  cfg_autoApprove : list string
}.

(** Server objects live in a store and are held by reference: the
    [servers] map, the callbacks of a child process and a running call
    share one object. *)
Definition ref := nat.

Record manager := {
  heap : list server;
  servers : list (string * ref);
  tools : list (string * tool_entry);
  resources : list (string * resource_entry);
  prompts : list (string * prompt_entry);
  isInitialized : bool;
  serverConfigs : list (string * server_config);   (* in [Object.entries] order *)
  emitted : list event
}.

Definition null_server : server :=
  {| srv_id := EmptyString; srv_type := SSE; srv_url := None; srv_command := None;
     srv_args := []; srv_timeout := 0; srv_autoApprove := [];
     srv_process := false; srv_connected := false; srv_capabilities := None;
     srv_responseHandlers := [] |}.

Definition deref (m : manager) (r : ref) : server := nth r (heap m) null_server.

Fixpoint list_update {A : Type} (l : list A) (n : nat) (f : A -> A) : list A :=
  match l, n with
  | [], _ => []
  | x :: r, O => f x :: r
  | x :: r, S n' => x :: list_update r n' f
  end.

Definition with_heap (h : list server) (m : manager) : manager :=
  {| heap := h; servers := servers m; tools := tools m;
     resources := resources m; prompts := prompts m;
     isInitialized := isInitialized m; serverConfigs := serverConfigs m;
     emitted := emitted m |}.

Definition with_servers (s : list (string * ref)) (m : manager) : manager :=
  {| heap := heap m; servers := s; tools := tools m;
     resources := resources m; prompts := prompts m;
     isInitialized := isInitialized m; serverConfigs := serverConfigs m;
     emitted := emitted m |}.

Definition with_tools (t : list (string * tool_entry)) (m : manager) : manager :=
  {| heap := heap m; servers := servers m; tools := t;
     resources := resources m; prompts := prompts m;
     isInitialized := isInitialized m; serverConfigs := serverConfigs m;
     emitted := emitted m |}.

Definition with_resources (x : list (string * resource_entry)) (m : manager) : manager :=
  {| heap := heap m; servers := servers m; tools := tools m;
     resources := x; prompts := prompts m;
     isInitialized := isInitialized m; serverConfigs := serverConfigs m;
     emitted := emitted m |}.

Definition with_prompts (x : list (string * prompt_entry)) (m : manager) : manager :=
  {| heap := heap m; servers := servers m; tools := tools m;
     resources := resources m; prompts := x;
     isInitialized := isInitialized m; serverConfigs := serverConfigs m;
     emitted := emitted m |}.

Definition with_isInitialized (b : bool) (m : manager) : manager :=
  {| heap := heap m; servers := servers m; tools := tools m;
     resources := resources m; prompts := prompts m;
     isInitialized := b; serverConfigs := serverConfigs m;
     emitted := emitted m |}.

Definition with_emitted (e : list event) (m : manager) : manager :=
  {| heap := heap m; servers := servers m; tools := tools m;
     resources := resources m; prompts := prompts m;
     isInitialized := isInitialized m; serverConfigs := serverConfigs m;
     emitted := e |}.

(** [new MCPClientManager({ servers })] *)
Definition new_manager (configured : list (string * server_config)) : manager :=
  {| heap := []; servers := []; tools := []; resources := []; prompts := [];
     isInitialized := false; serverConfigs := configured; emitted := [] |}.

(** ** Asynchronous functions

    An [async] function is a tree: it ends ([Done]) or suspends at the
    [await] of one JSON-RPC request ([Await]), where it shows the manager
    as every other task can read it, and resumes from the manager as it is
    when the request settles.  [Date.now()] and [new Promise] are answered
    by the run-time. *)

Inductive completion (A : Type) : Type :=
| Normal (a : A)
| Thrown (e : error).
Arguments Thrown {A} e.

Inductive async (A : Type) : Type :=
| Done (m : manager) (c : completion A)
| DateNow (k : Z -> async A)
| NewPromise (k : promise -> async A)
| Await (m : manager) (target : string) (via : transport)
        (request : rpc_request) (k : manager -> settle -> async A).
Arguments Done {A} m c.
Arguments DateNow {A} k.
Arguments NewPromise {A} k.
Arguments Await {A} m target via request k.

Definition M (A : Type) : Type := manager -> async A.

Definition ret {A : Type} (a : A) : M A := fun m => Done m (Normal a).
Definition throw {A : Type} (e : error) : M A := fun m => Done m (Thrown e).

Fixpoint bind_async {A B : Type} (x : async A) (f : A -> M B) : async B :=
  match x with
  | Done m (Normal a) => f a m
  | Done m (Thrown e) => Done m (Thrown e)
  | DateNow k => DateNow (fun z => bind_async (k z) f)
  | NewPromise k => NewPromise (fun p => bind_async (k p) f)
  | Await m t via rq k => Await m t via rq (fun m' o => bind_async (k m' o) f)
  end.

Definition bind {A B : Type} (x : M A) (f : A -> M B) : M B :=
  fun m => bind_async (x m) f.

(** [try { x } catch (e) { h e }] *)
Fixpoint catch_async {A : Type} (x : async A) (h : error -> M A) : async A :=
  match x with
  | Done m (Normal a) => Done m (Normal a)
  | Done m (Thrown e) => h e m
  | DateNow k => DateNow (fun z => catch_async (k z) h)
  | NewPromise k => NewPromise (fun p => catch_async (k p) h)
  | Await m t via rq k => Await m t via rq (fun m' o => catch_async (k m' o) h)
  end.

Definition try_catch {A : Type} (x : M A) (h : error -> M A) : M A :=
  fun m => catch_async (x m) h.

Declare Scope async_scope.
Delimit Scope async_scope with async.
Notation "x <- c1 ;; c2" := (bind c1 (fun x => c2))
  (at level 61, c1 at next level, right associativity) : async_scope.
Notation "c1 ;; c2" := (bind c1 (fun _ => c2))
  (at level 61, right associativity) : async_scope.
Local Open Scope async_scope.

Definition this : M manager := fun m => Done m (Normal m).
Definition modify (f : manager -> manager) : M unit := fun m => Done (f m) (Normal tt).
Definition date_now : M Z := fun m => DateNow (fun z => Done m (Normal z)).
Definition new_promise : M promise := fun m => NewPromise (fun p => Done m (Normal p)).
Definition await_request (target : string) (via : transport) (request : rpc_request) : M settle :=
  fun m => Await m target via request (fun m' o => Done m' (Normal o)).

(** [for (const x of l) { body x }] *)
Fixpoint for_each {A : Type} (l : list A) (body : A -> M unit) : M unit :=
  match l with
  | [] => ret tt
  | x :: r => body x ;; for_each r body
  end.

Definition alloc (s : server) : M ref :=
  fun m => Done (with_heap (heap m ++ [s]) m) (Normal (length (heap m))).

Definition update (r : ref) (f : server -> server) : M unit :=
  modify (fun m => with_heap (list_update (heap m) r f) m).

Definition emit (e : event) : M unit :=
  modify (fun m => with_emitted (emitted m ++ [e]) m).

(** ** MCPClientManager *)

(** [config.timeout || 300] *)
Definition timeout_or_default (t : option Z) : Z :=
  match t with
  | Some z => if Z.eqb z 0 then 300%Z else z
  | None => 300%Z
  end.

(** Truthiness of an optional string property. *)
Definition truthy (s : option string) : bool :=
  match s with
  | Some (String _ _) => true
  | _ => false
  end.

Definition initialize_request : rpc_request :=
  {| rq_id := 1; rq_method := "initialize"; rq_params := PInitialize |}.

(** What the engine throws when a property of [null] is read, and when
    [for...of] is given a value that is not iterable. *)
Definition null_property : error := TypeError "Cannot read properties of null".
Definition not_iterable : error := TypeError "is not iterable".

(** [response.result] on what a request resolved with; [None] is [null]. *)
Definition result_of (response : option rpc_message) : M (option rpc_result) :=
  match response with
  | None => throw null_property
  | Some message => ret (msg_result message)
  end.

(** [response.result?.capabilities || {}] *)
Definition declared_capabilities (response : option rpc_message) : M (option string) :=
  result <- result_of response ;;
  ret (match result with
       | Some r => res_capabilities r
       | None => None
       end).

(** What a stdout message does to the promise whose handler it finds
    ([handleJSONRPCMessage]). *)
Definition settlement_of_message (message : rpc_message) : settle :=
  match msg_error message with
  | Some e => Rejected (RPCError (Connection.rpc_error_text e))
  | None => Fulfilled message
  end.

(** [await promise] once the promise is settled. *)
Definition settled (o : settle) : M (option rpc_message) :=
  match o with
  | Fulfilled message => ret (Some message)
  | FulfilledNull => ret None
  | Rejected e => throw e
  end.

(** [makeSSERequest]: one HTTP POST.  The request settles with the parsed
    body, or with the failure of the request (status, network, timer, bad
    JSON); a body that carries a JSON-RPC [error] member still resolves,
    and so does the body [null]. *)
Definition makeSSERequest (r : ref) (message : rpc_request) : M (option rpc_message) :=
  m <- this ;;
  o <- await_request (srv_id (deref m r)) SSE message ;;
  settled o.

(** [sendCommand]: the guard, the handler stored under the message id, the
    line written to the child, and the promise.  The promise is settled by
    [handleJSONRPCMessage] or by the timer, and both delete the entry
    before they settle it; a message with an [error] member rejects.  A
    line [null] settles nothing ([message.id] throws in the listener), so
    that the timer ends the call. *)
Definition sendCommand (r : ref) (message : rpc_request) : M (option rpc_message) :=
  m <- this ;;
  let server := deref m r in
  if Connection.sendCommand_refused server then
    throw (NotConnected (srv_id server))
  else
    messageId <- (if Z.eqb (rq_id message) 0 then date_now else ret (rq_id message)) ;;
    p <- new_promise ;;
    update r (Connection.store_handler messageId p) ;;
    o <- await_request (srv_id server) Command (Connection.with_id messageId message) ;;
    update r (Connection.drop_handler messageId) ;;
    match o with
    | Fulfilled reply => settled (settlement_of_message reply)
    | FulfilledNull => throw (CommandTimeout (srv_timeout server))
    | Rejected e => throw e
    end.

(** [callServerMethod]; its last branch, for a [type] that is neither
    'sse' nor 'command', has no server object to apply to. *)
Definition callServerMethod (r : ref) (method : string) (p : params)
    : M (option rpc_message) :=
  now <- date_now ;;
  let message := {| rq_id := now; rq_method := method; rq_params := p |} in
  m <- this ;;
  match srv_type (deref m r) with
  | SSE => makeSSERequest r message
  | Command => sendCommand r message
  end.

(** The object literals that open the two [create...Connection]. *)
Definition sse_server (serverId : string) (config : server_config) : server :=
  {| srv_id := serverId; srv_type := SSE; srv_url := cfg_url config;
     srv_command := None; srv_args := [];
     srv_timeout := timeout_or_default (cfg_timeout config);
     srv_autoApprove := cfg_autoApprove config;
     srv_process := false; srv_connected := false;
     srv_capabilities := None; srv_responseHandlers := [] |}.

Definition command_server (serverId : string) (config : server_config) : server :=
  {| srv_id := serverId; srv_type := Command; srv_url := None;
     srv_command := cfg_command config; srv_args := cfg_args config;
     srv_timeout := timeout_or_default (cfg_timeout config);
     srv_autoApprove := cfg_autoApprove config;
     srv_process := false; srv_connected := false;
     srv_capabilities := None; srv_responseHandlers := [] |}.

Definition createSSEConnection (serverId : string) (config : server_config) : M ref :=
  r <- alloc (sse_server serverId config) ;;
  try_catch
    (response <- makeSSERequest r initialize_request ;;
     update r (with_connected true) ;;
     capabilities <- declared_capabilities response ;;
     update r (with_capabilities capabilities))
    (fun e => throw (ConnectionFailed SSE e)) ;;
  ret r.

Definition createCommandConnection (serverId : string) (config : server_config) : M ref :=
  r <- alloc (command_server serverId config) ;;
  try_catch
    (update r (with_process true) ;;                 (* server.process = spawn(...) *)
     initResponse <- sendCommand r initialize_request ;;
     update r (with_connected true) ;;
     capabilities <- declared_capabilities initResponse ;;
     update r (with_capabilities capabilities))
    (fun e => throw (ConnectionFailed Command e)) ;;
  ret r.

(** [response.result?.tools] and its two siblings *)
Definition listed_tools (response : option rpc_message) : M (member tool_decl) :=
  result <- result_of response ;;
  ret (match result with Some r => res_tools r | None => Absent end).
Definition listed_resources (response : option rpc_message) : M (member resource_decl) :=
  result <- result_of response ;;
  ret (match result with Some r => res_resources r | None => Absent end).
Definition listed_prompts (response : option rpc_message) : M (member prompt_decl) :=
  result <- result_of response ;;
  ret (match result with Some r => res_prompts r | None => Absent end).

(** [if (list) { for (const x of list) { body x } }] *)
Definition for_of {A : Type} (list : member A) (body : option A -> M unit) : M unit :=
  match list with
  | Absent => ret tt
  | Items l => for_each l body
  | NotIterable => throw not_iterable
  end.

(** The bodies of the three registration loops of
    [initializeServerCapabilities]; the key reads [tool.name], which
    throws on a [null] element. *)
Definition register_tool (serverId : string) (tool : option tool_decl) : M unit :=
  match tool with
  | None => throw null_property
  | Some tool =>
      modify (fun m => with_tools (JsMap.set (tools m) (qualified serverId (td_name tool))
                                             (tool_entry_of serverId tool)) m)
  end.

Definition register_resource (serverId : string) (resource : option resource_decl) : M unit :=
  match resource with
  | None => throw null_property
  | Some resource =>
      modify (fun m => with_resources
                         (JsMap.set (resources m) (qualified serverId (rd_uri resource))
                                    (resource_entry_of serverId resource)) m)
  end.

Definition register_prompt (serverId : string) (prompt : option prompt_decl) : M unit :=
  match prompt with
  | None => throw null_property
  | Some prompt =>
      modify (fun m => with_prompts
                         (JsMap.set (prompts m) (qualified serverId (pd_name prompt))
                                    (prompt_entry_of serverId prompt)) m)
  end.

Definition initializeServerCapabilities (serverId : string) (r : ref) : M unit :=
  try_catch
    (toolsResponse <- callServerMethod r "tools/list" PNone ;;
     listedTools <- listed_tools toolsResponse ;;
     for_of listedTools (register_tool serverId) ;;
     resourcesResponse <- callServerMethod r "resources/list" PNone ;;
     listedResources <- listed_resources resourcesResponse ;;
     for_of listedResources (register_resource serverId) ;;
     promptsResponse <- callServerMethod r "prompts/list" PNone ;;
     listedPrompts <- listed_prompts promptsResponse ;;
     for_of listedPrompts (register_prompt serverId))
    (fun _ => ret tt).

Definition is_sse (config : server_config) : bool :=
  match cfg_type config with
  | Some t => String.eqb t "sse"
  | None => false
  end.

Definition connectToServer (serverId : string) (config : server_config) : M unit :=
  r <- (if is_sse config then createSSEConnection serverId config
        else if truthy (cfg_command config) then createCommandConnection serverId config
        else throw (ConfigError serverId)) ;;
  modify (fun m => with_servers (JsMap.set (servers m) serverId r) m) ;;
  initializeServerCapabilities serverId r.

Definition initialize : M unit :=
  m <- this ;;
  if isInitialized m then ret tt
  else
    for_each (serverConfigs m)
      (fun entry => try_catch (connectToServer (fst entry) (snd entry)) (fun _ => ret tt)) ;;
    modify (with_isInitialized true) ;;
    emit EvInitialized.

(** The two look-ups that open [callTool]: the exact key, then the first
    key in insertion order that ends with ["/" ++ toolName]. *)
Definition find_tool (reg : list (string * tool_entry)) (toolName : string)
    : option tool_entry :=
  match JsMap.get reg toolName with
  | Some tool => Some tool
  | None =>
      match find (fun kv => endsWith (fst kv) ("/" ++ toolName)) reg with
      | Some kv => Some (snd kv)
      | None => None
      end
  end.

Definition callTool (toolName : string) (args : string) : M (option rpc_result) :=
  m <- this ;;
  match find_tool (tools m) toolName with
  | None => throw (ToolNotFound toolName)
  | Some tool =>
      match JsMap.get (servers m) (te_serverId tool) with
      | None => throw (ServerUnavailable (te_serverId tool))
      | Some r =>
          if negb (srv_connected (deref m r)) then
            throw (ServerUnavailable (te_serverId tool))
          else
            response <- callServerMethod r "tools/call" (PToolCall (te_name tool) args) ;;
            result_of response
      end
  end.

Record tool_view := {
  tv_id : string;
  tv_name : string;
  tv_description : string;
  tv_server : string;
  tv_inputSchema : string
}.

Definition getAvailableTools (m : manager) : list tool_view :=
  map (fun kv => {| tv_id := fst kv; tv_name := te_name (snd kv);
                    tv_description := te_description (snd kv);
                    tv_server := te_serverId (snd kv);
                    tv_inputSchema := te_inputSchema (snd kv) |})
      (tools m).

(** [shutdown]: the loop body marks each server object disconnected (the
    SIGTERM sent to a child process changes nothing in the manager), then
    the four maps are cleared. *)
Definition shutdown : M unit :=
  m <- this ;;
  for_each (servers m) (fun entry => update (snd entry) (with_connected false)) ;;
  modify (with_servers JsMap.empty) ;;
  modify (with_tools JsMap.empty) ;;
  modify (with_resources JsMap.empty) ;;
  modify (with_prompts JsMap.empty) ;;
  modify (with_isInitialized false).

Record resource_view := {
  rv_id : string;
  rv_uri : string;
  rv_name : string;
  rv_description : string;
  rv_server : string;
  rv_mimeType : string
}.

Definition getAvailableResources (m : manager) : list resource_view :=
  map (fun kv => {| rv_id := fst kv; rv_uri := re_uri (snd kv);
                    rv_name := re_name (snd kv);
                    rv_description := re_description (snd kv);
                    rv_server := re_serverId (snd kv);
                    rv_mimeType := re_mimeType (snd kv) |})
      (resources m).

(** [k.startsWith(serverId)] *)
Definition startsWith (k serverId : string) : bool := String.prefix serverId k.

Record server_status := {
  st_connected : bool;
  st_type : transport;
  st_toolCount : nat;
  st_resourceCount : nat
}.

(** [getServerStatus]: the properties of the object [status], one per
    entry of the [servers] map and in its order. *)
Definition getServerStatus (m : manager) : list (string * server_status) :=
  map (fun entry =>
         (fst entry,
          {| st_connected := srv_connected (deref m (snd entry));
             st_type := srv_type (deref m (snd entry));
             st_toolCount :=
               length (filter (fun k => startsWith k (fst entry)) (JsMap.keys (tools m)));
             st_resourceCount :=
               length (filter (fun k => startsWith k (fst entry))
                              (JsMap.keys (resources m))) |}))
      (servers m).

(** ** Running a task to completion

    The environment settles each request; nothing else interleaves.  The
    trace lists, for every [await], the manager that was visible while the
    task was suspended and the request it was waiting for.  Requests that
    never settle, and tasks that run in between, come after ([attempt],
    [resume]). *)

Record oracle := {
  answer : string -> rpc_request -> settle;
  elapsed : string -> rpc_request -> Z
}.

Record ambient := {
  clock : Z;                 (* what [Date.now()] returns *)
  next_promise : promise
}.

Record suspension := {
  visible : manager;
  sus_target : string;
  sus_via : transport;
  sus_request : rpc_request
}.

Record outcome (A : Type) := {
  final : manager;
  result : completion A;
  trace : list suspension;
  after : ambient
}.

Fixpoint run {A : Type} (env : oracle) (a : ambient) (x : async A) : outcome A :=
  match x with
  | Done m c => {| final := m; result := c; trace := []; after := a |}
  | DateNow k => run env a (k (clock a))
  | NewPromise k =>
      run env {| clock := clock a; next_promise := S (next_promise a) |}
          (k (next_promise a))
  | Await m t via rq k =>
      let o := run env {| clock := (clock a + elapsed env t rq)%Z;
                          next_promise := next_promise a |}
                   (k m (answer env t rq)) in
      {| final := final o; result := result o;
         trace := {| visible := m; sus_target := t; sus_via := via;
                     sus_request := rq |} :: trace o;
         after := after o |}
  end.

Definition requests {A : Type} (o : outcome A) : list (string * rpc_request) :=
  map (fun s => (sus_target s, sus_request s)) (trace o).

(** A task run up to its first [await]: where it is suspended, if it is,
    with the manager that the next task finds. *)
Fixpoint start {A : Type} (a : ambient) (x : async A) : ambient * option suspension :=
  match x with
  | Done _ _ => (a, None)
  | DateNow k => start a (k (clock a))
  | NewPromise k =>
      start {| clock := clock a; next_promise := S (next_promise a) |} (k (next_promise a))
  | Await m t via rq _ =>
      (a, Some {| visible := m; sus_target := t; sus_via := via; sus_request := rq |})
  end.

(** A request need not settle.  [makeSSERequest] clears its timer when the
    response headers arrive and settles on ['end'] or on an error of the
    request: a server that sends its headers and then stalls leaves the
    promise pending for ever.  [silent] tells the requests that end so;
    the task then stays where it awaits the first of them. *)
Inductive progress (A : Type) : Type :=
| Finished (o : outcome A)
| Waiting (s : suspension) (earlier : list suspension).
Arguments Finished {A} o.
Arguments Waiting {A} s earlier.

Fixpoint attempt {A : Type} (env : oracle) (silent : string -> rpc_request -> bool)
    (a : ambient) (x : async A) : progress A :=
  match x with
  | Done m c => Finished {| final := m; result := c; trace := []; after := a |}
  | DateNow k => attempt env silent a (k (clock a))
  | NewPromise k =>
      attempt env silent {| clock := clock a; next_promise := S (next_promise a) |}
              (k (next_promise a))
  | Await m t via rq k =>
      let s := {| visible := m; sus_target := t; sus_via := via; sus_request := rq |} in
      if silent t rq then Waiting s []
      else
        match attempt env silent {| clock := (clock a + elapsed env t rq)%Z;
                                    next_promise := next_promise a |}
                      (k m (answer env t rq)) with
        | Finished o =>
            Finished {| final := final o; result := result o;
                        trace := s :: trace o; after := after o |}
        | Waiting s' earlier => Waiting s' (s :: earlier)
        end
  end.

(** A task that is suspended at an [await], resumed when its request has
    settled, from the manager [m'] that the tasks run meanwhile left. *)
Definition resume {A : Type} (env : oracle) (a : ambient) (x : async A) (m' : manager)
    : outcome A :=
  match x with
  | Await _ t _ rq k =>
      run env {| clock := (clock a + elapsed env t rq)%Z; next_promise := next_promise a |}
          (k m' (answer env t rq))
  | _ => run env a x
  end.

(** The task [x] after its first [n] requests have settled, with no other
    task in between. *)
Fixpoint advance {A : Type} (env : oracle) (n : nat) (a : ambient) (x : async A)
    : ambient * async A :=
  match x with
  | Done _ _ => (a, x)
  | DateNow k => advance env n a (k (clock a))
  | NewPromise k =>
      advance env n {| clock := clock a; next_promise := S (next_promise a) |}
              (k (next_promise a))
  | Await m t _ rq k =>
      match n with
      | O => (a, x)
      | S n' =>
          advance env n' {| clock := (clock a + elapsed env t rq)%Z;
                            next_promise := next_promise a |}
                  (k m (answer env t rq))
      end
  end.

(** ** MCPIntegration *)

(** An entry of [toolRegistry]; [at_toolKey] is the key that the entry's
    [execute] closure captured. *)
Record agent_tool := {
  at_name : string;
  at_description : string;
  at_server : string;
  at_schema : string;
  at_toolKey : string
}.

Record integration := {
  mcpManager : option manager;
  int_isInitialized : bool;
  toolRegistry : list (string * agent_tool)
}.

(** [new MCPIntegration(mainWindow)] *)
Definition new_integration : integration :=
  {| mcpManager := None; int_isInitialized := false; toolRegistry := [] |}.

Definition with_manager (m : option manager) (i : integration) : integration :=
  {| mcpManager := m; int_isInitialized := int_isInitialized i;
     toolRegistry := toolRegistry i |}.

Definition with_toolRegistry (t : list (string * agent_tool)) (i : integration) : integration :=
  {| mcpManager := mcpManager i; int_isInitialized := int_isInitialized i;
     toolRegistry := t |}.

Definition with_int_isInitialized (b : bool) (i : integration) : integration :=
  {| mcpManager := mcpManager i; int_isInitialized := b;
     toolRegistry := toolRegistry i |}.

Definition agent_tool_of (toolKey : string) (tool : tool_entry) : agent_tool :=
  {| at_name := te_name tool; at_description := te_description tool;
     at_server := te_serverId tool; at_schema := te_inputSchema tool;
     at_toolKey := toolKey |}.

(** The loop of [registerTools], from the cleared registry. *)
Definition flatten (reg : list (string * tool_entry)) : list (string * agent_tool) :=
  fold_left (fun acc kv => JsMap.set acc (te_name (snd kv)) (agent_tool_of (fst kv) (snd kv)))
            reg JsMap.empty.

Definition registerTools (i : integration) : integration :=
  match mcpManager i with
  | None => i
  | Some m => with_toolRegistry (flatten (tools m)) i
  end.

(** The listener of the manager's ['initialized'] event. *)
Definition updateToolRegistry (i : integration) : integration := registerTools i.

Definition getTool (i : integration) (toolName : string) : option agent_tool :=
  JsMap.get (toolRegistry i) toolName.

(** [executeTool]: the task that runs on the integration's manager. *)
Definition executeTool (i : integration) (toolName : string) (args : string)
    : M (option rpc_result) :=
  match getTool i toolName with
  | None => throw (ToolNotFound toolName)
  | Some tool => callTool (at_toolKey tool) args
  end.

(** What the integration finds outside the manager when [initialize] is
    called: the parsed configuration file ([None] when [loadMCPConfig]
    throws) and whether [ipcMain.handle] accepts the registrations of
    [setupIPCHandlers], which it does as long as the channels have no
    handler. *)
Record host := {
  config_file : option (list (string * server_config));
  ipc_accepts : bool
}.

(** The host as a call of [initialize] leaves it.  A call that gets to
    [setupIPCHandlers] leaves the channels with a handler: nothing in the
    integration removes one, and [ipcMain.handle] throws on a channel that
    has one. *)
Definition host_after_initialize (h : host) (i : integration) : host :=
  if int_isInitialized i then h
  else
    match config_file h with
    | None => h
    | Some _ => {| config_file := config_file h; ipc_accepts := false |}
    end.

(** [MCPIntegration.initialize], with the manager's [initialize] run to
    completion at its [await] (every request settling). *)
Definition integration_initialize (h : host) (env : oracle) (a : ambient)
    (i : integration) : integration * completion unit :=
  if int_isInitialized i then (i, Normal tt)
  else
    match config_file h with
    | None => (i, Thrown ConfigFileError)
    | Some configured =>
        let i1 := with_manager (Some (new_manager configured)) i in
        if negb (ipc_accepts h) then (i1, Thrown IpcHandlerError)
        else
          let o := run env a (initialize (new_manager configured)) in
          let i2 := updateToolRegistry (with_manager (Some (final o)) i1) in
          match result o with
          | Thrown e => (i2, Thrown e)
          | Normal _ => (with_int_isInitialized true (registerTools i2), Normal tt)
          end
    end.

(** The handler of ['mcp-refresh']: [shutdown] of the manager, then
    [this.initialize()] of the integration. *)
Definition mcp_refresh (h : host) (env : oracle) (a : ambient)
    (i : integration) : integration * bool :=
  match mcpManager i with
  | None => (i, false)
  | Some m =>
      let o := run env a (shutdown m) in
      let i1 := with_manager (Some (final o)) i in
      match result o with
      | Thrown _ => (i1, false)
      | Normal _ =>
          match integration_initialize h env (after o) i1 with
          | (i2, Normal _) => (i2, true)
          | (i2, Thrown _) => (i2, false)
          end
      end
  end.

(** The tools registry that the renderer reads after a refresh. *)
Definition registry_of (i : integration) : list (string * tool_entry) :=
  match mcpManager i with
  | Some m => tools m
  | None => []
  end.

(** [getToolNames] and [hasToolCachin] *)
Definition getToolNames (i : integration) : list string := JsMap.keys (toolRegistry i).

Definition hasToolCachin (i : integration) (toolName : string) : bool :=
  JsMap.has (toolRegistry i) toolName.

Definition highPriorityServers : list string :=
  ["desktop-commander"; "filesystem"; "memory"; "playwright"; "windows-mcp"; "pieces"].

(** [highPriorityServers.includes(tool.server)] *)
Definition includes (l : list string) (x : string) : bool := existsb (String.eqb x) l.

(** [getHighPriorityTools]: in [{ name, ...tool }] the [name] of the
    descriptor comes last, so each element is the descriptor itself. *)
Definition getHighPriorityTools (i : integration) : list agent_tool :=
  map snd (filter (fun entry => includes highPriorityServers (at_server (snd entry)))
                  (toolRegistry i)).

(** The handler of ['mcp-call-tool']: the task on the manager, if there
    is one. *)
Definition mcp_call_tool (i : integration) (toolName args : string)
    : option (M (option rpc_result)) :=
  match mcpManager i with
  | None => None                       (* throws 'MCP Manager not initialized' *)
  | Some _ => Some (callTool toolName args)
  end.

Record stats := {
  stats_initialized : bool;
  stats_serverCount : nat;
  stats_toolCount : nat;
  stats_resourceCount : nat;
  stats_serverStatus : option (list (string * server_status))
}.

(** The handler of ['mcp-get-stats'] *)
Definition mcp_get_stats (i : integration) : stats :=
  match mcpManager i with
  | None =>
      {| stats_initialized := false; stats_serverCount := 0; stats_toolCount := 0;
         stats_resourceCount := 0; stats_serverStatus := None |}
  | Some m =>
      {| stats_initialized := int_isInitialized i;
         stats_serverCount := length (servers m);
         stats_toolCount := length (tools m);
         stats_resourceCount := length (resources m);
         stats_serverStatus := Some (getServerStatus m) |}
  end.

(** [MCPIntegration.shutdown], with the manager's [shutdown] run to
    completion at its [await]. *)
Definition integration_shutdown (env : oracle) (a : ambient) (i : integration)
    : integration * completion unit :=
  let cleared (j : integration) :=
    with_int_isInitialized false (with_toolRegistry JsMap.empty j) in
  match mcpManager i with
  | None => (cleared i, Normal tt)
  | Some m =>
      let o := run env a (shutdown m) in
      match result o with
      | Thrown e => (with_manager (Some (final o)) i, Thrown e)
      | Normal _ => (cleared (with_manager None i), Normal tt)
      end
  end.

(** ** ResponseCache

    The cache directory is a map from cache keys to the text of the file
    [<key>.json], next to the saved index [index.json].  Reading a file
    that is not there throws; [writeFileSync] and [unlinkSync] throw when
    the directory is not [writable]; time stamps, sizes, [ttl] and
    [maxSize] are integers, for which the comparison with
    [maxSize * 0.8] is the comparison of five times the one side with four
    times [maxSize]. *)

Module Cache.
Section ResponseCache.

Variable response : Type.
Variable number : Type.
(** [!x] on a number: zero and NaN *)
Variable falsy : number -> bool.
(** the literals [0.7] and [1000] *)
Variable default_temperature : number.
Variable default_max_tokens : number.

Record options := {
  temperature : option number;
  max_tokens : option number
}.

Record params := {
  provider : option string;
  model : option string;
  prompt : option string;
  request_options : option options
}.

Record normalized := {
  n_provider : option string;
  n_model : option string;
  n_prompt : option string;
  n_temperature : number;
  n_max_tokens : number
}.

(** the SHA-256 digest, in hex, of [JSON.stringify(normalized)] *)
Variable digest : normalized -> string.
(** [JSON.stringify(response)]; [JSON.parse(data)], [None] when it
    throws; and the size that [fs.statSync] reports for a file with this
    text *)
Variable stringify : response -> string.
Variable parse : string -> option response.
Variable byte_length : string -> Z.

Record index_entry := {
  timestamp : Z;
  size : Z;
  entry_provider : option string;
  entry_model : option string
}.

Record cache := {
  enabled : bool;
  ttl : Z;
  maxSize : Z;
  index : list (string * index_entry);
  files : list (string * string);
  index_file : option (list (string * index_entry));
  writable : bool
}.

Definition with_index (x : list (string * index_entry)) (c : cache) : cache :=
  {| enabled := enabled c; ttl := ttl c; maxSize := maxSize c; index := x;
     files := files c; index_file := index_file c; writable := writable c |}.

Definition with_files (x : list (string * string)) (c : cache) : cache :=
  {| enabled := enabled c; ttl := ttl c; maxSize := maxSize c; index := index c;
     files := x; index_file := index_file c; writable := writable c |}.

Definition with_index_file (x : option (list (string * index_entry))) (c : cache) : cache :=
  {| enabled := enabled c; ttl := ttl c; maxSize := maxSize c; index := index c;
     files := files c; index_file := x; writable := writable c |}.

(** [x || d] *)
Definition or_default (x : option number) (d : number) : number :=
  match x with
  | Some v => if falsy v then d else v
  | None => d
  end.

(** The object [normalized] of [_generateKey]. *)
Definition normalize (p : params) : normalized :=
  {| n_provider := provider p;
     n_model := model p;
     n_prompt := prompt p;
     n_temperature :=
       or_default (match request_options p with
                   | Some o => temperature o
                   | None => None
                   end) default_temperature;
     n_max_tokens :=
       or_default (match request_options p with
                   | Some o => max_tokens o
                   | None => None
                   end) default_max_tokens |}.

Definition _generateKey (p : params) : string := digest (normalize p).

(** [loadIndex], as the constructor calls it on the empty index: the
    saved index, when there is one that parses. *)
Definition loadIndex (c : cache) : cache :=
  if negb (enabled c) then c
  else match index_file c with
       | Some saved => with_index saved c
       | None => with_index JsMap.empty c
       end.

Definition saveIndex (c : cache) : cache :=
  if negb (enabled c) then c
  else if writable c then with_index_file (Some (index c)) c
  else c.

Definition delete (key : string) (c : cache) : cache :=
  if negb (enabled c) then c
  else if JsMap.has (files c) key then
    if writable c then
      saveIndex (with_index (JsMap.delete (index c) key)
                            (with_files (JsMap.delete (files c) key) c))
    else c                                   (* [unlinkSync] throws *)
  else saveIndex (with_index (JsMap.delete (index c) key) c).

Definition clear (c : cache) : cache :=
  if negb (enabled c) then c
  else match files c with
       | _ :: _ =>
           if writable c then saveIndex (with_index JsMap.empty (with_files [] c))
           else c                            (* the first [unlinkSync] throws *)
       | [] => saveIndex (with_index JsMap.empty c)
       end.

(** [entries.reduce((sum, entry) => sum + entry.size, 0)] *)
Definition total (x : list (string * index_entry)) : Z :=
  fold_left (fun sum entry => (sum + size (snd entry))%Z) x 0%Z.

(** [entries.sort((a, b) => a[1].timestamp - b[1].timestamp)]: oldest
    first, entries of one time stamp in their order. *)
Fixpoint insert (x : string * index_entry) (l : list (string * index_entry))
    : list (string * index_entry) :=
  match l with
  | [] => [x]
  | y :: r =>
      if (timestamp (snd x) <=? timestamp (snd y))%Z then x :: y :: r
      else y :: insert x r
  end.

Definition sort (l : list (string * index_entry)) : list (string * index_entry) :=
  fold_right insert [] l.

(** The loop of [_evictIfNeeded]. *)
Fixpoint evict (entries : list (string * index_entry)) (totalSize freedSpace : Z)
    (c : cache) : cache :=
  match entries with
  | [] => c
  | (key, entry) :: rest =>
      let c' := delete key c in
      let freedSpace' := (freedSpace + size entry)%Z in
      if (5 * (totalSize - freedSpace') <? 4 * maxSize c)%Z then c'
      else evict rest totalSize freedSpace' c'
  end.

Definition _evictIfNeeded (c : cache) : cache :=
  let totalSize := total (index c) in
  if (totalSize <? maxSize c)%Z then c
  else evict (sort (index c)) totalSize 0%Z c.

(** What [get] returns on a hit: [{ ...cached, cached: true, cacheAge }]. *)
Record hit := {
  hit_response : response;
  hit_cacheAge : Z
}.

(** [get(params)] when [Date.now()] is [now]. *)
Definition get (p : params) (now : Z) (c : cache) : cache * option hit :=
  if negb (enabled c) then (c, None)
  else
    let key := _generateKey p in
    match JsMap.get (index c) key with
    | None => (c, None)
    | Some indexEntry =>
        if (ttl c <? now - timestamp indexEntry)%Z then (delete key c, None)
        else
          match JsMap.get (files c) key with
          | None => (delete key c, None)       (* [readFileSync] throws *)
          | Some data =>
              match parse data with
              | None => (delete key c, None)   (* [JSON.parse] throws *)
              | Some cached =>
                  (c, Some {| hit_response := cached;
                              hit_cacheAge := (now - timestamp indexEntry)%Z |})
              end
          end
    end.

(** [set(params, response)] when [Date.now()] is [now]. *)
Definition set (p : params) (r : response) (now : Z) (c : cache) : cache :=
  if negb (enabled c) then c
  else
    let key := _generateKey p in
    let c1 := _evictIfNeeded c in
    if writable c1 then
      let text := stringify r in
      let c2 := with_files (JsMap.set (files c1) key text) c1 in
      saveIndex (with_index (JsMap.set (index c2) key
                               {| timestamp := now; size := byte_length text;
                                  entry_provider := provider p;
                                  entry_model := model p |}) c2)
    else c1                                    (* [writeFileSync] throws *).

(** The saved index is the index in memory, and every entry of the
    index has its file. *)
Definition consistent (c : cache) : Prop :=
  index_file c = Some (index c) /\
  forall key, JsMap.has (index c) key = true -> JsMap.has (files c) key = true.

End ResponseCache.
End Cache.

(** ** ProviderRouter

    [complete] on a router whose routing policy and providers are given:
    [selectProvider] is the decision of [this.policy] for the request,
    and [provider_complete] what the named provider's [complete] resolves
    with ([None] when it rejects).  The readings of [Date.now()] during
    one call are given with the call. *)

Module Router.
Import Cache.
Section ProviderRouter.

Variable number : Type.
Variable falsy : number -> bool.
Variable default_temperature : number.
Variable default_max_tokens : number.
Variable digest : normalized number -> string.
Variable reply : Type.
Variable context : Type.

Record routing := {
  route_provider : option string;
  route_model : option string;
  route_reason : string
}.

Record request := {
  req_provider : option string;
  req_model : option string;
  req_prompt : option string;
  req_options : option (options number);
  req_context : option context
}.

(** The provider's response once [routing] and [latency] are assigned. *)
Record response := {
  body : reply;
  response_routing : routing;
  response_latency : Z
}.

Variable stringify : response -> string.
Variable parse : string -> option response.
Variable byte_length : string -> Z.
Variable selectProvider : request -> routing.
Variable provider_complete :
  string -> option string -> option string -> option (options number) -> option reply.

Record history_entry := {
  h_provider : option string;
  h_model : option string;
  h_cached : bool;
  h_success : bool;
  h_latency : Z;
  h_timestamp : Z
}.

Record router := {
  cache_of : cache;
  requestHistory : list history_entry
}.

Definition maxHistorySize : nat := 1000.

Record readings := {
  t_start : Z;      (* [startTime] *)
  t_get : Z;        (* in [cache.get] *)
  t_latency : Z;    (* where the latency is taken *)
  t_set : Z;        (* in [cache.set] *)
  t_record : Z      (* in [_recordRequest] *)
}.

Definition _recordRequest (e : history_entry) (s : router) : router :=
  let pushed := requestHistory s ++ [e] in
  {| cache_of := cache_of s;
     requestHistory := if Nat.ltb maxHistorySize (length pushed) then tl pushed else pushed |}.

Definition _routeRequest (p : request) : routing :=
  if truthy (req_provider p) && truthy (req_model p) then
    {| route_provider := req_provider p; route_model := req_model p;
       route_reason := "explicit selection" |}
  else selectProvider p.

(** [this.providers[routing.provider]] *)
Definition provider_named (name : option string) : option string :=
  match name with
  | Some n => if existsb (String.eqb n) ["openai"; "anthropic"; "vertex"] then Some n else None
  | None => None
  end.

(** The parameters of the look-up and of the store. *)
Definition lookup_params (p : request) : params number :=
  {| provider := req_provider p; model := req_model p; prompt := req_prompt p;
     request_options := req_options p |}.

Definition store_params (p : request) (r : routing) : params number :=
  {| provider := route_provider r; model := route_model r; prompt := req_prompt p;
     request_options := req_options p |}.

Inductive completed :=
| Cached (h : hit response)
| Answered (r : response)
| Failed.

Definition complete (p : request) (t : readings) (s : router) : router * completed :=
  let latency := (t_latency t - t_start t)%Z in
  match get falsy default_temperature default_max_tokens digest parse
            (lookup_params p) (t_get t) (cache_of s) with
  | (c1, Some cached) =>
      (_recordRequest {| h_provider := req_provider p; h_model := req_model p;
                         h_cached := true; h_success := true; h_latency := latency;
                         h_timestamp := t_record t |}
                      {| cache_of := c1; requestHistory := requestHistory s |},
       Cached cached)
  | (c1, None) =>
      let routing := _routeRequest p in
      let failed :=
        (_recordRequest {| h_provider := req_provider p; h_model := req_model p;
                           h_cached := false; h_success := false; h_latency := latency;
                           h_timestamp := t_record t |}
                        {| cache_of := c1; requestHistory := requestHistory s |},
         Failed) in
      match provider_named (route_provider routing) with
      | None => failed
      | Some name =>
          match provider_complete name (req_prompt p) (route_model routing) (req_options p) with
          | None => failed
          | Some answer =>
              let r := {| body := answer; response_routing := routing;
                          response_latency := latency |} in
              let c2 := set falsy default_temperature default_max_tokens digest
                            stringify byte_length (store_params p routing) r (t_set t) c1 in
              (_recordRequest {| h_provider := route_provider routing;
                                 h_model := route_model routing;
                                 h_cached := false; h_success := true;
                                 h_latency := latency; h_timestamp := t_record t |}
                              {| cache_of := c2; requestHistory := requestHistory s |},
               Answered r)
          end
      end
  end.

End ProviderRouter.
End Router.

(** A cache whose responses are texts and whose numbers are integers (a
    temperature in tenths), with a stand-in for the digest. *)
Module CacheScenario.
Import Cache.

Definition falsy (n : Z) : bool := Z.eqb n 0.

Definition digest (n : normalized Z) : string :=
  (match n_prompt n with Some s => s | None => "undefined" end) ++
  (if Z.eqb (n_temperature n) 7 then "|0.7" else "|t") ++
  (if Z.eqb (n_max_tokens n) 1000 then "|1000" else "|m").

Definition byte_length (s : string) : Z := Z.of_nat (String.length s).

Definition ask (text : string) (t : option Z) : params Z :=
  {| provider := Some "openai"; model := Some "gpt-4o-mini"; prompt := Some text;
     request_options := Some {| temperature := t; max_tokens := None |} |}.

Definition fresh : cache :=
  {| enabled := true; ttl := 3600000; maxSize := 10; index := []; files := [];
     index_file := None; writable := true |}.

Definition store (p : params Z) (r : string) (now : Z) (c : cache) : cache :=
  set falsy 7%Z 1000%Z digest (fun s => s) byte_length p r now c.

Definition look_up (p : params Z) (now : Z) (c : cache) : cache * option (hit string) :=
  get falsy 7%Z 1000%Z digest (fun s => Some s) p now c.

(** Two stored responses of six bytes each. *)
Definition filled : cache :=
  store (ask "second" None) "answer" 2000 (store (ask "first" None) "answer" 1000 fresh).

End CacheScenario.

(** A router over that cache: the policy sends every request to one
    model, and every provider answers. *)
Module RouterScenario.
Import Cache Router.

Definition digest (n : normalized Z) : string :=
  (match n_provider n with Some s => s | None => "undefined" end) ++ "|" ++
  (match n_model n with Some s => s | None => "undefined" end) ++ "|" ++
  (match n_prompt n with Some s => s | None => "undefined" end).

Definition by_default : routing :=
  {| route_provider := Some "openai"; route_model := Some "gpt-4o-mini";
     route_reason := "default (balanced cost/performance)" |}.

Definition explicit : routing :=
  {| route_provider := Some "openai"; route_model := Some "gpt-4o";
     route_reason := "explicit selection" |}.

Definition stringify (r : response string) : string := body r.

Definition parse (s : string) : option (response string) :=
  Some {| body := s; response_routing := explicit; response_latency := 5 |}.

Definition selectProvider (p : request Z unit) : routing := by_default.

Definition provider_complete (name : string) (prompt model : option string)
    (o : option (options Z)) : option string := Some "answer".

Definition ask (provider model : option string) : request Z unit :=
  {| req_provider := provider; req_model := model; req_prompt := Some "first";
     req_options := None; req_context := None |}.

Definition idle : router :=
  {| cache_of := CacheScenario.fresh; requestHistory := [] |}.

Definition at_time (t : Z) : readings :=
  {| t_start := t; t_get := t; t_latency := (t + 5)%Z; t_set := (t + 5)%Z;
     t_record := (t + 5)%Z |}.

Definition run (p : request Z unit) (t : Z) (s : router) : router * completed string :=
  complete CacheScenario.falsy 7%Z 1000%Z digest stringify parse CacheScenario.byte_length
           selectProvider provider_complete p (at_time t) s.

End RouterScenario.

(** ** Vocabulary of the properties *)

(** What [callTool] hands back for the settlement of its one request to
    the server [s]: the [result] member of the reply, or the failure.  On
    a command connection a reply that carries an [error] member rejects;
    on the remote transport the body [null] has no [result] to read. *)
Definition reply_of (s : server) (o : settle) : completion (option rpc_result) :=
  match o with
  | Rejected e => Thrown e
  | FulfilledNull =>
      match srv_type s with
      | SSE => Thrown null_property
      | Command => Thrown (CommandTimeout (srv_timeout s))
      end
  | Fulfilled reply =>
      match srv_type s with
      | SSE => Normal (msg_result reply)
      | Command =>
          match msg_error reply with
          | Some e => Thrown (RPCError (Connection.rpc_error_text e))
          | None => Normal (msg_result reply)
          end
      end
  end.

(** A configured server connects when it is an SSE entry whose
    [initialize] request is fulfilled with a body that is not [null]. *)
Definition connects (env : oracle) (entry : string * server_config) : bool :=
  is_sse (snd entry) &&
  match answer env (fst entry) initialize_request with
  | Fulfilled _ => true
  | _ => false
  end.

(** The registration loops on the registries, for lists of objects. *)
Definition register_tools (serverId : string) (l : list tool_decl)
    (reg : list (string * tool_entry)) : list (string * tool_entry) :=
  fold_left (fun acc tool =>
               JsMap.set acc (qualified serverId (td_name tool)) (tool_entry_of serverId tool))
            l reg.

Definition register_resources (serverId : string) (l : list resource_decl)
    (reg : list (string * resource_entry)) : list (string * resource_entry) :=
  fold_left (fun acc resource =>
               JsMap.set acc (qualified serverId (rd_uri resource))
                         (resource_entry_of serverId resource))
            l reg.

Definition register_prompts (serverId : string) (l : list prompt_decl)
    (reg : list (string * prompt_entry)) : list (string * prompt_entry) :=
  fold_left (fun acc prompt =>
               JsMap.set acc (qualified serverId (pd_name prompt))
                         (prompt_entry_of serverId prompt))
            l reg.

(** The list members of a response that is an object. *)
Definition tools_member (response : rpc_message) : member tool_decl :=
  match msg_result response with Some r => res_tools r | None => Absent end.
Definition resources_member (response : rpc_message) : member resource_decl :=
  match msg_result response with Some r => res_resources r | None => Absent end.
Definition prompts_member (response : rpc_message) : member prompt_decl :=
  match msg_result response with Some r => res_prompts r | None => Absent end.

(** The elements that a registration loop gets through: those before the
    first [null] element of an array, and none of anything else. *)
Fixpoint leading {A : Type} (l : list (option A)) : list A :=
  match l with
  | Some x :: r => x :: leading r
  | _ => []
  end.

Definition handled {A : Type} (x : member A) : list A :=
  match x with
  | Items l => leading l
  | _ => []
  end.

Definition is_object {A : Type} (x : option A) : bool :=
  match x with Some _ => true | None => false end.

(** What ends a registration loop before the end of its list, if anything. *)
Definition failure {A : Type} (x : member A) : option error :=
  match x with
  | Absent => None
  | Items l => if forallb is_object l then None else Some null_property
  | NotIterable => Some not_iterable
  end.

(** The manager after the registration loop of a response. *)
Definition add_tools (serverId : string) (response : rpc_message) (m : manager) : manager :=
  fold_left (fun m tool =>
               with_tools (JsMap.set (tools m) (qualified serverId (td_name tool))
                                     (tool_entry_of serverId tool)) m)
            (handled (tools_member response)) m.

Definition add_resources (serverId : string) (response : rpc_message) (m : manager) : manager :=
  fold_left (fun m resource =>
               with_resources (JsMap.set (resources m) (qualified serverId (rd_uri resource))
                                         (resource_entry_of serverId resource)) m)
            (handled (resources_member response)) m.

Definition add_prompts (serverId : string) (response : rpc_message) (m : manager) : manager :=
  fold_left (fun m prompt =>
               with_prompts (JsMap.set (prompts m) (qualified serverId (pd_name prompt))
                                       (prompt_entry_of serverId prompt)) m)
            (handled (prompts_member response)) m.

(** One list call of discovery whose request settled as [o]: the manager
    that its registrations leave, and the error that ends the [try] block
    there, if any. *)
Definition registered (add : rpc_message -> manager -> manager) (o : settle) (m : manager)
    : manager :=
  match o with
  | Fulfilled response => add response m
  | _ => m
  end.

Definition stops {A : Type} (list : rpc_message -> member A) (o : settle) : option error :=
  match o with
  | Fulfilled response => failure (list response)
  | FulfilledNull => Some null_property
  | Rejected e => Some e
  end.

(** The objects that the loop of a list call registers. *)
Definition listing_of {A : Type} (member_of : rpc_message -> member A) (o : settle)
    : list A :=
  match o with
  | Fulfilled response => handled (member_of response)
  | _ => []
  end.

(** From [m] to [m'] no key was taken out of a registry, and every entry
    whose key does not begin with [serverId] and a slash is as it was. *)
Definition keeps_other_entries (serverId : string) (m m' : manager) : Prop :=
  incl (JsMap.keys (tools m)) (JsMap.keys (tools m')) /\
  incl (JsMap.keys (resources m)) (JsMap.keys (resources m')) /\
  incl (JsMap.keys (prompts m)) (JsMap.keys (prompts m')) /\
  forall k, String.prefix (serverId ++ "/") k = false ->
            JsMap.get (tools m') k = JsMap.get (tools m) k /\
            JsMap.get (resources m') k = JsMap.get (resources m) k /\
            JsMap.get (prompts m') k = JsMap.get (prompts m) k.

(** The registries apart, [m'] is as [m]. *)
Definition same_servers (m m' : manager) : Prop :=
  heap m' = heap m /\ servers m' = servers m /\ isInitialized m' = isInitialized m /\
  serverConfigs m' = serverConfigs m /\ emitted m' = emitted m.

(** The connection of a command server when [createCommandConnection]
    has spawned the child and installed its listeners: no call was made,
    and [connected] is false. *)
Definition spawned (serverId : string) (config : server_config) : Connection.conn :=
  {| Connection.c_server := with_process true (command_server serverId config);
     Connection.c_settled := []; Connection.c_emitted := [];
     Connection.c_stdin := []; Connection.c_timers := [] |}.

(** [response.result?.capabilities] of a response that is an object. *)
Definition capabilities_of (response : rpc_message) : option string :=
  match msg_result response with
  | Some r => res_capabilities r
  | None => None
  end.

(** The ids in the [servers] map whose object has [connected] set. *)
Definition connected_servers (m : manager) : list string :=
  map fst (filter (fun kr => srv_connected (deref m (snd kr))) (servers m)).

Definition tools_request (now : Z) : rpc_request :=
  {| rq_id := now; rq_method := "tools/list"; rq_params := PNone |}.
Definition resources_request (now : Z) : rpc_request :=
  {| rq_id := now; rq_method := "resources/list"; rq_params := PNone |}.
Definition prompts_request (now : Z) : rpc_request :=
  {| rq_id := now; rq_method := "prompts/list"; rq_params := PNone |}.
Definition call_request (now : Z) (name args : string) : rpc_request :=
  {| rq_id := now; rq_method := "tools/call"; rq_params := PToolCall name args |}.

(** The catalog that a reader of the three registries sees. *)
Definition catalog (m : manager)
    : list (string * tool_entry) * list (string * resource_entry) * list (string * prompt_entry) :=
  (tools m, resources m, prompts m).

(** The run-time after a request to [target] has settled. *)
Definition tick (env : oracle) (a : ambient) (target : string) (request : rpc_request) : ambient :=
  {| clock := (clock a + elapsed env target request)%Z; next_promise := next_promise a |}.

Definition waiting (m : manager) (target : string) (request : rpc_request) : suspension :=
  {| visible := m; sus_target := target; sus_via := SSE; sus_request := request |}.

(** Every entry of the [servers] map designates a connected object of the
    remote transport. *)
Definition all_connected (m : manager) : Prop :=
  forall k r, In (k, r) (servers m) ->
              r < length (heap m) /\ srv_connected (deref m r) = true /\
              srv_type (deref m r) = SSE.

(** The three registries are keyed as discovery keys them: one entry per
    key, and each key is the id of a server of the [servers] map, a slash,
    and the name (the uri, for a resource) of its entry. *)
Definition keyed_by_servers (m : manager) : Prop :=
  JsMap.wf (tools m) /\ JsMap.wf (resources m) /\ JsMap.wf (prompts m) /\
  (forall k e, In (k, e) (tools m) ->
     exists s, JsMap.has (servers m) s = true /\ k = qualified s (te_name e)) /\
  (forall k e, In (k, e) (resources m) ->
     exists s, JsMap.has (servers m) s = true /\ k = qualified s (re_uri e)) /\
  (forall k e, In (k, e) (prompts m) ->
     exists s, JsMap.has (servers m) s = true /\ k = qualified s (pe_name e)).

(** ** Scenarios *)

Module Scenario.

(** A command server with [connected] set and an empty pending table: a
    state for the callbacks taken on their own (no run sets [connected] on
    a command server). *)
Definition child : server :=
  {| srv_id := "beta"; srv_type := Command; srv_url := None;
     srv_command := Some "node"; srv_args := ["server.js"];
     srv_timeout := 300; srv_autoApprove := [];
     srv_process := true; srv_connected := true;
     srv_capabilities := None; srv_responseHandlers := [] |}.

Definition fresh_conn : Connection.conn :=
  {| Connection.c_server := child; Connection.c_settled := [];
     Connection.c_emitted := []; Connection.c_stdin := [];
     Connection.c_timers := [] |}.

Definition result_with (l : option (list tool_decl)) (rs : option (list resource_decl))
    : rpc_result :=
  {| res_capabilities := None; res_tools := array_of l; res_resources := array_of rs;
     res_prompts := Absent; res_content := "ok" |}.

Definition reply (id : Z) : rpc_message :=
  {| msg_id := Some id; msg_error := None; msg_result := Some (result_with None None) |}.

Definition echo : tool_decl :=
  {| td_name := "echo"; td_description := "repeats its input";
     td_inputSchema := "{}"; td_serverId := None |}.

Definition readme : resource_decl :=
  {| rd_uri := "file:///readme"; rd_name := "readme"; rd_description := "the project readme";
     rd_mimeType := "text/plain"; rd_serverId := None |}.

Definition listing (l : option (list tool_decl)) (rs : option (list resource_decl))
    : rpc_message :=
  {| msg_id := None; msg_error := None; msg_result := Some (result_with l rs) |}.

Definition sse_entry : server_config :=
  {| cfg_type := Some "sse"; cfg_url := Some "http://localhost:3000";
     cfg_command := None; cfg_args := []; cfg_timeout := None;
     cfg_autoApprove := [] |}.

Definition command_entry : server_config :=
  {| cfg_type := None; cfg_url := None; cfg_command := Some "node";
     cfg_args := ["server.js"]; cfg_timeout := None; cfg_autoApprove := [] |}.

(** Four configured servers: a command server, and three SSE servers of
    which "gamma" refuses every request. *)
Definition configured : list (string * server_config) :=
  [("alpha", command_entry); ("beta", sse_entry);
   ("gamma", sse_entry); ("delta", sse_entry)].

(** Every server that answers lists the tool "echo" and the resource
    "readme". *)
Definition upstream : oracle :=
  {| answer := fun target request =>
       if String.eqb target "gamma" then Rejected (TransportError "HTTP 500")
       else if String.eqb (rq_method request) "tools/list"
            then Fulfilled (listing (Some [echo]) None)
       else if String.eqb (rq_method request) "resources/list"
            then Fulfilled (listing None (Some [readme]))
       else Fulfilled (listing None None);
     elapsed := fun _ _ => 5%Z |}.


Definition boot : ambient := {| clock := 1000; next_promise := 0 |}.

Definition started : outcome unit :=
  run upstream boot (initialize (new_manager configured)).

(** The manager after [initialize], with the object of "beta" marked
    disconnected. *)
Definition beta_down : manager :=
  with_heap (list_update (heap (final started)) 1 (with_connected false)) (final started).

(** A manager whose one server is the command server [child], for
    [callTool] past the guard of [sendCommand]. *)
Definition piped : manager :=
  {| heap := [child]; servers := [("beta", 0)];
     tools := [("beta/echo", tool_entry_of "beta" echo)];
     resources := []; prompts := []; isInitialized := true;
     serverConfigs := [("beta", command_entry)]; emitted := [EvInitialized] |}.

Definition desktop : host :=
  {| config_file := Some configured; ipc_accepts := true |}.

(** The manager after [initialize] with two servers of which one id
    begins with the other. *)
Definition namesakes : manager :=
  final (run upstream boot
             (initialize (new_manager [("fs", sse_entry); ("fs-extra", sse_entry)]))).

(** Two servers run as child processes, as in the scenario of the
    specification: "alpha" exits at once, "beta" answers whatever it is
    sent. *)
Definition processes : list (string * server_config) :=
  [("alpha", command_entry); ("beta", command_entry)].

Definition answering : oracle :=
  {| answer := fun target request =>
       if String.eqb target "alpha" then Rejected (TransportError "exit 1")
       else answer upstream target request;
     elapsed := fun _ _ => 5%Z |}.

(** Two remote servers that both list "echo". *)
Definition pair : list (string * server_config) :=
  [("beta", sse_entry); ("delta", sse_entry)].

(** The tool object [{ name: 'echo', ..., serverId: id }]. *)
Definition echo_of (id : string) : tool_decl :=
  {| td_name := "echo"; td_description := "repeats its input";
     td_inputSchema := "{}"; td_serverId := Some id |}.

(** As [upstream], but the tool that [target] lists carries the property
    [serverId: other]. *)
Definition naming (target other : string) : oracle :=
  {| answer := fun t request =>
       if String.eqb t target && String.eqb (rq_method request) "tools/list"
       then Fulfilled (listing (Some [echo_of other]) None)
       else answer upstream t request;
     elapsed := fun _ _ => 5%Z |}.




(** The requests that "beta" leaves without an end: its [tools/list]. *)
Definition stalled (target : string) (request : rpc_request) : bool :=
  String.eqb target "beta" && String.eqb (rq_method request) "tools/list".

End Scenario.

(** * Properties *)

(** ** Facts about [Map] and strings *)

Module JsMapFacts.
Section Facts.
Context {K V : Type} `{EqKey K}.

Lemma keqb_refl (k : K) : keqb k k = true.
Proof. apply keqb_spec. reflexivity. Qed.

Lemma keqb_neq (a b : K) : a <> b -> keqb a b = false.
Proof.
  intros Hab. destruct (keqb a b) eqn:E; [|reflexivity].
  apply keqb_spec in E. contradiction.
Qed.

Lemma get_set_same (m : list (K * V)) k v : JsMap.get (JsMap.set m k v) k = Some v.
Proof.
  induction m as [|[k' v'] r IH]; simpl.
  - now rewrite keqb_refl.
  - destruct (keqb k' k) eqn:E; simpl.
    + now rewrite keqb_refl.
    + now rewrite E.
Qed.

Lemma get_set_other (m : list (K * V)) k k' v :
  k <> k' -> JsMap.get (JsMap.set m k v) k' = JsMap.get m k'.
Proof.
  intros Hne. induction m as [|[k0 v0] r IH]; simpl.
  - now rewrite (keqb_neq Hne).
  - destruct (keqb k0 k) eqn:E; simpl.
    + apply keqb_spec in E. subst k0. now rewrite (keqb_neq Hne).
    + destruct (keqb k0 k'); [reflexivity | exact IH].
Qed.

Lemma get_none_notin (m : list (K * V)) k :
  JsMap.get m k = None <-> ~ In k (JsMap.keys m).
Proof.
  induction m as [|[k0 v0] r IH]; simpl.
  - tauto.
  - destruct (keqb k0 k) eqn:E.
    + apply keqb_spec in E. subst. split; [discriminate | intros Hn; exfalso; auto].
    + rewrite IH. split.
      * intros Hn [Heq | Hin]; [|auto].
        subst. rewrite keqb_refl in E. discriminate.
      * tauto.
Qed.

Lemma get_in (m : list (K * V)) k v : JsMap.get m k = Some v -> In (k, v) m.
Proof.
  induction m as [|[k0 v0] r IH]; simpl; [discriminate|].
  destruct (keqb k0 k) eqn:E.
  - apply keqb_spec in E. intros [= ->]. subst. now left.
  - intros Hg. right. auto.
Qed.

Lemma in_get (m : list (K * V)) k v :
  JsMap.wf m -> In (k, v) m -> JsMap.get m k = Some v.
Proof.
  unfold JsMap.wf. induction m as [|[k0 v0] r IH]; simpl; [tauto|].
  intros Hnd [Heq | Hin].
  - injection Heq as -> ->. now rewrite keqb_refl.
  - inversion Hnd as [|? ? Hnotin Hnd']; subst.
    destruct (keqb k0 k) eqn:E.
    + apply keqb_spec in E. subst. exfalso. apply Hnotin.
      change (In (fst (k, v)) (map fst r)). now apply in_map.
    + auto.
Qed.

Lemma keys_set_absent (m : list (K * V)) k v :
  JsMap.get m k = None -> JsMap.set m k v = m ++ [(k, v)].
Proof.
  induction m as [|[k0 v0] r IH]; simpl; [reflexivity|].
  destruct (keqb k0 k); [discriminate|].
  intros Hg. now rewrite IH.
Qed.

Lemma keys_set_present (m : list (K * V)) k v :
  JsMap.get m k <> None -> JsMap.keys (JsMap.set m k v) = JsMap.keys m.
Proof.
  induction m as [|[k0 v0] r IH]; simpl; [congruence|].
  destruct (keqb k0 k) eqn:E; simpl.
  - apply keqb_spec in E. now subst.
  - intros Hg. now rewrite IH.
Qed.

Lemma wf_set (m : list (K * V)) k v : JsMap.wf m -> JsMap.wf (JsMap.set m k v).
Proof.
  intros Hwf. unfold JsMap.wf. destruct (JsMap.get m k) eqn:E.
  - rewrite keys_set_present by congruence. exact Hwf.
  - rewrite keys_set_absent by exact E. unfold JsMap.keys. rewrite map_app. simpl.
    apply NoDup_app; [exact Hwf | repeat constructor; simpl; tauto |].
    intros a Hin [Heq | []]. subst a.
    apply get_none_notin in E. contradiction.
Qed.

Lemma has_delete (m : list (K * V)) k : JsMap.has (JsMap.delete m k) k = false.
Proof.
  unfold JsMap.has, JsMap.delete.
  induction m as [|[k0 v0] r IH]; simpl; [reflexivity|].
  destruct (keqb k0 k) eqn:E; simpl; [exact IH|].
  now rewrite E.
Qed.

Lemma get_delete_other (m : list (K * V)) k k' :
  k <> k' -> JsMap.get (JsMap.delete m k) k' = JsMap.get m k'.
Proof.
  intros Hne. unfold JsMap.delete.
  induction m as [|[k0 v0] r IH]; simpl; [reflexivity|].
  destruct (keqb k0 k) eqn:E; simpl.
  - apply keqb_spec in E. subst. now rewrite (keqb_neq Hne).
  - destruct (keqb k0 k'); [reflexivity | exact IH].
Qed.

Lemma delete_absent (m : list (K * V)) k :
  JsMap.has m k = false -> JsMap.delete m k = m.
Proof.
  unfold JsMap.has, JsMap.delete.
  induction m as [|[k0 v0] r IH]; simpl; [reflexivity|].
  destruct (keqb k0 k) eqn:E; simpl; [discriminate|].
  intros Hh. now rewrite IH.
Qed.

Lemma in_delete (m : list (K * V)) k kv :
  In kv (JsMap.delete m k) -> In kv m /\ fst kv <> k.
Proof.
  unfold JsMap.delete. rewrite filter_In. intros [Hin Hb]. split; [exact Hin|].
  intros Heq. subst. now rewrite keqb_refl in Hb.
Qed.
End Facts.
End JsMapFacts.

(** ** The process transport *)

Module ConnectionFacts.
Import Connection.

Lemma armed_existsb (p : promise) (id : Z) (l : list (promise * Z)) :
  In (p, id) l -> existsb (timer_eqb (p, id)) l = true.
Proof.
  intros Hin. apply existsb_exists. exists (p, id). split; [exact Hin|].
  unfold timer_eqb. simpl. now rewrite Nat.eqb_refl, Z.eqb_refl.
Qed.

Lemma has_get {V : Type} (m : list (Z * V)) (k : Z) :
  JsMap.has m k = true <-> exists v, JsMap.get m k = Some v.
Proof.
  unfold JsMap.has. destruct (JsMap.get m k) as [v|].
  - split; [intros _; now exists v | reflexivity].
  - split; [discriminate | intros [v Hv]; discriminate].
Qed.

(** A message whose id has no entry goes out as a ['server-message']
    event and touches neither the table nor any promise. *)
Lemma unmatched_message (c : conn) (message : rpc_message) (id : Z) :
  truthy_id message = Some id ->
  JsMap.has (srv_responseHandlers (c_server c)) id = false ->
  handleJSONRPCMessage message c = emit (EvServerMessage (srv_id (c_server c)) message) c.
Proof.
  intros Hid Hhas. unfold handleJSONRPCMessage. now rewrite Hid, Hhas.
Qed.

(** A message whose id has an entry deletes the entry and settles the
    promise stored there. *)
Lemma matched_message (c : conn) (message : rpc_message) (id : Z) (p : promise) :
  truthy_id message = Some id ->
  JsMap.get (srv_responseHandlers (c_server c)) id = Some p ->
  handleJSONRPCMessage message c =
  settle_promise p (settlement_of_message message)
                 (with_server (drop_handler id (c_server c)) c).
Proof.
  intros Hid Hget. unfold handleJSONRPCMessage, settlement_of_message, JsMap.has.
  rewrite Hid, Hget. now destruct (msg_error message).
Qed.

(** The ['exit'] listener on its own, on any state of the connection: it
    clears [connected] and emits ['server-disconnected'], and that is all.
    It does not look at the pending table: were a call pending, it would
    stay so, and be rejected later by its own timer with the time-out
    error. *)
Lemma process_exit_only_disconnects (c : conn) (code : option Z) (signal : option string) :
  let c' := process_exit code signal c in
  srv_connected (c_server c') = false /\
  c_emitted c' = c_emitted c ++ [EvServerDisconnected (srv_id (c_server c))] /\
  srv_responseHandlers (c_server c') = srv_responseHandlers (c_server c) /\
  c_settled c' = c_settled c /\
  c_timers c' = c_timers c /\
  (forall p id,
      In (p, id) (c_timers c) ->
      JsMap.has (srv_responseHandlers (c_server c)) id = true ->
      c_settled (timer_fires p id c') =
      c_settled c ++ [(p, Rejected (CommandTimeout (srv_timeout (c_server c))))]).
Proof.
  cbn. repeat split.
  intros p id Harmed Hhas. unfold timer_fires. cbn.
  rewrite (armed_existsb _ _ _ Harmed), Hhas. reflexivity.
Qed.

Lemma process_exit_only_disconnects_example :
  let c := sendCommand 7 (call_request 1000 "echo" "{}") 1000 Scenario.fresh_conn in
  c_settled (timer_fires 7 1000 (process_exit (Some 1%Z) None c)) =
  [(7, Rejected (CommandTimeout 300))].
Proof.
  cbn zeta.
  apply (process_exit_only_disconnects
           (sendCommand 7 (call_request 1000 "echo" "{}") 1000 Scenario.fresh_conn)
           (Some 1%Z) None).
  - simpl. left. reflexivity.
  - reflexivity.
Qed.

(** On a connection whose server object had [connected] set (no run sets
    it, see [createCommandConnection_run]) a call that is pending when the
    child exits with code 1 is still in the table after the exit, and no
    [reject] has run. *)
Lemma process_exit_leaves_pending_call :
  let c := steps Scenario.fresh_conn
                 [InSend 7 (call_request 1000 "echo" "{}") 1000;
                  InExit (Some 1%Z) None] in
  srv_connected (c_server c) = false /\
  JsMap.get (srv_responseHandlers (c_server c)) 1000%Z = Some 7 /\
  ~ (exists e, In (7, Rejected e) (c_settled c)).
Proof.
  cbn. repeat split. intros [e []].
Qed.

Lemma steps_app (c : conn) (l1 l2 : list input) :
  steps c (l1 ++ l2) = steps (steps c l1) l2.
Proof. unfold steps. apply fold_left_app. Qed.

Lemma step_srv_id (c : conn) (i : input) : srv_id (c_server (step c i)) = srv_id (c_server c).
Proof.
  destruct i as [p message now | message | p id | code signal | ]; cbn; try reflexivity.
  - unfold sendCommand. destruct (sendCommand_refused (c_server c)); reflexivity.
  - unfold handleJSONRPCMessage.
    destruct (truthy_id message) as [i|]; [|reflexivity].
    destruct (JsMap.has (srv_responseHandlers (c_server c)) i); [|reflexivity].
    destruct (JsMap.get (srv_responseHandlers (c_server c)) i); [|reflexivity].
    destruct (msg_error message); reflexivity.
  - unfold timer_fires.
    destruct (existsb (timer_eqb (p, id)) (c_timers c)); [|reflexivity].
    destruct (JsMap.has (srv_responseHandlers (c_server c)) id); reflexivity.
Qed.

Lemma steps_srv_id (l : list input) (c : conn) :
  srv_id (c_server (steps c l)) = srv_id (c_server c).
Proof.
  revert c. induction l as [|i r IH]; intros c; [reflexivity|].
  cbn. change (fold_left step r (step c i)) with (steps (step c i) r).
  now rewrite IH, step_srv_id.
Qed.



Lemma has_delete_absent (m : list (Z * promise)) (i id : Z) :
  JsMap.has m id = false -> JsMap.has (JsMap.delete m i) id = false.
Proof.
  intros Hhas. destruct (Z.eq_dec i id) as [->|Hne].
  - apply JsMapFacts.has_delete.
  - unfold JsMap.has in *. now rewrite JsMapFacts.get_delete_other.
Qed.

(** An id that has no entry gets one only through a [sendCommand] that
    registers under it. *)
Lemma absent_id_stays_absent (id : Z) (l : list input) (c : conn) :
  no_resend id l ->
  JsMap.has (srv_responseHandlers (c_server c)) id = false ->
  JsMap.has (srv_responseHandlers (c_server (steps c l))) id = false.
Proof.
  revert c. induction l as [|i r IH]; intros c Hno Hhas; [exact Hhas|].
  cbn. change (fold_left step r (step c i)) with (steps (step c i) r).
  apply IH.
  - intros p message now Hin. apply (Hno p message now). now right.
  - destruct i as [p message now | message | p k | code signal | ]; cbn.
    + unfold sendCommand. destruct (sendCommand_refused (c_server c)); [exact Hhas|].
      cbn. unfold JsMap.has in *.
      rewrite JsMapFacts.get_set_other; [exact Hhas|].
      apply (Hno p message now). now left.
    + unfold handleJSONRPCMessage.
      destruct (truthy_id message) as [i|]; [|exact Hhas].
      destruct (JsMap.has (srv_responseHandlers (c_server c)) i); [|exact Hhas].
      destruct (JsMap.get (srv_responseHandlers (c_server c)) i); [|exact Hhas].
      destruct (msg_error message); cbn; now apply has_delete_absent.
    + unfold timer_fires.
      destruct (existsb (timer_eqb (p, k)) (c_timers c)); [|exact Hhas].
      destruct (JsMap.has (srv_responseHandlers (c_server c)) k); cbn;
        [now apply has_delete_absent | exact Hhas].
    + exact Hhas.
    + exact Hhas.
Qed.

(** C5: a call that was settled by its response, or by its timer, has no
    entry left under its id; a response that comes afterwards with that id
    (whatever happened in between, short of a new [sendCommand] under the
    same id) finds no entry: it is passed on as a ['server-message'] event,
    settles no promise and leaves the table as it is. *)
Theorem late_response_is_discarded
    (c : conn) (id : Z) (late : rpc_message) (between : list input) :
  truthy_id late = Some id ->
  no_resend id between ->
  (forall message p,
      truthy_id message = Some id ->
      JsMap.get (srv_responseHandlers (c_server c)) id = Some p ->
      let c1 := handleJSONRPCMessage message c in
      let c2 := steps c1 between in
      c_settled c1 = c_settled c ++ [(p, settlement_of_message message)] /\
      JsMap.has (srv_responseHandlers (c_server c1)) id = false /\
      JsMap.has (srv_responseHandlers (c_server c2)) id = false /\
      c_settled (handleJSONRPCMessage late c2) = c_settled c2 /\
      c_server (handleJSONRPCMessage late c2) = c_server c2 /\
      c_emitted (handleJSONRPCMessage late c2) =
        c_emitted c2 ++ [EvServerMessage (srv_id (c_server c)) late]) /\
  (forall p,
      In (p, id) (c_timers c) ->
      JsMap.has (srv_responseHandlers (c_server c)) id = true ->
      let c1 := timer_fires p id c in
      let c2 := steps c1 between in
      c_settled c1 = c_settled c ++ [(p, Rejected (CommandTimeout (srv_timeout (c_server c))))] /\
      JsMap.has (srv_responseHandlers (c_server c1)) id = false /\
      JsMap.has (srv_responseHandlers (c_server c2)) id = false /\
      c_settled (handleJSONRPCMessage late c2) = c_settled c2 /\
      c_server (handleJSONRPCMessage late c2) = c_server c2 /\
      c_emitted (handleJSONRPCMessage late c2) =
        c_emitted c2 ++ [EvServerMessage (srv_id (c_server c)) late]).
Proof.
  intros Hlate Hno.
  assert (Hdiscard : forall c1 : conn,
             srv_id (c_server c1) = srv_id (c_server c) ->
             JsMap.has (srv_responseHandlers (c_server c1)) id = false ->
             let c2 := steps c1 between in
             JsMap.has (srv_responseHandlers (c_server c2)) id = false /\
             c_settled (handleJSONRPCMessage late c2) = c_settled c2 /\
             c_server (handleJSONRPCMessage late c2) = c_server c2 /\
             c_emitted (handleJSONRPCMessage late c2) =
               c_emitted c2 ++ [EvServerMessage (srv_id (c_server c)) late]).
  { intros c1 Hsid Hgone. cbn zeta.
    assert (Hgone2 : JsMap.has (srv_responseHandlers (c_server (steps c1 between))) id = false)
      by (apply absent_id_stays_absent; assumption).
    rewrite (unmatched_message _ _ Hlate Hgone2).
    unfold emit. cbn [c_settled c_server c_emitted].
    rewrite steps_srv_id, Hsid. auto. }
  split.
  - intros message p Hid Hget c1 c2. subst c2 c1.
    rewrite (matched_message _ _ Hid Hget).
    match goal with |- context [steps ?x between] => set (c1 := x) end.
    assert (Hgone : JsMap.has (srv_responseHandlers (c_server c1)) id = false)
      by (cbn; apply JsMapFacts.has_delete).
    split; [reflexivity|]. split; [exact Hgone|].
    apply Hdiscard; [reflexivity | exact Hgone].
  - intros p Harmed Hhas c1 c2. subst c2 c1. unfold timer_fires.
    rewrite (armed_existsb _ _ _ Harmed), Hhas.
    match goal with |- context [steps ?x between] => set (c1 := x) end.
    assert (Hgone : JsMap.has (srv_responseHandlers (c_server c1)) id = false)
      by (cbn; apply JsMapFacts.has_delete).
    split; [reflexivity|]. split; [exact Hgone|].
    apply Hdiscard; [reflexivity | exact Hgone].
Qed.

Lemma late_response_is_discarded_witness :
  let c := sendCommand 7 (call_request 1000 "echo" "{}") 1000 Scenario.fresh_conn in
  let between := [InSend 8 (call_request 1001 "echo" "{}") 1001; InExit None None] in
  c_settled (handleJSONRPCMessage (Scenario.reply 1000)
               (steps (handleJSONRPCMessage (Scenario.reply 1000) c) between)) =
    [(7, Fulfilled (Scenario.reply 1000))] /\
  c_settled (handleJSONRPCMessage (Scenario.reply 1000)
               (steps (timer_fires 7 1000 c) between)) =
    [(7, Rejected (CommandTimeout 300))].
Proof.
  cbn zeta.
  assert (Hno : no_resend 1000
                  [InSend 8 (call_request 1001 "echo" "{}") 1001; InExit None None]).
  { intros p message now [Heq | [Heq | []]]; [|discriminate].
    injection Heq as <- <- <-. discriminate. }
  pose proof (late_response_is_discarded
                (sendCommand 7 (call_request 1000 "echo" "{}") 1000 Scenario.fresh_conn)
                (Scenario.reply 1000) (id := 1000%Z) eq_refl Hno) as [Hresp Htimer].
  split.
  - destruct (Hresp (Scenario.reply 1000) 7 eq_refl eq_refl) as (_ & _ & _ & H3 & _).
    rewrite H3. reflexivity.
  - destruct (Htimer 7 (or_introl eq_refl) eq_refl) as (_ & _ & _ & H3 & _).
    rewrite H3. reflexivity.
Defined.

(** *** Promises are settled while pending, and only then *)

Lemma in_set (m : list (Z * promise)) (id k : Z) (p q : promise) :
  In (k, q) (JsMap.set m id p) -> (k, q) = (id, p) \/ In (k, q) m.
Proof.
  induction m as [|[k0 v0] r IH]; simpl.
  - intros [Heq | []]. now left.
  - destruct (Z.eqb k0 id); simpl.
    + intros [Heq | Hin]; [now left | right; now right].
    + intros [Heq | Hin]; [right; now left |].
      destruct (IH Hin) as [Heq | Hin']; [now left | right; now right].
Qed.

Lemma in_has (m : list (Z * promise)) (k : Z) (q : promise) :
  In (k, q) m -> JsMap.has m k = true.
Proof.
  intros Hin. unfold JsMap.has.
  destruct (JsMap.get m k) eqn:E; [reflexivity|].
  apply JsMapFacts.get_none_notin in E. exfalso. apply E.
  change (In (fst (k, q)) (map fst m)). now apply in_map.
Qed.

Lemma timer_eqb_eq (a b : promise * Z) : timer_eqb a b = true <-> a = b.
Proof.
  destruct a as [p i], b as [q j]. unfold timer_eqb. simpl.
  rewrite andb_true_iff, Nat.eqb_eq, Z.eqb_eq. split.
  - intros [-> ->]. reflexivity.
  - intros [= -> ->]. now split.
Qed.

Lemma disarm_incl (t x : promise * Z) (l : list (promise * Z)) :
  In x (disarm t l) -> In x l.
Proof.
  induction l as [|y r IH]; simpl; [tauto|].
  destruct (timer_eqb y t); simpl; [now right|].
  intros [Heq | Hin]; [now left | right; auto].
Qed.

Lemma in_disarm (t x : promise * Z) (l : list (promise * Z)) :
  In x l -> x <> t -> In x (disarm t l).
Proof.
  intros Hin Hne. induction l as [|y r IH]; simpl in *; [tauto|].
  destruct (timer_eqb y t) eqn:E.
  - apply timer_eqb_eq in E. subst y. destruct Hin as [Heq | Hin]; [congruence | exact Hin].
  - destruct Hin as [Heq | Hin]; [now left | right; auto].
Qed.

Lemma nodup_disarm (t : promise * Z) (l : list (promise * Z)) :
  NoDup (map fst l) -> NoDup (map fst (disarm t l)).
Proof.
  induction l as [|y r IH]; simpl; [auto|].
  intros Hnd. inversion Hnd as [|? ? Hnotin Hnd']; subst.
  destruct (timer_eqb y t); [exact Hnd'|].
  simpl. constructor; [|auto].
  intros Hin. apply Hnotin. apply in_map_iff in Hin as [x [Hfst Hx]].
  apply in_map_iff. exists x. split; [exact Hfst | eapply disarm_incl; eauto].
Qed.

Lemma armed_once (l : list (promise * Z)) (q : promise) (k k' : Z) :
  NoDup (map fst l) -> In (q, k) l -> In (q, k') l -> k = k'.
Proof.
  induction l as [|[q0 k0] r IH]; simpl; [tauto|].
  intros Hnd H1 H2. inversion Hnd as [|? ? Hnotin Hnd']; subst.
  assert (Hfst : forall z, In (q0, z) r -> False).
  { intros z Hz. apply Hnotin. change (In (fst (q0, z)) (map fst r)). now apply in_map. }
  destruct H1 as [E1 | H1], H2 as [E2 | H2].
  - congruence.
  - exfalso. injection E1 as -> _. eauto.
  - exfalso. injection E2 as -> _. eauto.
  - eauto.
Qed.

Lemma existsb_armed (p : promise) (id : Z) (l : list (promise * Z)) :
  existsb (timer_eqb (p, id)) l = true -> In (p, id) l.
Proof.
  intros Hex. apply existsb_exists in Hex as [x [Hin Heq]].
  apply timer_eqb_eq in Heq. now subst.
Qed.

Lemma coherent_weaken (used used' : list promise) (c : conn) :
  incl used used' -> coherent used c -> coherent used' c.
Proof.
  intros Hincl [H1 H2 H3 H4 H5]. constructor; eauto.
Qed.

(** Deleting the entry under [id] and settling [p] keeps the bookkeeping
    when [p] is the promise whose timer is (or was) armed for [id]. *)
Lemma coherent_settle (used : list promise) (c : conn) (id : Z) (p : promise)
      (o : settle) (timers : list (promise * Z)) :
  coherent used c ->
  In (p, id) (c_timers c) ->
  (forall x, In x timers -> In x (c_timers c)) ->
  (forall x, In x (c_timers c) -> snd x <> id -> In x timers) ->
  NoDup (map fst timers) ->
  coherent used
    {| c_server := drop_handler id (c_server c);
       c_settled := c_settled c ++ [(p, o)];
       c_emitted := c_emitted c; c_stdin := c_stdin c; c_timers := timers |}.
Proof.
  intros [H1 H2 H3 H4 H5] Harmed Hsub Hkeep Hnd. constructor; cbn.
  - intros k q Hin. apply JsMapFacts.in_delete in Hin as [Hin Hne].
    apply Hkeep; [now apply H1 | exact Hne].
  - exact Hnd.
  - intros q k Hin. eapply H3. apply Hsub. exact Hin.
  - intros q o' Hin. apply in_app_or in Hin as [Hin | [[= <- <-] | []]]; eauto.
  - intros k q o' Hin Hs. apply JsMapFacts.in_delete in Hin as [Hin Hne].
    apply in_app_or in Hs as [Hs | [[= <- <-] | []]].
    + exact (H5 _ _ _ Hin Hs).
    + apply Hne. cbn. exact (armed_once _ _ _ _ H2 (H1 _ _ Hin) Harmed).
Qed.

Lemma coherent_emit (used : list promise) (c : conn) (e : event) :
  coherent used c -> coherent used (emit e c).
Proof. intros [H1 H2 H3 H4 H5]. constructor; cbn; auto. Qed.

Lemma step_coherent (used : list promise) (c : conn) (i : input) :
  coherent used c ->
  (forall p, In p (sent_promises [i]) -> ~ In p used) ->
  coherent (sent_promises [i] ++ used) (step c i).
Proof.
  intros Hc Hfresh. pose proof Hc as [H1 H2 H3 H4 H5].
  destruct i as [p message now | message | p id | code signal | ]; cbn [step].
  - (* sendCommand *)
    assert (Hp : ~ In p used) by (apply Hfresh; now left).
    cbn [sent_promises app]. unfold sendCommand.
    destruct (sendCommand_refused (c_server c)).
    + constructor; cbn.
      * exact H1.
      * exact H2.
      * intros q k Hin. right. eauto.
      * intros q o Hin. apply in_app_or in Hin as [Hin | [[= <- <-] | []]];
          [right; eauto | now left].
      * intros k q o Hin Hs. apply in_app_or in Hs as [Hs | [[= <- <-] | []]].
        -- exact (H5 _ _ _ Hin Hs).
        -- apply Hp. eapply H3. apply H1. exact Hin.
    + constructor; cbn.
      * intros k q Hin. apply in_set in Hin as [[= -> ->] | Hin].
        -- apply in_or_app. right. now left.
        -- apply in_or_app. left. now apply H1.
      * rewrite map_app. cbn. apply NoDup_app; [exact H2 | repeat constructor; simpl; tauto |].
        intros q Hin [<- | []]. apply Hp.
        apply in_map_iff in Hin as [[q' k'] [Hq Hin]]. cbn in Hq. subst q'. eauto.
      * intros q k Hin. apply in_app_or in Hin as [Hin | [[= <- <-] | []]];
          [right; eauto | now left].
      * intros q o Hin. right. eauto.
      * intros k q o Hin Hs. apply in_set in Hin as [[= -> ->] | Hin].
        -- apply Hp. eauto.
        -- exact (H5 _ _ _ Hin Hs).
  - (* handleJSONRPCMessage *)
    cbn [sent_promises app]. unfold handleJSONRPCMessage.
    destruct (truthy_id message) as [id|]; [|now apply coherent_emit].
    destruct (JsMap.has (srv_responseHandlers (c_server c)) id); [|now apply coherent_emit].
    destruct (JsMap.get (srv_responseHandlers (c_server c)) id) as [q|] eqn:Hget; [|exact Hc].
    apply JsMapFacts.get_in in Hget.
    destruct (msg_error message); unfold settle_promise, with_server; cbn;
      apply coherent_settle; auto.
  - (* timer *)
    cbn [sent_promises app]. unfold timer_fires.
    destruct (existsb (timer_eqb (p, id)) (c_timers c)) eqn:Harmed; [|exact Hc].
    apply existsb_armed in Harmed.
    destruct (JsMap.has (srv_responseHandlers (c_server c)) id) eqn:Hhas.
    + unfold settle_promise, with_server; cbn. apply coherent_settle; auto.
      * intros x. apply disarm_incl.
      * intros x Hin Hne. apply in_disarm; [exact Hin|]. intros ->. now apply Hne.
      * now apply nodup_disarm.
    + constructor; cbn.
      * intros k q Hin. apply in_disarm; [now apply H1|].
        intros [= -> ->]. apply in_has in Hin. congruence.
      * now apply nodup_disarm.
      * intros q k Hin. apply disarm_incl in Hin. eauto.
      * exact H4.
      * exact H5.
  - cbn [sent_promises app]. constructor; cbn; auto.
  - cbn [sent_promises app]. constructor; cbn; auto.
Qed.

Lemma sent_promises_app (l1 l2 : list input) :
  sent_promises (l1 ++ l2) = sent_promises l1 ++ sent_promises l2.
Proof.
  induction l1 as [|i r IH]; [reflexivity|].
  destruct i; cbn; now rewrite ?IH.
Qed.

Lemma steps_coherent (l : list input) (used : list promise) (c : conn) :
  coherent used c ->
  NoDup (sent_promises l) ->
  (forall p, In p (sent_promises l) -> ~ In p used) ->
  coherent (rev (sent_promises l) ++ used) (steps c l).
Proof.
  revert used c. induction l as [|i r IH]; intros used c Hc Hnd Hfresh; [exact Hc|].
  change (i :: r) with ([i] ++ r) in *. rewrite sent_promises_app in *.
  rewrite steps_app, rev_app_distr, <- app_assoc.
  apply NoDup_app_remove_l in Hnd as Hnd_r.
  apply IH.
  - eapply coherent_weaken; [|apply (step_coherent i Hc)].
    + intros x Hx. apply in_or_app. apply in_app_or in Hx as [Hx | Hx]; [left | now right].
      now apply in_rev in Hx.
    + intros p Hp. apply Hfresh. apply in_or_app. now left.
  - exact Hnd_r.
  - intros p Hp Hin. apply in_app_or in Hin as [Hin | Hin].
    + apply in_rev in Hin.
      destruct i; cbn in Hin; try tauto. destruct Hin as [<- | []].
      cbn in Hnd. inversion Hnd; subst. contradiction.
    + apply (Hfresh p); [apply in_or_app; now right | exact Hin].
Qed.

Lemma untouched_coherent (c : conn) : untouched c -> coherent [] c.
Proof.
  intros (Hh & Hs & Ht). constructor; rewrite ?Hh, ?Hs, ?Ht; cbn; try tauto.
  constructor.
Qed.

(** On a coherent connection a message settles only a promise that was
    not settled before: what was done to a settled promise stays as it is. *)
Lemma message_spares_settled (used : list promise) (c : conn)
      (message : rpc_message) (p : promise) :
  coherent used c ->
  settlements p c <> [] ->
  settlements p (handleJSONRPCMessage message c) = settlements p c.
Proof.
  intros [H1 H2 H3 H4 H5] Hsettled. unfold handleJSONRPCMessage.
  destruct (truthy_id message) as [id|]; [|reflexivity].
  destruct (JsMap.has (srv_responseHandlers (c_server c)) id); [|reflexivity].
  destruct (JsMap.get (srv_responseHandlers (c_server c)) id) as [q|] eqn:Hget; [|reflexivity].
  apply JsMapFacts.get_in in Hget.
  assert (Hqp : Nat.eqb q p = false).
  { apply Nat.eqb_neq. intros ->. apply Hsettled. unfold settlements.
    destruct (filter (fun x => Nat.eqb (fst x) p) (c_settled c)) as [|[q o] r] eqn:E;
      [reflexivity|].
    exfalso. assert (Hin : In (q, o) (filter (fun x => Nat.eqb (fst x) p) (c_settled c)))
      by (rewrite E; now left).
    apply filter_In in Hin as [Hin Heq]. cbn in Heq. apply Nat.eqb_eq in Heq. subst q.
    exact (H5 _ _ _ Hget Hin). }
  destruct (msg_error message); unfold settlements, settle_promise; cbn;
    rewrite filter_app; cbn; rewrite Hqp, app_nil_r; reflexivity.
Qed.

(** In every run of a connection, whatever the order of sends, messages,
    timers and exits, a promise that is settled is not settled again by a
    message that comes later. *)
Lemma settled_promise_ignores_later_messages
      (c0 : conn) (before : list input) (message : rpc_message) (p : promise) :
  untouched c0 ->
  NoDup (sent_promises before) ->
  settlements p (steps c0 before) <> [] ->
  settlements p (steps c0 (before ++ [InMessage message])) = settlements p (steps c0 before).
Proof.
  intros Hc0 Hnd Hsettled. rewrite steps_app. cbn.
  eapply message_spares_settled; [|exact Hsettled].
  apply steps_coherent; [now apply untouched_coherent | exact Hnd | intros ? ? []].
Qed.

(** *** Two calls under one id *)

(** A [sendCommand] that gets past the guard stores its promise under the
    message id, whatever was stored there, and settles nothing. *)
Lemma sendCommand_takes_the_entry (c : conn) (p : promise) (message : rpc_request) (now : Z) :
  sendCommand_refused (c_server c) = false ->
  let c' := sendCommand p message now c in
  JsMap.get (srv_responseHandlers (c_server c')) (message_id message now) = Some p /\
  c_settled c' = c_settled c /\
  JsMap.keys (srv_responseHandlers (c_server c')) =
    (if JsMap.has (srv_responseHandlers (c_server c)) (message_id message now)
     then JsMap.keys (srv_responseHandlers (c_server c))
     else JsMap.keys (srv_responseHandlers (c_server c)) ++ [message_id message now]).
Proof.
  intros Hok. unfold sendCommand. rewrite Hok. cbn.
  split; [apply JsMapFacts.get_set_same|]. split; [reflexivity|].
  unfold JsMap.has.
  destruct (JsMap.get (srv_responseHandlers (c_server c)) (message_id message now)) eqn:E.
  - apply JsMapFacts.keys_set_present. congruence.
  - rewrite JsMapFacts.keys_set_absent by exact E.
    unfold JsMap.keys. now rewrite map_app.
Qed.

(** On a connection whose server object had [connected] set (no run sets
    it), two calls that [callServerMethod] stamps with the same
    [Date.now()] value 1000 would share one entry.  The second [set]
    replaces the handler of the first call, which is outstanding and now
    has no entry.  If the reply comes first it resolves the second call,
    and the first call is never settled; if the timer of the first call
    comes first it rejects the first call, deletes the entry of the
    second, and the second call is never settled. *)
Lemma same_id_send_displaces_pending_call :
  let c1 := sendCommand 1 (call_request 1000 "echo" "{}") 1000 Scenario.fresh_conn in
  let c2 := sendCommand 2 (call_request 1000 "list" "{}") 1000 c1 in
  let replied := steps c2 [InMessage (Scenario.reply 1000); InTimer 1 1000; InTimer 2 1000] in
  let timed := steps c2 [InTimer 1 1000; InMessage (Scenario.reply 1000); InTimer 2 1000] in
  srv_responseHandlers (c_server c1) = [(1000%Z, 1)] /\
  srv_responseHandlers (c_server c2) = [(1000%Z, 2)] /\
  c_settled c2 = [] /\
  map rq_id (c_stdin c2) = [1000%Z; 1000%Z] /\
  (c_settled replied = [(2, Fulfilled (Scenario.reply 1000))] /\
   c_timers replied = [] /\ srv_responseHandlers (c_server replied) = []) /\
  (c_settled timed = [(1, Rejected (CommandTimeout 300))] /\
   c_timers timed = [] /\ srv_responseHandlers (c_server timed) = []).
Proof.
  cbn. repeat split.
Qed.

(** *** What a run can reach *)

Lemma step_stays_disconnected (c : conn) (i : input) :
  srv_connected (c_server c) = false ->
  srv_connected (c_server (step c i)) = false /\
  c_stdin (step c i) = c_stdin c /\
  (forall x, In x (c_timers (step c i)) -> In x (c_timers c)) /\
  (forall x, In x (srv_responseHandlers (c_server (step c i))) ->
             In x (srv_responseHandlers (c_server c))).
Proof.
  intros Hoff.
  destruct i as [p message now | message | p id | code signal | ]; cbn [step].
  - unfold sendCommand, sendCommand_refused. rewrite Hoff, orb_true_r. cbn. auto.
  - unfold handleJSONRPCMessage.
    destruct (truthy_id message) as [id|]; [|cbn; auto].
    destruct (JsMap.has (srv_responseHandlers (c_server c)) id); [|cbn; auto].
    destruct (JsMap.get (srv_responseHandlers (c_server c)) id); [|auto].
    destruct (msg_error message); cbn; repeat split; auto;
      intros x Hin; now apply JsMapFacts.in_delete in Hin.
  - unfold timer_fires.
    destruct (existsb (timer_eqb (p, id)) (c_timers c)); [|auto].
    destruct (JsMap.has (srv_responseHandlers (c_server c)) id); cbn; repeat split; auto;
      intros x Hin; try (now apply disarm_incl in Hin);
      now apply JsMapFacts.in_delete in Hin.
  - cbn. auto.
  - cbn. auto.
Qed.

Lemma step_keeps_settled (c : conn) (i : input) (x : promise * settle) :
  In x (c_settled c) -> In x (c_settled (step c i)).
Proof.
  intros Hin.
  destruct i as [p message now | message | p id | code signal | ]; cbn [step].
  - unfold sendCommand. destruct (sendCommand_refused (c_server c)); cbn; [|exact Hin].
    apply in_or_app. now left.
  - unfold handleJSONRPCMessage.
    destruct (truthy_id message) as [id|]; [|exact Hin].
    destruct (JsMap.has (srv_responseHandlers (c_server c)) id); [|exact Hin].
    destruct (JsMap.get (srv_responseHandlers (c_server c)) id); [|exact Hin].
    destruct (msg_error message); cbn; apply in_or_app; now left.
  - unfold timer_fires.
    destruct (existsb (timer_eqb (p, id)) (c_timers c)); [|exact Hin].
    destruct (JsMap.has (srv_responseHandlers (c_server c)) id); cbn; [|exact Hin].
    apply in_or_app. now left.
  - exact Hin.
  - exact Hin.
Qed.

Lemma steps_keep_settled (l : list input) (c : conn) (x : promise * settle) :
  In x (c_settled c) -> In x (c_settled (steps c l)).
Proof.
  revert c. induction l as [|i r IH]; intros c Hin; [exact Hin|].
  apply (IH (step c i)). now apply step_keeps_settled.
Qed.





End ConnectionFacts.

(** ** Running asynchronous functions *)

Lemma run_bind_async {A B : Type} (env : oracle) (x : async A) (f : A -> M B) (a : ambient) :
  run env a (bind_async x f) =
  let o := run env a x in
  match result o with
  | Normal v =>
      let o' := run env (after o) (f v (final o)) in
      {| final := final o'; result := result o';
         trace := trace o ++ trace o'; after := after o' |}
  | Thrown e =>
      {| final := final o; result := Thrown e; trace := trace o; after := after o |}
  end.
Proof.
  revert a. induction x as [m c | k IH | k IH | m t via rq k IH]; intros a.
  - destruct c as [v|e]; cbn; [|reflexivity].
    now destruct (run env a (f v m)).
  - cbn. apply IH.
  - cbn. apply IH.
  - cbn. rewrite IH. cbn.
    destruct (result (run env _ (k m (answer env t rq)))); reflexivity.
Qed.

Lemma run_bind {A B : Type} (env : oracle) (x : M A) (f : A -> M B) (a : ambient) (m : manager) :
  run env a (bind x f m) =
  let o := run env a (x m) in
  match result o with
  | Normal v =>
      let o' := run env (after o) (f v (final o)) in
      {| final := final o'; result := result o';
         trace := trace o ++ trace o'; after := after o' |}
  | Thrown e =>
      {| final := final o; result := Thrown e; trace := trace o; after := after o |}
  end.
Proof. apply run_bind_async. Qed.

Lemma run_catch_async {A : Type} (env : oracle) (x : async A) (h : error -> M A) (a : ambient) :
  run env a (catch_async x h) =
  let o := run env a x in
  match result o with
  | Normal v => o
  | Thrown e =>
      let o' := run env (after o) (h e (final o)) in
      {| final := final o'; result := result o';
         trace := trace o ++ trace o'; after := after o' |}
  end.
Proof.
  revert a. induction x as [m c | k IH | k IH | m t via rq k IH]; intros a.
  - destruct c as [v|e]; cbn; [reflexivity|].
    now destruct (run env a (h e m)).
  - cbn. apply IH.
  - cbn. apply IH.
  - cbn. rewrite IH. cbn.
    destruct (result (run env _ (k m (answer env t rq)))) eqn:E; [|reflexivity].
    destruct (run env _ (k m (answer env t rq))); cbn in *. now subst.
Qed.

Lemma run_try_catch {A : Type} (env : oracle) (x : M A) (h : error -> M A)
      (a : ambient) (m : manager) :
  run env a (try_catch x h m) =
  let o := run env a (x m) in
  match result o with
  | Normal v => o
  | Thrown e =>
      let o' := run env (after o) (h e (final o)) in
      {| final := final o'; result := result o';
         trace := trace o ++ trace o'; after := after o' |}
  end.
Proof. apply run_catch_async. Qed.

(** ** MCPClientManager: sending one request *)

Arguments deref : simpl never.
Arguments find_tool : simpl never.
Arguments Connection.sendCommand_refused : simpl never.

(** A request over the remote transport. *)
Lemma callServerMethod_sse (env : oracle) (a : ambient) (m : manager) (r : ref)
      (method : string) (p : params) :
  srv_type (deref m r) = SSE ->
  let request := {| rq_id := clock a; rq_method := method; rq_params := p |} in
  let target := srv_id (deref m r) in
  run env a (callServerMethod r method p m) =
  {| final := m;
     result := match answer env target request with
               | Fulfilled message => Normal (Some message)
               | FulfilledNull => Normal None
               | Rejected e => Thrown e
               end;
     trace := [{| visible := m; sus_target := target; sus_via := SSE;
                  sus_request := request |}];
     after := {| clock := (clock a + elapsed env target request)%Z;
                 next_promise := next_promise a |} |}.
Proof.
  intros Htype. unfold callServerMethod, bind, date_now, this. cbn.
  rewrite Htype. cbn.
  destruct (answer env (srv_id (deref m r)) _); reflexivity.
Qed.


(** A request over the process transport, written to the child. *)
Lemma callServerMethod_command (env : oracle) (a : ambient) (m : manager) (r : ref)
      (method : string) (p : params) :
  srv_type (deref m r) = Command ->
  Connection.sendCommand_refused (deref m r) = false ->
  let request := {| rq_id := clock a; rq_method := method; rq_params := p |} in
  let target := srv_id (deref m r) in
  let waiting :=
    with_heap (list_update (heap m) r
                 (Connection.store_handler (clock a) (next_promise a))) m in
  run env a (callServerMethod r method p m) =
  {| final := with_heap (list_update (heap waiting) r
                           (Connection.drop_handler (clock a))) waiting;
     result := match answer env target request with
               | Fulfilled reply =>
                   match msg_error reply with
                   | Some e => Thrown (RPCError (Connection.rpc_error_text e))
                   | None => Normal (Some reply)
                   end
               | FulfilledNull => Thrown (CommandTimeout (srv_timeout (deref m r)))
               | Rejected e => Thrown e
               end;
     trace := [{| visible := waiting; sus_target := target; sus_via := Command;
                  sus_request := request |}];
     after := {| clock := (clock a + elapsed env target request)%Z;
                 next_promise := S (next_promise a) |} |}.
Proof.
  intros Htype Hok. unfold callServerMethod, bind, date_now, this. cbn.
  rewrite Htype. unfold sendCommand, bind, this. cbn. rewrite Hok.
  destruct (Z.eqb (clock a) 0) eqn:Ez; cbn.
  - apply Z.eqb_eq in Ez.
    destruct (answer env (srv_id (deref m r)) _) as [reply| |e]; cbn; try reflexivity.
    unfold settlement_of_message. destruct (msg_error reply); reflexivity.
  - destruct (answer env (srv_id (deref m r)) _) as [reply| |e]; cbn; try reflexivity.
    unfold settlement_of_message. destruct (msg_error reply); reflexivity.
Qed.

Lemma nth_list_update {A : Type} (l : list A) (n : nat) (f : A -> A) (d : A) :
  n < length l -> nth n (list_update l n f) d = f (nth n l d).
Proof.
  revert n. induction l as [|x l IH]; intros n Hn; cbn in *; [lia|].
  destruct n as [|n]; cbn; [reflexivity|]. apply IH. lia.
Qed.

(** The two views of [sendCommand] agree: while a request of the manager
    is awaited, the server object is the one that the executor of the
    connection leaves, with the promise stored under the id of the line
    that was written. *)
Lemma sendCommand_views_agree (a : ambient) (m : manager) (r : ref)
      (method : string) (p : params) :
  srv_type (deref m r) = Command ->
  Connection.sendCommand_refused (deref m r) = false ->
  r < length (heap m) ->
  let request := {| rq_id := clock a; rq_method := method; rq_params := p |} in
  let c := Connection.sendCommand (next_promise a) request (clock a)
             {| Connection.c_server := deref m r; Connection.c_settled := [];
                Connection.c_emitted := []; Connection.c_stdin := [];
                Connection.c_timers := [] |} in
  match snd (start a (callServerMethod r method p m)) with
  | Some s =>
      deref (visible s) r = Connection.c_server c /\
      [sus_request s] = Connection.c_stdin c
  | None => False
  end.
Proof.
  intros Htype Hok Hr. cbn zeta.
  unfold callServerMethod, bind, date_now, this. cbn.
  rewrite Htype. unfold sendCommand, bind, this. cbn. rewrite Hok.
  unfold Connection.sendCommand. cbn. rewrite Hok. cbn.
  unfold Connection.message_id. cbn.
  destruct (Z.eqb (clock a) 0) eqn:Ez; cbn;
    (split; [unfold deref; cbn; now apply nth_list_update | reflexivity]).
Qed.


(** Past the guard of [sendCommand] (no run gets there): two [callTool]
    tasks are started in the same millisecond on the command server of
    [Scenario.piped], which has [connected] set, the second while the first
    awaits its reply: both requests carry the id 1000, and the pending
    table that the second task leaves holds one entry, the second
    promise, for two outstanding calls. *)
Lemma concurrent_callTool_share_one_entry :
  match start Scenario.boot (callTool "echo" "first" Scenario.piped) with
  | (a1, Some s1) =>
      match start {| clock := clock Scenario.boot; next_promise := next_promise a1 |}
                  (callTool "echo" "second" (visible s1)) with
      | (_, Some s2) =>
          sus_request s1 = call_request 1000 "echo" "first" /\
          sus_request s2 = call_request 1000 "echo" "second" /\
          srv_responseHandlers (deref (visible s1) 0) = [(1000%Z, 0)] /\
          srv_responseHandlers (deref (visible s2) 0) = [(1000%Z, 1)]
      | _ => False
      end
  | _ => False
  end.
Proof. vm_compute. repeat split. Qed.

(** ** The tools registry of one discovery response *)

Lemma qualified_inj (serverId x y : string) :
  qualified serverId x = qualified serverId y -> x = y.
Proof.
  unfold qualified. induction serverId as [|ch s IH]; cbn.
  - now intros [= ->].
  - intros [= H]. auto.
Qed.

Lemma register_tools_wf (serverId : string) (l : list tool_decl)
      (reg : list (string * tool_entry)) :
  JsMap.wf reg -> JsMap.wf (register_tools serverId l reg).
Proof.
  unfold register_tools. revert reg.
  induction l as [|tool l IH]; intros reg Hwf; cbn; [exact Hwf|].
  apply IH. now apply JsMapFacts.wf_set.
Qed.

Lemma register_tools_other (serverId : string) (l : list tool_decl)
      (reg : list (string * tool_entry)) (key : string) :
  (forall tool, In tool l -> qualified serverId (td_name tool) <> key) ->
  JsMap.get (register_tools serverId l reg) key = JsMap.get reg key.
Proof.
  unfold register_tools. revert reg.
  induction l as [|tool l IH]; intros reg Hother; cbn; [reflexivity|].
  rewrite IH by (intros t Ht; apply Hother; now right).
  apply JsMapFacts.get_set_other. apply Hother. now left.
Qed.

(** A response that lists K tools under K distinct names leaves, for each
    of them, the entry [{ serverId, ...tool }] under [serverId/name]. *)
Lemma register_tools_each (serverId : string) (l : list tool_decl)
      (reg : list (string * tool_entry)) (tool : tool_decl) :
  NoDup (map td_name l) ->
  In tool l ->
  JsMap.get (register_tools serverId l reg) (qualified serverId (td_name tool)) =
    Some (tool_entry_of serverId tool).
Proof.
  revert reg. induction l as [|t l IH]; intros reg Hnd Hin; [destruct Hin|].
  cbn in Hnd. inversion Hnd as [|? ? Hnotin Hnd']; subst.
  destruct Hin as [-> | Hin].
  - change (register_tools serverId (tool :: l) reg)
      with (register_tools serverId l
              (JsMap.set reg (qualified serverId (td_name tool)) (tool_entry_of serverId tool))).
    rewrite register_tools_other.
    + apply JsMapFacts.get_set_same.
    + intros t Ht Heq. apply qualified_inj in Heq. apply Hnotin.
      rewrite <- Heq. now apply in_map.
  - apply (IH _ Hnd' Hin).
Qed.

(** On a registry that holds none of these keys, the K entries are
    appended in the order of the response: K keys, K entries. *)
Lemma register_tools_fresh (serverId : string) (l : list tool_decl)
      (reg : list (string * tool_entry)) :
  NoDup (map td_name l) ->
  (forall tool, In tool l -> JsMap.get reg (qualified serverId (td_name tool)) = None) ->
  register_tools serverId l reg =
  reg ++ map (fun tool => (qualified serverId (td_name tool), tool_entry_of serverId tool)) l.
Proof.
  revert reg. induction l as [|t l IH]; intros reg Hnd Hfresh; cbn.
  - now rewrite app_nil_r.
  - cbn in Hnd. inversion Hnd as [|? ? Hnotin Hnd']; subst.
    change (fold_left _ l ?acc) with (register_tools serverId l acc).
    rewrite IH.
    + rewrite JsMapFacts.keys_set_absent by (apply Hfresh; now left).
      now rewrite <- app_assoc.
    + exact Hnd'.
    + intros tool Hin. rewrite JsMapFacts.get_set_other.
      * apply Hfresh. now right.
      * intros Heq. apply qualified_inj in Heq. apply Hnotin.
        rewrite Heq. now apply in_map.
Qed.

(** The owner recorded in an entry is the discovering server, unless the
    tool object brought a [serverId] property of its own. *)
Lemma tool_entry_owner (serverId : string) (tool : tool_decl) :
  td_serverId tool = None -> te_serverId (tool_entry_of serverId tool) = serverId.
Proof. intros H. unfold tool_entry_of. cbn. now rewrite H. Qed.

(** ** callTool *)

Lemma endsWith_spec (s suffix : string) :
  endsWith s suffix = true <-> exists prefix, s = (prefix ++ suffix)%string.
Proof.
  induction s as [|ch s IH]; cbn [endsWith].
  - destruct (String.eqb EmptyString suffix) eqn:E.
    + apply String.eqb_eq in E. subst. split; [intros _; now exists EmptyString | reflexivity].
    + split; [discriminate|]. intros [prefix Hp].
      destruct prefix; cbn in Hp; [|discriminate].
      subst. now rewrite String.eqb_refl in E.
  - destruct (String.eqb (String ch s) suffix) eqn:E.
    + apply String.eqb_eq in E. split; [intros _; now exists EmptyString | reflexivity].
    + rewrite IH. split.
      * intros [prefix ->]. now exists (String ch prefix).
      * intros [prefix Hp]. destruct prefix as [|ch' prefix]; cbn in Hp.
        -- subst. now rewrite String.eqb_refl in E.
        -- injection Hp as _ ->. now exists prefix.
Qed.

Lemma find_first {A : Type} (f : A -> bool) (before : list A) (x : A) (rest : list A) :
  (forall y, In y before -> f y = false) ->
  f x = true ->
  find f (before ++ x :: rest) = Some x.
Proof.
  induction before as [|y l IH]; cbn; intros Hb Hx.
  - now rewrite Hx.
  - rewrite (Hb y (or_introl eq_refl)). apply IH; auto.
Qed.

Lemma find_nothing {A : Type} (f : A -> bool) (l : list A) :
  (forall y, In y l -> f y = false) -> find f l = None.
Proof.
  induction l as [|y r IH]; cbn; intros Hl; [reflexivity|].
  rewrite (Hl y (or_introl eq_refl)). apply IH. auto.
Qed.

(** What [callTool] does once the look-up found [tool]. *)
Lemma callTool_found (env : oracle) (a : ambient) (m : manager)
      (toolName args : string) (tool : tool_entry) :
  find_tool (tools m) toolName = Some tool ->
  run env a (callTool toolName args m) =
  match JsMap.get (servers m) (te_serverId tool) with
  | None => {| final := m; result := Thrown (ServerUnavailable (te_serverId tool));
               trace := []; after := a |}
  | Some r =>
      if negb (srv_connected (deref m r)) then
        {| final := m; result := Thrown (ServerUnavailable (te_serverId tool));
           trace := []; after := a |}
      else
        let o := run env a (callServerMethod r "tools/call"
                              (PToolCall (te_name tool) args) m) in
        {| final := final o;
           result := match result o with
                     | Normal (Some response) => Normal (msg_result response)
                     | Normal None => Thrown null_property
                     | Thrown e => Thrown e
                     end;
           trace := trace o; after := after o |}
  end.
Proof.
  intros Hfind. unfold callTool, bind, this. cbn [bind_async]. rewrite Hfind.
  destruct (JsMap.get (servers m) (te_serverId tool)) as [r|]; [|reflexivity].
  destruct (srv_connected (deref m r)); cbn [negb]; [|reflexivity].
  rewrite run_bind_async. cbn zeta.
  destruct (result (run env a (callServerMethod r "tools/call" _ m))) as [[response|]|e];
    cbn; now rewrite ?app_nil_r.
Qed.

Lemma callTool_not_found (env : oracle) (a : ambient) (m : manager) (toolName args : string) :
  find_tool (tools m) toolName = None ->
  run env a (callTool toolName args m) =
  {| final := m; result := Thrown (ToolNotFound toolName); trace := []; after := a |}.
Proof.
  intros Hfind. unfold callTool, bind, this. cbn [bind_async]. now rewrite Hfind.
Qed.

(** One request of [callTool] to a connected server of the remote
    transport. *)
Lemma callTool_sends (env : oracle) (a : ambient) (m : manager)
      (toolName args : string) (tool : tool_entry) (r : ref) :
  find_tool (tools m) toolName = Some tool ->
  JsMap.get (servers m) (te_serverId tool) = Some r ->
  srv_connected (deref m r) = true ->
  srv_type (deref m r) = SSE ->
  let request := call_request (clock a) (te_name tool) args in
  let o := run env a (callTool toolName args m) in
  requests o = [(srv_id (deref m r), request)] /\
  result o = reply_of (deref m r) (answer env (srv_id (deref m r)) request) /\
  final o = m.
Proof.
  intros Hfind Hget Hon Htype. cbn zeta.
  rewrite (callTool_found env a m toolName args Hfind), Hget, Hon. cbn [negb].
  rewrite callServerMethod_sse by exact Htype. cbn.
  unfold call_request, reply_of. rewrite Htype.
  now destruct (answer env _ _).
Qed.

(** The look-up and the dispatch of [callTool].  It takes the entry stored
    under the given name when there is one; failing that, the first entry
    in insertion order whose key ends with a slash and the name; with no
    such entry it throws ToolNotFound.  With an entry, it throws
    ServerUnavailable unless the server registered under the entry's
    [serverId] is connected; otherwise it issues one request, [tools/call]
    with the entry's name, to that server, and hands back the result of
    the reply or its failure.  The entry under [serverId/name] carries
    [serverId] when the listed tool had no [serverId] property of its
    own. *)
Lemma callTool_dispatch (env : oracle) (a : ambient) (m : manager) (toolName args : string) :
  (forall tool,
      JsMap.get (tools m) toolName = Some tool ->
      find_tool (tools m) toolName = Some tool) /\
  (forall serverId listed tool reg,
      tools m = register_tools serverId listed reg ->
      NoDup (map td_name listed) ->
      In tool listed ->
      toolName = qualified serverId (td_name tool) ->
      exists entry,
        find_tool (tools m) toolName = Some entry /\
        te_serverId entry = spread_serverId serverId (td_serverId tool) /\
        te_name entry = td_name tool) /\
  (forall before key tool rest,
      JsMap.get (tools m) toolName = None ->
      tools m = before ++ (key, tool) :: rest ->
      endsWith key ("/" ++ toolName) = true ->
      (forall kv, In kv before -> endsWith (fst kv) ("/" ++ toolName) = false) ->
      find_tool (tools m) toolName = Some tool) /\
  (JsMap.get (tools m) toolName = None ->
   (forall kv, In kv (tools m) -> endsWith (fst kv) ("/" ++ toolName) = false) ->
   run env a (callTool toolName args m) =
   {| final := m; result := Thrown (ToolNotFound toolName); trace := []; after := a |}) /\
  (forall tool,
      find_tool (tools m) toolName = Some tool ->
      (forall r, JsMap.get (servers m) (te_serverId tool) = Some r ->
                 srv_connected (deref m r) = false) ->
      run env a (callTool toolName args m) =
      {| final := m; result := Thrown (ServerUnavailable (te_serverId tool));
         trace := []; after := a |}) /\
  (forall tool r,
      find_tool (tools m) toolName = Some tool ->
      JsMap.get (servers m) (te_serverId tool) = Some r ->
      srv_connected (deref m r) = true ->
      (srv_type (deref m r) = Command -> srv_process (deref m r) = true) ->
      let o := run env a (callTool toolName args m) in
      let request := call_request (clock a) (te_name tool) args in
      requests o = [(srv_id (deref m r), request)] /\
      result o = reply_of (deref m r) (answer env (srv_id (deref m r)) request)).
Proof.
  split; [|split; [|split; [|split; [|split; [|intros tool r ? ? ? ?; cbn zeta; split]]]]].
  - intros tool Hget. unfold find_tool. now rewrite Hget.
  - intros serverId listed tool reg Hreg Hnd Hin ->.
    exists (tool_entry_of serverId tool). split; [|split].
    + unfold find_tool. rewrite Hreg. now rewrite register_tools_each.
    + reflexivity.
    + reflexivity.
  - intros before key tool rest Hnone Hsplit Hkey Hbefore.
    unfold find_tool. rewrite Hnone, Hsplit.
    rewrite (find_first (fun kv => endsWith (fst kv) ("/" ++ toolName))
                        before (key, tool) rest Hbefore Hkey).
    reflexivity.
  - intros Hnone Hall. apply callTool_not_found.
    unfold find_tool. rewrite Hnone. now rewrite find_nothing.
  - intros tool Hfind Hdown. rewrite (callTool_found env a m toolName args Hfind).
    destruct (JsMap.get (servers m) (te_serverId tool)) as [r|]; [|reflexivity].
    now rewrite (Hdown r eq_refl).
  - rewrite (callTool_found env a m toolName args H), H0, H1. cbn [negb].
    destruct (srv_type (deref m r)) eqn:Htype.
    + rewrite callServerMethod_sse by exact Htype. reflexivity.
    + rewrite callServerMethod_command; [reflexivity | exact Htype |].
      unfold Connection.sendCommand_refused. now rewrite H1, H2.
  - rewrite (callTool_found env a m toolName args H), H0, H1. cbn [negb].
    unfold reply_of.
    destruct (srv_type (deref m r)) eqn:Htype.
    + rewrite callServerMethod_sse by exact Htype. cbn.
      unfold call_request. now destruct (answer env _ _).
    + rewrite callServerMethod_command; [| exact Htype |].
      * cbn. unfold call_request.
        destruct (answer env _ _) as [reply| |e]; cbn; try reflexivity.
        now destruct (msg_error reply).
      * unfold Connection.sendCommand_refused. now rewrite H1, H2.
Qed.

(** The dispatch on the manager that [initialize] leaves in
    [Scenario.started]. *)
Lemma callTool_dispatch_examples :
  let m := final Scenario.started in
  (* the qualified id "delta/echo" goes to "delta" *)
  requests (run Scenario.upstream Scenario.boot (callTool "delta/echo" "{}" m)) =
    [("delta", call_request 1000 "echo" "{}")] /\
  (* the bare name "echo" goes to "beta", registered first *)
  find_tool (tools m) "echo" = Some (tool_entry_of "beta" Scenario.echo) /\
  (* an unknown name *)
  result (run Scenario.upstream Scenario.boot (callTool "nothing" "{}" m)) =
    Thrown (ToolNotFound "nothing") /\
  (* the owner is not connected *)
  result (run Scenario.upstream Scenario.boot (callTool "beta/echo" "{}" Scenario.beta_down)) =
    Thrown (ServerUnavailable "beta").
Proof.
  cbn zeta.
  pose proof (callTool_dispatch Scenario.upstream Scenario.boot (final Scenario.started))
    as Hstarted.
  split; [|split; [|split]].
  - destruct (Hstarted "delta/echo" "{}") as (_ & _ & _ & _ & _ & Hcall).
    apply (Hcall (tool_entry_of "delta" Scenario.echo) 3); try reflexivity.
    discriminate.
  - destruct (Hstarted "echo" "{}") as (_ & _ & Hfirst & _).
    apply (Hfirst [] "beta/echo" (tool_entry_of "beta" Scenario.echo)
                  [("delta/echo", tool_entry_of "delta" Scenario.echo)]);
      try reflexivity.
    intros kv [].
  - destruct (Hstarted "nothing" "{}") as (_ & _ & _ & Hnone & _).
    rewrite Hnone; [reflexivity | reflexivity |].
    intros kv [<- | [<- | []]]; reflexivity.
  - destruct (callTool_dispatch Scenario.upstream Scenario.boot Scenario.beta_down
                                "beta/echo" "{}") as (_ & _ & _ & _ & Hdown & _).
    rewrite (Hdown (tool_entry_of "beta" Scenario.echo)); [reflexivity | reflexivity |].
    intros r [= <-]. reflexivity.
Qed.

(** C1, on the code: a qualified id does not always reach the server it
    names.  "beta" and "delta" both connect; the tool that "beta" lists
    carries the property [serverId: 'delta'], and in the entry
    [{ serverId, ...tool }] that discovery stores under "beta/echo" this
    property wins.  [getAvailableTools] reports the id "beta/echo" with
    the server "delta", and [callTool] given "beta/echo" sends its one
    [tools/call] request to "delta"; "beta" gets none. *)
Theorem listed_serverId_redirects_callTool :
  let env := Scenario.naming "beta" "delta" in
  let o := run env Scenario.boot (initialize (new_manager Scenario.pair)) in
  let call := run env (after o) (callTool "beta/echo" "{}" (final o)) in
  connected_servers (final o) = ["beta"; "delta"] /\
  map (fun v => (tv_id v, tv_server v)) (getAvailableTools (final o)) =
    [("beta/echo", "delta"); ("delta/echo", "delta")] /\
  requests call = [("delta", call_request (clock (after o)) "echo" "{}")] /\
  result call = Normal (Some (Scenario.result_with None None)).
Proof.
  vm_compute. repeat split.
Qed.

(** ** Discovery *)

(** Case analysis on how the requests of the goal are answered. *)
Ltac case_answers env :=
  repeat match goal with
         | |- context [match answer env ?t ?rq with _ => _ end] =>
             destruct (answer env t rq) as [?resp| |?e]
         end.

(** A registration loop never suspends: it gets through the elements
    before the first [null], and throws there. *)
Lemma for_each_objects {A : Type} (step : A -> manager -> manager)
      (l : list (option A)) (m : manager) :
  for_each l (fun x => match x with
                       | None => throw null_property
                       | Some v => modify (step v)
                       end) m =
  Done (fold_left (fun m v => step v m) (leading l) m)
       (if forallb is_object l then Normal tt else Thrown null_property).
Proof.
  revert m. induction l as [|[v|] l IH]; intros m; cbn [for_each leading forallb is_object andb].
  - reflexivity.
  - unfold bind, modify. cbn [bind_async fold_left]. apply IH.
  - reflexivity.
Qed.

Lemma for_of_objects {A : Type} (step : A -> manager -> manager)
      (x : member A) (m : manager) :
  for_of x (fun x => match x with
                     | None => throw null_property
                     | Some v => modify (step v)
                     end) m =
  Done (fold_left (fun m v => step v m) (handled x) m)
       (match failure x with
        | Some e => Thrown e
        | None => Normal tt
        end).
Proof.
  destruct x as [|l|]; cbn [for_of handled failure fold_left]; [reflexivity| |reflexivity].
  rewrite for_each_objects. now destruct (forallb is_object l).
Qed.

Lemma for_of_tools (serverId : string) (response : rpc_message) (m : manager) :
  for_of (tools_member response) (register_tool serverId) m =
  Done (add_tools serverId response m)
       (match failure (tools_member response) with
        | Some e => Thrown e
        | None => Normal tt
        end).
Proof.
  exact (for_of_objects
           (fun tool m => with_tools (JsMap.set (tools m) (qualified serverId (td_name tool))
                                                (tool_entry_of serverId tool)) m)
           (tools_member response) m).
Qed.

Lemma for_of_resources (serverId : string) (response : rpc_message) (m : manager) :
  for_of (resources_member response) (register_resource serverId) m =
  Done (add_resources serverId response m)
       (match failure (resources_member response) with
        | Some e => Thrown e
        | None => Normal tt
        end).
Proof.
  exact (for_of_objects
           (fun resource m =>
              with_resources (JsMap.set (resources m) (qualified serverId (rd_uri resource))
                                        (resource_entry_of serverId resource)) m)
           (resources_member response) m).
Qed.

Lemma for_of_prompts (serverId : string) (response : rpc_message) (m : manager) :
  for_of (prompts_member response) (register_prompt serverId) m =
  Done (add_prompts serverId response m)
       (match failure (prompts_member response) with
        | Some e => Thrown e
        | None => Normal tt
        end).
Proof.
  exact (for_of_objects
           (fun prompt m =>
              with_prompts (JsMap.set (prompts m) (qualified serverId (pd_name prompt))
                                      (prompt_entry_of serverId prompt)) m)
           (prompts_member response) m).
Qed.

(** A registration loop writes into its own registry and nowhere else. *)
Lemma add_tools_fields (serverId : string) (response : rpc_message) (m : manager) :
  tools (add_tools serverId response m) =
    register_tools serverId (handled (tools_member response)) (tools m) /\
  resources (add_tools serverId response m) = resources m /\
  prompts (add_tools serverId response m) = prompts m /\
  same_servers m (add_tools serverId response m).
Proof.
  unfold add_tools, register_tools, same_servers.
  generalize (handled (tools_member response)) as l. intros l. revert m.
  induction l as [|tool l IH]; intros m; cbn [fold_left]; [repeat split|].
  destruct (IH (with_tools (JsMap.set (tools m) (qualified serverId (td_name tool))
                                      (tool_entry_of serverId tool)) m))
    as (-> & -> & -> & -> & -> & -> & -> & ->).
  repeat split.
Qed.

Lemma add_resources_fields (serverId : string) (response : rpc_message) (m : manager) :
  tools (add_resources serverId response m) = tools m /\
  resources (add_resources serverId response m) =
    register_resources serverId (handled (resources_member response)) (resources m) /\
  prompts (add_resources serverId response m) = prompts m /\
  same_servers m (add_resources serverId response m).
Proof.
  unfold add_resources, register_resources, same_servers.
  generalize (handled (resources_member response)) as l. intros l. revert m.
  induction l as [|resource l IH]; intros m; cbn [fold_left]; [repeat split|].
  destruct (IH (with_resources (JsMap.set (resources m) (qualified serverId (rd_uri resource))
                                          (resource_entry_of serverId resource)) m))
    as (-> & -> & -> & -> & -> & -> & -> & ->).
  repeat split.
Qed.

Lemma add_prompts_fields (serverId : string) (response : rpc_message) (m : manager) :
  tools (add_prompts serverId response m) = tools m /\
  resources (add_prompts serverId response m) = resources m /\
  prompts (add_prompts serverId response m) =
    register_prompts serverId (handled (prompts_member response)) (prompts m) /\
  same_servers m (add_prompts serverId response m).
Proof.
  unfold add_prompts, register_prompts, same_servers.
  generalize (handled (prompts_member response)) as l. intros l. revert m.
  induction l as [|prompt l IH]; intros m; cbn [fold_left]; [repeat split|].
  destruct (IH (with_prompts (JsMap.set (prompts m) (qualified serverId (pd_name prompt))
                                        (prompt_entry_of serverId prompt)) m))
    as (-> & -> & -> & -> & -> & -> & -> & ->).
  repeat split.
Qed.

Lemma same_servers_refl (m : manager) : same_servers m m.
Proof. unfold same_servers. repeat split. Qed.

Lemma same_servers_trans (m1 m2 m3 : manager) :
  same_servers m1 m2 -> same_servers m2 m3 -> same_servers m1 m3.
Proof. unfold same_servers. intuition congruence. Qed.

Lemma same_servers_deref (m m' : manager) (r : ref) : same_servers m m' -> deref m' r = deref m r.
Proof. intros (H & _). unfold deref. now rewrite H. Qed.

(** What the registrations of one list call leave of the manager. *)
Lemma registered_tools (serverId : string) (o : settle) (m : manager) :
  resources (registered (add_tools serverId) o m) = resources m /\
  prompts (registered (add_tools serverId) o m) = prompts m /\
  same_servers m (registered (add_tools serverId) o m).
Proof.
  destruct o as [response| |e]; cbn [registered];
    try (split; [reflexivity | split; [reflexivity | apply same_servers_refl]]).
  destruct (add_tools_fields serverId response m) as (_ & H2 & H3 & H4). auto.
Qed.

Lemma registered_resources (serverId : string) (o : settle) (m : manager) :
  tools (registered (add_resources serverId) o m) = tools m /\
  prompts (registered (add_resources serverId) o m) = prompts m /\
  same_servers m (registered (add_resources serverId) o m).
Proof.
  destruct o as [response| |e]; cbn [registered];
    try (split; [reflexivity | split; [reflexivity | apply same_servers_refl]]).
  destruct (add_resources_fields serverId response m) as (H1 & _ & H3 & H4). auto.
Qed.

Lemma registered_prompts (serverId : string) (o : settle) (m : manager) :
  tools (registered (add_prompts serverId) o m) = tools m /\
  resources (registered (add_prompts serverId) o m) = resources m /\
  same_servers m (registered (add_prompts serverId) o m).
Proof.
  destruct o as [response| |e]; cbn [registered];
    try (split; [reflexivity | split; [reflexivity | apply same_servers_refl]]).
  destruct (add_prompts_fields serverId response m) as (H1 & H2 & _ & H4). auto.
Qed.

(** One list call of discovery on a server of the remote transport: the
    request, the member read from the response, the loop. *)
Section Phase.
Context {A : Type}.
Variable env : oracle.
Variable listed : option rpc_message -> M (member A).
Variable body : option A -> M unit.
Variable member_of : rpc_message -> member A.
Variable add : rpc_message -> manager -> manager.
Hypothesis listed_object :
  forall response m, listed (Some response) m = Done m (Normal (member_of response)).
Hypothesis listed_null : forall m, listed None m = Done m (Thrown null_property).
Hypothesis loop :
  forall response m,
    for_of (member_of response) body m =
    Done (add response m)
         (match failure (member_of response) with
          | Some e => Thrown e
          | None => Normal tt
          end).

Lemma phase_run {B : Type} (rest : unit -> M B) (a : ambient) (m : manager) (r : ref)
      (method : string) :
  srv_type (deref m r) = SSE ->
  let rq := {| rq_id := clock a; rq_method := method; rq_params := PNone |} in
  let target := srv_id (deref m r) in
  let o := answer env target rq in
  let a1 := tick env a target rq in
  run env a (bind (callServerMethod r method PNone)
                  (fun response =>
                     bind (listed response) (fun l => bind (for_of l body) rest)) m) =
  match stops member_of o with
  | Some e =>
      {| final := registered add o m; result := Thrown e;
         trace := [waiting m target rq]; after := a1 |}
  | None =>
      let o' := run env a1 (rest tt (registered add o m)) in
      {| final := final o'; result := result o';
         trace := waiting m target rq :: trace o'; after := after o' |}
  end.
Proof.
  intros Htype. cbn zeta.
  rewrite run_bind, callServerMethod_sse by exact Htype. cbn [result final after trace].
  destruct (answer env (srv_id (deref m r)) _) as [response| |e];
    cbn [stops registered]; cbn zeta.
  - unfold bind. rewrite listed_object. cbn [bind_async]. rewrite loop.
    destruct (failure (member_of response)) as [e|]; cbn [bind_async run]; [reflexivity|].
    destruct (run env _ (rest tt (add response m))); reflexivity.
  - unfold bind. rewrite listed_null. reflexivity.
  - reflexivity.
Qed.

Lemma phase_last (a : ambient) (m : manager) (r : ref) (method : string) :
  srv_type (deref m r) = SSE ->
  let rq := {| rq_id := clock a; rq_method := method; rq_params := PNone |} in
  let target := srv_id (deref m r) in
  let o := answer env target rq in
  run env a (bind (callServerMethod r method PNone)
                  (fun response => bind (listed response) (fun l => for_of l body)) m) =
  {| final := registered add o m;
     result := match stops member_of o with
               | Some e => Thrown e
               | None => Normal tt
               end;
     trace := [waiting m target rq]; after := tick env a target rq |}.
Proof.
  intros Htype. cbn zeta.
  rewrite run_bind, callServerMethod_sse by exact Htype. cbn [result final after trace].
  destruct (answer env (srv_id (deref m r)) _) as [response| |e];
    cbn [stops registered]; cbn zeta.
  - unfold bind. rewrite listed_object. cbn [bind_async]. rewrite loop.
    now destruct (failure (member_of response)).
  - unfold bind. rewrite listed_null. reflexivity.
  - reflexivity.
Qed.
End Phase.

(** The whole run of [initializeServerCapabilities] on a server of the
    remote transport, request by request. *)
Lemma discovery_sse_run (env : oracle) (a : ambient) (m : manager) (serverId : string) (r : ref) :
  srv_type (deref m r) = SSE ->
  let target := srv_id (deref m r) in
  let rq1 := tools_request (clock a) in
  let a1 := tick env a target rq1 in
  let rq2 := resources_request (clock a1) in
  let a2 := tick env a1 target rq2 in
  let rq3 := prompts_request (clock a2) in
  let a3 := tick env a2 target rq3 in
  let m1 := registered (add_tools serverId) (answer env target rq1) m in
  let m2 := registered (add_resources serverId) (answer env target rq2) m1 in
  let m3 := registered (add_prompts serverId) (answer env target rq3) m2 in
  run env a (initializeServerCapabilities serverId r m) =
  match stops tools_member (answer env target rq1) with
  | Some _ =>
      {| final := m1; result := Normal tt; trace := [waiting m target rq1]; after := a1 |}
  | None =>
      match stops resources_member (answer env target rq2) with
      | Some _ =>
          {| final := m2; result := Normal tt;
             trace := [waiting m target rq1; waiting m1 target rq2]; after := a2 |}
      | None =>
          {| final := m3; result := Normal tt;
             trace := [waiting m target rq1; waiting m1 target rq2; waiting m2 target rq3];
             after := a3 |}
      end
  end.
Proof.
  intros Htype. cbn zeta.
  unfold initializeServerCapabilities. rewrite run_try_catch.
  rewrite (@phase_run _ env listed_tools (register_tool serverId) tools_member
             (add_tools serverId) (fun _ _ => eq_refl) (fun _ => eq_refl)
             (for_of_tools serverId))
    by exact Htype.
  fold (tools_request (clock a)).
  set (o1 := answer env (srv_id (deref m r)) (tools_request (clock a))).
  set (m1 := registered (add_tools serverId) o1 m).
  set (a1 := tick env a (srv_id (deref m r)) (tools_request (clock a))).
  assert (H1 : deref m1 r = deref m r)
    by (apply same_servers_deref, (registered_tools serverId o1 m)).
  destruct (stops tools_member o1) as [e1|]; [reflexivity|]. cbn zeta.
  rewrite (@phase_run _ env listed_resources (register_resource serverId) resources_member
             (add_resources serverId) (fun _ _ => eq_refl) (fun _ => eq_refl)
             (for_of_resources serverId))
    by now rewrite H1.
  rewrite H1. fold (resources_request (clock a1)).
  set (o2 := answer env (srv_id (deref m r)) (resources_request (clock a1))).
  set (m2 := registered (add_resources serverId) o2 m1).
  set (a2 := tick env a1 (srv_id (deref m r)) (resources_request (clock a1))).
  assert (H2 : deref m2 r = deref m r).
  { rewrite <- H1. apply same_servers_deref, (registered_resources serverId o2 m1). }
  destruct (stops resources_member o2) as [e2|]; [reflexivity|]. cbn zeta.
  rewrite (@phase_last _ env listed_prompts (register_prompt serverId) prompts_member
             (add_prompts serverId) (fun _ _ => eq_refl) (fun _ => eq_refl)
             (for_of_prompts serverId))
    by now rewrite H2.
  rewrite H2. fold (prompts_request (clock a2)).
  cbn [result final trace after].
  now destruct (stops prompts_member _).
Qed.

Lemma registered_catalog (serverId : string) (o1 o2 o3 : settle) (m : manager) :
  let m1 := registered (add_tools serverId) o1 m in
  let m2 := registered (add_resources serverId) o2 m1 in
  let m3 := registered (add_prompts serverId) o3 m2 in
  catalog m1 = (register_tools serverId (listing_of tools_member o1) (tools m),
                resources m, prompts m) /\
  catalog m2 = (register_tools serverId (listing_of tools_member o1) (tools m),
                register_resources serverId (listing_of resources_member o2) (resources m),
                prompts m) /\
  catalog m3 = (register_tools serverId (listing_of tools_member o1) (tools m),
                register_resources serverId (listing_of resources_member o2) (resources m),
                register_prompts serverId (listing_of prompts_member o3) (prompts m)) /\
  same_servers m m1 /\ same_servers m m2 /\ same_servers m m3.
Proof.
  cbn zeta.
  assert (T : forall n, tools (registered (add_tools serverId) o1 n) =
                        register_tools serverId (listing_of tools_member o1) (tools n)).
  { intros n. destruct o1 as [response| |e]; cbn [registered listing_of]; try reflexivity.
    apply add_tools_fields. }
  assert (R : forall n, resources (registered (add_resources serverId) o2 n) =
                        register_resources serverId (listing_of resources_member o2)
                                           (resources n)).
  { intros n. destruct o2 as [response| |e]; cbn [registered listing_of]; try reflexivity.
    apply add_resources_fields. }
  assert (P : forall n, prompts (registered (add_prompts serverId) o3 n) =
                        register_prompts serverId (listing_of prompts_member o3) (prompts n)).
  { intros n. destruct o3 as [response| |e]; cbn [registered listing_of]; try reflexivity.
    apply add_prompts_fields. }
  set (m1 := registered (add_tools serverId) o1 m).
  set (m2 := registered (add_resources serverId) o2 m1).
  set (m3 := registered (add_prompts serverId) o3 m2).
  destruct (registered_tools serverId o1 m) as (R1 & P1 & S1).
  destruct (registered_resources serverId o2 m1) as (T2 & P2 & S2).
  destruct (registered_prompts serverId o3 m2) as (T3 & R3 & S3).
  fold m1 in R1, P1, S1. fold m2 in T2, P2, S2. fold m3 in T3, R3, S3.
  unfold catalog.
  assert (Hm1 : tools m1 = register_tools serverId (listing_of tools_member o1) (tools m))
    by apply T.
  assert (Hm2 : resources m2 =
                register_resources serverId (listing_of resources_member o2) (resources m)).
  { unfold m2. rewrite R. now rewrite R1. }
  assert (Hm3 : prompts m3 =
                register_prompts serverId (listing_of prompts_member o3) (prompts m)).
  { unfold m3. rewrite P. now rewrite P2, P1. }
  split; [now rewrite Hm1, R1, P1|].
  split; [now rewrite T2, Hm1, Hm2, P2, P1|].
  split; [now rewrite T3, T2, Hm1, R3, Hm2, Hm3|].
  split; [exact S1|]. split; [exact (same_servers_trans S1 S2)|].
  exact (same_servers_trans (same_servers_trans S1 S2) S3).
Qed.


Lemma leading_objects {A : Type} (l : list A) (rest : list (option A)) :
  leading (map Some l ++ None :: rest) = l /\
  forallb is_object (map Some l ++ None :: rest) = false /\
  leading (map Some l) = l /\ forallb is_object (map Some l) = true.
Proof.
  induction l as [|v l (IH1 & IH2 & IH3 & IH4)]; cbn; [repeat split|].
  now rewrite IH1, IH2, IH3, IH4.
Qed.




Lemma qualified_prefix (serverId name : string) :
  String.prefix (serverId ++ "/") (qualified serverId name) = true.
Proof.
  unfold qualified. induction serverId as [|c s IH]; cbn.
  - now destruct name.
  - destruct (ascii_dec c c) as [_|Hne]; [exact IH | now destruct Hne].
Qed.

Lemma fold_set_keeps_keys {D V : Type} (key : D -> string) (val : D -> V) (l : list D)
      (reg : list (string * V)) :
  incl (JsMap.keys reg)
       (JsMap.keys (fold_left (fun acc d => JsMap.set acc (key d) (val d)) l reg)).
Proof.
  revert reg. induction l as [|d l IH]; intros reg; cbn; [apply incl_refl|].
  eapply incl_tran; [|apply IH].
  destruct (JsMap.get reg (key d)) eqn:E.
  - rewrite JsMapFacts.keys_set_present by congruence. apply incl_refl.
  - rewrite JsMapFacts.keys_set_absent by exact E.
    unfold JsMap.keys. rewrite map_app. now apply incl_appl, incl_refl.
Qed.

Lemma fold_set_other {D V : Type} (key : D -> string) (val : D -> V) (l : list D)
      (reg : list (string * V)) (k : string) :
  (forall d, In d l -> key d <> k) ->
  JsMap.get (fold_left (fun acc d => JsMap.set acc (key d) (val d)) l reg) k = JsMap.get reg k.
Proof.
  revert reg. induction l as [|d l IH]; intros reg Hk; cbn; [reflexivity|].
  rewrite IH by (intros d' Hd'; apply Hk; now right).
  apply JsMapFacts.get_set_other. apply Hk. now left.
Qed.

Lemma keeps_other_entries_registered (serverId : string) (m : manager)
      (l1 : list tool_decl) (l2 : list resource_decl) (l3 : list prompt_decl) (m' : manager) :
  catalog m' = (register_tools serverId l1 (tools m),
                register_resources serverId l2 (resources m),
                register_prompts serverId l3 (prompts m)) ->
  keeps_other_entries serverId m m'.
Proof.
  unfold catalog, keeps_other_entries. intros [= -> -> ->].
  split; [apply fold_set_keeps_keys|]. split; [apply fold_set_keeps_keys|].
  split; [apply fold_set_keeps_keys|].
  intros k Hk.
  assert (Hother : forall name, qualified serverId name <> k).
  { intros name <-. now rewrite qualified_prefix in Hk. }
  unfold register_tools, register_resources, register_prompts.
  rewrite !fold_set_other by (intros; apply Hother). auto.
Qed.

(** C8, as amended: discovery writes into the live registries, entry by
    entry.  While [tools/list] is awaited a reader sees the registries as
    they were; once it is fulfilled the entries of this server are set
    into the live tools registry, and that is what a reader sees while
    [resources/list] is awaited, with the resources of this server still
    missing; and so on for [prompts/list].  At every such moment, and at
    the end, no key has been taken out of a registry, and every entry
    whose key does not begin with the id of the discovering server and a
    slash is as it was. *)
Theorem discovery_mutates_in_place
    (env : oracle) (a : ambient) (m : manager) (serverId : string) (r : ref) :
  srv_type (deref m r) = SSE ->
  let o := run env a (initializeServerCapabilities serverId r m) in
  let target := srv_id (deref m r) in
  let rq1 := tools_request (clock a) in
  let a1 := tick env a target rq1 in
  let rq2 := resources_request (clock a1) in
  (forall s, In s (trace o) -> keeps_other_entries serverId m (visible s)) /\
  keeps_other_entries serverId m (final o) /\
  (forall resp1 resp2 l1 l2,
     answer env target rq1 = Fulfilled resp1 ->
     tools_member resp1 = Items (map Some l1) ->
     answer env target rq2 = Fulfilled resp2 ->
     resources_member resp2 = Items (map Some l2) ->
     map (fun s => catalog (visible s)) (trace o) =
       [ (tools m, resources m, prompts m);
         (register_tools serverId l1 (tools m), resources m, prompts m);
         (register_tools serverId l1 (tools m),
          register_resources serverId l2 (resources m), prompts m) ]).
Proof.
  intros Htype. cbn zeta. rewrite discovery_sse_run by exact Htype. cbn zeta.
  set (target := srv_id (deref m r)).
  set (o1 := answer env target (tools_request (clock a))).
  set (a1 := tick env a target (tools_request (clock a))).
  set (o2 := answer env target (resources_request (clock a1))).
  set (a2 := tick env a1 target (resources_request (clock a1))).
  set (o3 := answer env target (prompts_request (clock a2))).
  destruct (registered_catalog serverId o1 o2 o3 m) as (Hcat1 & Hcat2 & Hcat3 & _).
  cbn zeta in Hcat1, Hcat2, Hcat3.
  assert (K0 : keeps_other_entries serverId m m)
    by (apply (@keeps_other_entries_registered serverId m [] [] []); reflexivity).
  pose proof (@keeps_other_entries_registered serverId m _ [] [] _ Hcat1) as K1.
  pose proof (@keeps_other_entries_registered serverId m _ _ [] _ Hcat2) as K2.
  pose proof (@keeps_other_entries_registered serverId m _ _ _ _ Hcat3) as K3.
  split; [|split].
  - intros s.
    destruct (stops tools_member o1); [|destruct (stops resources_member o2)];
      cbn [trace In]; intros Hin;
      repeat match goal with
             | H : _ \/ _ |- _ => destruct H as [<- | H]
             | H : False |- _ => destruct H
             end; cbn [visible waiting]; assumption.
  - destruct (stops tools_member o1); [|destruct (stops resources_member o2)];
      cbn [final]; assumption.
  - intros resp1 resp2 l1 l2 E1 L1 E2 L2.
    assert (H1 : stops tools_member o1 = None /\ listing_of tools_member o1 = l1).
    { rewrite E1. cbn [stops listing_of]. rewrite L1. cbn [failure handled].
      destruct (leading_objects l1 []) as (_ & _ & -> & ->). now split. }
    assert (H2 : stops resources_member o2 = None /\ listing_of resources_member o2 = l2).
    { rewrite E2. cbn [stops listing_of]. rewrite L2. cbn [failure handled].
      destruct (leading_objects l2 []) as (_ & _ & -> & ->). now split. }
    destruct H1 as [S1 Hl1], H2 as [S2 Hl2]. rewrite S1, S2. cbn [trace map visible waiting].
    rewrite Hcat1, Hcat2, Hl1, Hl2. reflexivity.
Qed.

Lemma discovery_mutates_in_place_witness :
  map (fun s => JsMap.keys (tools (visible s)))
      (trace (run Scenario.upstream Scenario.boot
                (initializeServerCapabilities "delta" 3
                   (with_tools [("beta/echo", tool_entry_of "beta" Scenario.echo)]
                               (final Scenario.started))))) =
  [ ["beta/echo"]; ["beta/echo"; "delta/echo"]; ["beta/echo"; "delta/echo"] ].
Proof.
  destruct (discovery_mutates_in_place Scenario.upstream Scenario.boot
              (with_tools [("beta/echo", tool_entry_of "beta" Scenario.echo)]
                          (final Scenario.started))
              "delta" 3 eq_refl) as (_ & _ & Hseen).
  specialize (Hseen _ _ [Scenario.echo] [Scenario.readme] eq_refl eq_refl eq_refl eq_refl).
  apply (f_equal (map (fun c => JsMap.keys (fst (fst c))))) in Hseen.
  rewrite map_map in Hseen. exact Hseen.
Defined.

(** C8, as stated, fails: while [initialize] awaits the [initialize] reply
    of "delta", a reader gets from [getAvailableTools] the one tool of
    "beta": not the catalog from before the pass, and not the catalog that
    the pass ends with. *)
Lemma reader_sees_half_populated_catalog :
  exists s,
    In s (trace Scenario.started) /\
    sus_target s = "delta" /\
    map tv_id (getAvailableTools (visible s)) = ["beta/echo"] /\
    map tv_id (getAvailableTools (new_manager Scenario.configured)) = [] /\
    map tv_id (getAvailableTools (final Scenario.started)) = ["beta/echo"; "delta/echo"].
Proof.
  exists (nth 5 (trace Scenario.started) (waiting (new_manager []) EmptyString initialize_request)).
  split.
  - apply nth_In. vm_compute. lia.
  - vm_compute. repeat split.
Qed.

(** ** shutdown *)

Lemma with_heap_heap (m : manager) : with_heap (heap m) m = m.
Proof. now destruct m. Qed.

Lemma for_each_update (f : server -> server) (l : list (string * ref)) (m : manager) :
  for_each l (fun entry => update (snd entry) f) m =
  Done (with_heap (fold_left (fun h entry => list_update h (snd entry) f) l (heap m)) m)
       (Normal tt).
Proof.
  revert m. induction l as [|entry l IH]; intros m; cbn.
  - now rewrite with_heap_heap.
  - unfold bind, update, modify. cbn. rewrite IH. reflexivity.
Qed.

(** [shutdown] never suspends; it leaves the four maps empty. *)
Lemma shutdown_run (env : oracle) (a : ambient) (m : manager) :
  run env a (shutdown m) =
  {| final :=
       {| heap := fold_left (fun h entry => list_update h (snd entry) (with_connected false))
                            (servers m) (heap m);
          servers := []; tools := []; resources := []; prompts := [];
          isInitialized := false; serverConfigs := serverConfigs m;
          emitted := emitted m |};
     result := Normal tt; trace := []; after := a |}.
Proof.
  unfold shutdown, bind, this. cbn [bind_async].
  rewrite for_each_update. reflexivity.
Qed.

(** C4, as amended: on the manager as [shutdown] leaves it, every
    [callTool], whatever name it is given, fails at once with
    ToolNotFound: [shutdown] does not suspend and clears the tools
    registry, so the look-up finds nothing, no request is awaited, and the
    manager is left as it was (so the next [callTool] fails alike).  This
    is the state after [shutdown] when no [initialize] was in flight; one
    that is goes on registering afterwards, see
    [initialize_in_flight_outlives_shutdown]. *)
Theorem callTool_after_shutdown
    (env : oracle) (a a' : ambient) (m : manager) (toolName args : string) :
  let down := final (run env a (shutdown m)) in
  result (run env a (shutdown m)) = Normal tt /\
  trace (run env a (shutdown m)) = [] /\
  tools down = [] /\
  run env a' (callTool toolName args down) =
  {| final := down; result := Thrown (ToolNotFound toolName); trace := []; after := a' |}.
Proof.
  cbn zeta. rewrite shutdown_run. cbn [final result trace].
  split; [reflexivity|]. split; [reflexivity|]. split; [reflexivity|].
  apply callTool_not_found. reflexivity.
Qed.

(** C4, as stated, fails: "beta/echo" is in the registry of the running
    manager; after [shutdown] the call fails with ToolNotFound, and not
    with ServerUnavailable. *)
Lemma shutdown_then_callTool_is_not_found :
  let m := final Scenario.started in
  let down := final (run Scenario.upstream (after Scenario.started) (shutdown m)) in
  let o := run Scenario.upstream (after Scenario.started) (callTool "beta/echo" "{}" down) in
  JsMap.has (tools m) "beta/echo" = true /\
  result o = Thrown (ToolNotFound "beta/echo") /\
  ~ (exists serverId, result o = Thrown (ServerUnavailable serverId)).
Proof.
  cbn zeta. split; [reflexivity|].
  rewrite shutdown_run. cbn [final].
  rewrite callTool_not_found by reflexivity. cbn [result].
  split; [reflexivity|].
  intros [serverId Heq]. discriminate.
Qed.

(** An [initialize] that is in flight when [shutdown] runs goes on when
    its request settles.  [initialize] awaits the [tools/list] reply of
    "beta"; [shutdown] runs to its end and leaves the maps empty; then the
    reply arrives, the tools of "beta" are registered, and "delta" is
    connected and discovered.  After that, [callTool] given "beta/echo"
    fails with ServerUnavailable ("beta" was taken out of the map), and
    [callTool] given "delta/echo" sends its request to "delta". *)
Lemma initialize_in_flight_outlives_shutdown :
  let env := Scenario.upstream in
  let suspended := advance env 1 Scenario.boot (initialize (new_manager Scenario.pair)) in
  let a1 := fst suspended in
  match snd suspended with
  | Await seen target _ request _ =>
      let down := final (run env a1 (shutdown seen)) in
      let o := resume env a1 (snd suspended) down in
      target = "beta" /\ rq_method request = "tools/list" /\
      servers down = [] /\ catalog down = ([], [], []) /\
      result o = Normal tt /\
      JsMap.keys (servers (final o)) = ["delta"] /\
      JsMap.keys (tools (final o)) = ["beta/echo"; "delta/echo"] /\
      result (run env (after o) (callTool "beta/echo" "{}" (final o))) =
        Thrown (ServerUnavailable "beta") /\
      map fst (requests (run env (after o) (callTool "delta/echo" "{}" (final o)))) =
        ["delta"]
  | _ => False
  end.
Proof. vm_compute. repeat split. Qed.

(** ** initialize *)

Lemma list_update_last {A : Type} (h : list A) (x : A) (f : A -> A) :
  list_update (h ++ [x]) (length h) f = h ++ [f x].
Proof. induction h as [|y h IH]; cbn; [reflexivity | now rewrite IH]. Qed.

Lemma deref_fresh (h : list server) (x : server) (m : manager) :
  deref (with_heap (h ++ [x]) m) (length h) = x.
Proof. unfold deref. cbn. apply nth_middle. Qed.

(** [createCommandConnection] throws before it sets [connected]: the
    object it leaves in the store is the spawned one, and nothing was
    written to the child. *)
Lemma createCommandConnection_run (env : oracle) (a : ambient) (m : manager)
      (serverId : string) (config : server_config) :
  run env a (createCommandConnection serverId config m) =
  {| final := with_heap (heap m ++ [with_process true (command_server serverId config)]) m;
     result := Thrown (ConnectionFailed Command (NotConnected serverId));
     trace := []; after := a |}.
Proof.
  unfold createCommandConnection, try_catch, bind, alloc, update, modify, sendCommand, this.
  cbn. rewrite list_update_last, deref_fresh.
  unfold Connection.sendCommand_refused. cbn. reflexivity.
Qed.

Lemma createSSEConnection_run (env : oracle) (a : ambient) (m : manager)
      (serverId : string) (config : server_config) :
  let s0 := sse_server serverId config in
  let asked := {| visible := with_heap (heap m ++ [s0]) m; sus_target := serverId;
                  sus_via := SSE; sus_request := initialize_request |} in
  run env a (createSSEConnection serverId config m) =
  match answer env serverId initialize_request with
  | Fulfilled response =>
      {| final := with_heap (heap m ++
                    [with_capabilities (capabilities_of response)
                       (with_connected true s0)]) m;
         result := Normal (length (heap m));
         trace := [asked];
         after := tick env a serverId initialize_request |}
  | FulfilledNull =>
      {| final := with_heap (heap m ++ [with_connected true s0]) m;
         result := Thrown (ConnectionFailed SSE null_property);
         trace := [asked];
         after := tick env a serverId initialize_request |}
  | Rejected e =>
      {| final := with_heap (heap m ++ [s0]) m;
         result := Thrown (ConnectionFailed SSE e);
         trace := [asked];
         after := tick env a serverId initialize_request |}
  end.
Proof.
  cbn zeta.
  unfold createSSEConnection, try_catch, bind, alloc, update, modify, makeSSERequest,
    await_request, settled, declared_capabilities, result_of, this, tick.
  cbn. rewrite deref_fresh. cbn.
  destruct (answer env serverId initialize_request); cbn.
  - rewrite !list_update_last. reflexivity.
  - rewrite !list_update_last. reflexivity.
  - reflexivity.
Qed.

(** Discovery on a server of the remote transport completes, touches the
    three registries only, and sends its requests to that server. *)
Lemma discovery_sse_frame (env : oracle) (a : ambient) (m : manager) (serverId : string) (r : ref) :
  srv_type (deref m r) = SSE ->
  let o := run env a (initializeServerCapabilities serverId r m) in
  result o = Normal tt /\
  same_servers m (final o) /\
  (forall s, In s (trace o) -> sus_target s = srv_id (deref m r)).
Proof.
  intros Htype. cbn zeta. rewrite discovery_sse_run by exact Htype. cbn zeta.
  set (target := srv_id (deref m r)).
  set (o1 := answer env target (tools_request (clock a))).
  set (a1 := tick env a target (tools_request (clock a))).
  set (o2 := answer env target (resources_request (clock a1))).
  set (a2 := tick env a1 target (resources_request (clock a1))).
  set (o3 := answer env target (prompts_request (clock a2))).
  destruct (registered_catalog serverId o1 o2 o3 m) as (_ & _ & _ & S1 & S2 & S3).
  cbn zeta in S1, S2, S3.
  destruct (stops tools_member o1); [|destruct (stops resources_member o2)];
    cbn [result final trace]; (split; [reflexivity | split; [assumption|]]);
    intros s Hin; cbn [In] in Hin;
    repeat match goal with
           | H : _ \/ _ |- _ => destruct H as [<- | H]
           | H : False |- _ => destruct H
           end; reflexivity.
Qed.

Arguments initializeServerCapabilities : simpl never.
Arguments createSSEConnection : simpl never.
Arguments createCommandConnection : simpl never.
Arguments callServerMethod : simpl never.

Lemma run_modify (env : oracle) (a : ambient) (f : manager -> manager) (m : manager) :
  run env a (modify f m) = {| final := f m; result := Normal tt; trace := []; after := a |}.
Proof. reflexivity. Qed.

Lemma connect_attempt (env : oracle) (a : ambient) (m : manager)
      (serverId : string) (config : server_config) :
  let o := run env a (try_catch (connectToServer serverId config) (fun _ => ret tt) m) in
  result o = Normal tt /\
  isInitialized (final o) = isInitialized m /\
  emitted (final o) = emitted m /\
  (exists extra, heap (final o) = heap m ++ extra) /\
  (if connects env (serverId, config)
   then servers (final o) = JsMap.set (servers m) serverId (length (heap m)) /\
        srv_connected (deref (final o) (length (heap m))) = true /\
        srv_type (deref (final o) (length (heap m))) = SSE
   else servers (final o) = servers m) /\
  (is_sse config = true -> In (serverId, initialize_request) (requests o)) /\
  (forall s, In s (trace o) -> sus_target s = serverId /\ is_sse config = true).
Proof.
  cbn zeta. unfold connects. cbn [fst snd].
  rewrite run_try_catch. unfold connectToServer. rewrite run_bind.
  destruct (is_sse config) eqn:Hsse.
  - rewrite createSSEConnection_run. cbn zeta.
    destruct (answer env serverId initialize_request) as [response| |e];
      cbn [result final trace after andb].
    + rewrite run_bind, run_modify. cbn [result final trace after]. cbn zeta.
      match goal with
      | |- context [run env ?a1 (initializeServerCapabilities serverId ?r ?m1)] =>
          assert (Hobj : deref m1 r = with_capabilities (capabilities_of response)
                                        (with_connected true (sse_server serverId config)))
            by (unfold deref; cbn; now rewrite nth_middle);
          assert (Htype : srv_type (deref m1 r) = SSE) by (now rewrite Hobj);
          destruct (discovery_sse_frame env a1 m1 serverId r Htype)
            as (Hres & (Hheap & Hservers & Hinit & _ & Hemitted) & Htargets);
          rewrite Hobj in Htargets;
          destruct (run env a1 (initializeServerCapabilities serverId r m1))
            as [mf rf tf af]
      end.
      cbn in Hres, Hheap, Hservers, Hinit, Hemitted, Htargets. subst rf.
      cbn [result final trace after app]. unfold requests. cbn [trace map].
      repeat split; try assumption.
      * rewrite Hheap. eexists. reflexivity.
      * unfold deref. rewrite Hheap. now rewrite nth_middle.
      * unfold deref. rewrite Hheap. now rewrite nth_middle.
      * intros _. now left.
      * destruct H as [<- | Hin]; [reflexivity | now apply Htargets].
    + cbn. repeat split.
      * eexists. reflexivity.
      * intros _. now left.
      * destruct H as [<- | []]. reflexivity.
    + cbn. repeat split.
      * eexists. reflexivity.
      * intros _. now left.
      * destruct H as [<- | []]. reflexivity.
  - destruct (truthy (cfg_command config)).
    + rewrite createCommandConnection_run. cbn. repeat split.
      * eexists. reflexivity.
      * discriminate.
      * destruct H.
      * destruct H.
    + cbn. repeat split.
      * exists []. now rewrite app_nil_r.
      * discriminate.
      * destruct H.
      * destruct H.
Qed.

Lemma connected_in_heap (m : manager) (r : ref) :
  srv_connected (deref m r) = true -> r < length (heap m).
Proof.
  intros Hc. destruct (Nat.lt_ge_cases r (length (heap m))) as [Hlt | Hge]; [exact Hlt|].
  unfold deref in Hc. rewrite nth_overflow in Hc by exact Hge. discriminate.
Qed.

Lemma connected_servers_all (m : manager) :
  all_connected m -> connected_servers m = JsMap.keys (servers m).
Proof.
  unfold all_connected, connected_servers, JsMap.keys.
  induction (servers m) as [|[k r] l IH]; intros Hall; cbn; [reflexivity|].
  destruct (Hall k r (or_introl eq_refl)) as (_ & -> & _). cbn.
  rewrite IH; [reflexivity|]. intros k' r' Hin. apply (Hall k' r'). now right.
Qed.

Lemma connect_loop (env : oracle) (l : list (string * server_config)) (a : ambient) (m : manager) :
  all_connected m ->
  NoDup (map fst l) ->
  (forall id, In id (map fst l) -> JsMap.get (servers m) id = None) ->
  let o := run env a (for_each l
              (fun entry => try_catch (connectToServer (fst entry) (snd entry))
                                      (fun _ => ret tt)) m) in
  result o = Normal tt /\
  isInitialized (final o) = isInitialized m /\
  emitted (final o) = emitted m /\
  all_connected (final o) /\
  JsMap.keys (servers (final o)) = JsMap.keys (servers m) ++ map fst (filter (connects env) l) /\
  (forall entry, In entry l -> is_sse (snd entry) = true ->
                 In (fst entry, initialize_request) (requests o)) /\
  (forall s, In s (trace o) ->
             exists config, In (sus_target s, config) l /\ is_sse config = true).
Proof.
  revert a m. induction l as [|[id cfg] l IH]; intros a m Hgood Hnd Hfresh; cbn zeta.
  - cbn. rewrite app_nil_r. do 3 (split; [reflexivity|]). split; [exact Hgood|].
    split; [reflexivity|]. split; [intros entry [] | intros s []].
  - cbn [for_each]. rewrite run_bind. cbn [fst snd].
    destruct (connect_attempt env a m id cfg)
      as (Hres & Hinit & Hemit & [extra Hheap] & Hserv & Hreq & Htargets).
    cbn zeta in Hres, Hinit, Hemit, Hheap, Hserv, Hreq, Htargets.
    set (o1 := run env a (try_catch (connectToServer id cfg) (fun _ => ret tt) m)) in *.
    cbn zeta. rewrite Hres.
    inversion Hnd as [|? ? Hnotin Hnd']; subst.
    assert (Hid : JsMap.get (servers m) id = None) by (apply Hfresh; now left).
    assert (Hgood1 : all_connected (final o1)).
    { assert (Hold : forall k r, In (k, r) (servers m) ->
                r < length (heap (final o1)) /\
                srv_connected (deref (final o1) r) = true /\
                srv_type (deref (final o1) r) = SSE).
      { intros k r Hin. destruct (Hgood k r Hin) as (Hlt & Hc & Ht). split.
        - rewrite Hheap, length_app. lia.
        - unfold deref in *. rewrite Hheap, app_nth1 by exact Hlt. now split. }
      intros k r Hin. destruct (connects env (id, cfg)).
      - destruct Hserv as (Hserv & Hconn & Hremote). rewrite Hserv in Hin.
        rewrite JsMapFacts.keys_set_absent in Hin by exact Hid.
        apply in_app_or in Hin as [Hin | [[= <- <-] | []]].
        + now apply (Hold k r).
        + split; [now apply connected_in_heap | now split].
      - rewrite Hserv in Hin. now apply (Hold k r). }
    assert (Hfresh1 : forall id', In id' (map fst l) -> JsMap.get (servers (final o1)) id' = None).
    { intros id' Hin. destruct (connects env (id, cfg)).
      - destruct Hserv as (-> & _). rewrite JsMapFacts.get_set_other.
        + apply Hfresh. now right.
        + intros ->. contradiction.
      - rewrite Hserv. apply Hfresh. now right. }
    destruct (IH (after o1) (final o1) Hgood1 Hnd' Hfresh1)
      as (Hres2 & Hinit2 & Hemit2 & Hgood2 & Hkeys2 & Hreq2 & Htargets2).
    cbn zeta in Hres2, Hinit2, Hemit2, Hgood2, Hkeys2, Hreq2, Htargets2.
    cbn [result final].
    split; [exact Hres2|]. split; [congruence|]. split; [congruence|].
    split; [exact Hgood2|]. split; [|split].
    + rewrite Hkeys2. cbn [filter].
      destruct (connects env (id, cfg)).
      * destruct Hserv as (-> & _). rewrite JsMapFacts.keys_set_absent by exact Hid.
        unfold JsMap.keys. rewrite map_app. cbn. now rewrite <- app_assoc.
      * now rewrite Hserv.
    + intros entry [<- | Hin] Hsse; unfold requests; cbn [trace]; rewrite map_app;
        apply in_or_app.
      * left. now apply Hreq.
      * right. now apply Hreq2.
    + intros s Hin. cbn [trace] in Hin. apply in_app_or in Hin as [Hin | Hin].
      * destruct (Htargets s Hin) as (-> & Hsse). exists cfg. split; [now left | exact Hsse].
      * destruct (Htargets2 s Hin) as (config & Hc & Hsse).
        exists config. split; [now right | exact Hsse].
Qed.

Lemma filter_split_length {A : Type} (f : A -> bool) (l : list A) :
  length (filter f l) = length l - length (filter (fun x => negb (f x)) l).
Proof.
  assert (H : length (filter f l) + length (filter (fun x => negb (f x)) l) = length l).
  { induction l as [|x l IH]; cbn; [reflexivity|].
    destruct (f x); cbn; lia. }
  lia.
Qed.

(** A command connection never gets connected: [sendCommand] is asked to
    send [initialize] while [connected] is still false, and refuses. *)
Lemma command_connection_always_fails (env : oracle) (a : ambient) (m : manager)
      (serverId : string) (config : server_config) :
  result (run env a (createCommandConnection serverId config m)) =
    Thrown (ConnectionFailed Command (NotConnected serverId)) /\
  requests (run env a (createCommandConnection serverId config m)) = [].
Proof. rewrite createCommandConnection_run. split; reflexivity. Qed.

(** [initialize] of a new manager, when every request settles: with N
    configured servers (the keys of the configuration object, hence
    distinct), it completes normally, sets [isInitialized] and emits
    ['initialized']; the servers in the map are those of the remote
    transport whose [initialize] request is fulfilled with an object, in
    configured order, each with [connected] set; and the [initialize]
    request of every configured SSE server is issued, whatever happened to
    the servers before it. *)
Lemma initialize_partial_startup
    (env : oracle) (a : ambient) (configured : list (string * server_config)) :
  NoDup (map fst configured) ->
  let o := run env a (initialize (new_manager configured)) in
  let failing := filter (fun entry => negb (connects env entry)) configured in
  result o = Normal tt /\
  isInitialized (final o) = true /\
  emitted (final o) = [EvInitialized] /\
  JsMap.keys (servers (final o)) = map fst (filter (connects env) configured) /\
  connected_servers (final o) = map fst (filter (connects env) configured) /\
  length (connected_servers (final o)) = length configured - length failing /\
  (forall k r, In (k, r) (servers (final o)) ->
               srv_connected (deref (final o) r) = true /\
               srv_type (deref (final o) r) = SSE) /\
  (forall entry, In entry configured -> is_sse (snd entry) = true ->
                 In (fst entry, initialize_request) (requests o)) /\
  (forall s, In s (trace o) ->
             exists config, In (sus_target s, config) configured /\ is_sse config = true).
Proof.
  intros Hnd. cbn zeta.
  unfold initialize. rewrite run_bind. cbn [this run result final after trace new_manager isInitialized serverConfigs].
  cbn zeta. cbn [result final after trace isInitialized serverConfigs].
  rewrite run_bind.
  assert (Hempty : all_connected (new_manager configured)) by (intros k r []).
  destruct (@connect_loop env configured a (new_manager configured) Hempty Hnd (fun _ _ => eq_refl))
    as (Hres & Hinit & Hemit & Hgood & Hkeys & Hreq & Htargets).
  cbn zeta in Hres, Hinit, Hemit, Hgood, Hkeys, Hreq, Htargets.
  set (o1 := run env a (for_each configured _ (new_manager configured))) in *.
  cbn zeta. rewrite Hres. cbn [app trace final result].
  assert (Hgood' : all_connected (with_emitted (emitted (with_isInitialized true (final o1)) ++ [EvInitialized])
                                  (with_isInitialized true (final o1)))) by exact Hgood.
  unfold emit, bind, modify. cbn [bind_async run final result trace after].
  split; [reflexivity|]. split; [reflexivity|].
  split; [cbn; now rewrite Hemit|].
  split; [exact Hkeys|].
  split; [rewrite (connected_servers_all Hgood'); exact Hkeys|].
  split; [|split; [|split]].
  - rewrite (connected_servers_all Hgood'). cbn [servers with_emitted with_isInitialized].
    rewrite Hkeys. cbn. rewrite length_map. apply filter_split_length.
  - intros k r Hin. now apply (Hgood' k r).
  - intros entry Hin Hsse. unfold requests. cbn [trace]. rewrite !app_nil_r.
    now apply Hreq.
  - intros s Hin. rewrite !app_nil_r in Hin. now apply Htargets.
Qed.

Lemma initialize_partial_startup_example :
  connected_servers (final Scenario.started) = ["beta"; "delta"] /\
  length (connected_servers (final Scenario.started)) = 4 - 2.
Proof.
  assert (Hnd : NoDup (map fst Scenario.configured)).
  { cbn. repeat constructor; cbn; intuition discriminate. }
  destruct (initialize_partial_startup Scenario.upstream Scenario.boot
              Scenario.configured Hnd)
    as (_ & _ & _ & _ & Hconnected & Hcount & _).
  split; [exact Hconnected | exact Hcount].
Qed.

Lemma keys_get_none {V : Type} (m : list (string * V)) (k : string) :
  ~ In k (JsMap.keys m) -> JsMap.get m k = None.
Proof.
  intros Hnotin. destruct (JsMap.get m k) as [v|] eqn:E; [|reflexivity].
  exfalso. apply Hnotin. apply JsMapFacts.get_in in E.
  unfold JsMap.keys. change k with (fst (k, v)). now apply in_map.
Qed.

Lemma nodup_fst_unique {V : Type} (l : list (string * V)) (k : string) (v v' : V) :
  NoDup (map fst l) -> In (k, v) l -> In (k, v') l -> v = v'.
Proof.
  induction l as [|[k0 v0] l IH]; intros Hnd Hin Hin'; [destruct Hin|].
  cbn in Hnd. inversion Hnd as [|? ? Hnotin Hnd']; subst.
  destruct Hin as [Heq | Hin], Hin' as [Heq' | Hin'].
  - congruence.
  - injection Heq as Hk _. subst k0. exfalso. apply Hnotin.
    change k with (fst (k, v')). now apply in_map.
  - injection Heq' as Hk _. subst k0. exfalso. apply Hnotin.
    change k with (fst (k, v)). now apply in_map.
  - now apply IH.
Qed.

(** C2, on the code: a server that is run as a child process is never
    connected, however healthy the process.  [createCommandConnection]
    sends [initialize] through [sendCommand] before it sets [connected],
    and the guard of [sendCommand] refuses whatever is sent while
    [connected] is false.  So for every configuration (the keys of the
    configuration object, hence distinct) and whatever the servers would
    answer (every request settling), after [initialize] a configured
    entry that is not of type
    'sse' is in no map, [getServerStatus] does not list it, no request was
    ever addressed to it, not even [initialize], and the object that was
    built for it is the spawned one with [connected] false. *)
Theorem command_server_is_never_connected
    (env : oracle) (a : ambient) (configured : list (string * server_config))
    (serverId : string) (config : server_config) :
  NoDup (map fst configured) ->
  In (serverId, config) configured ->
  is_sse config = false ->
  let o := run env a (initialize (new_manager configured)) in
  result o = Normal tt /\
  JsMap.get (servers (final o)) serverId = None /\
  ~ In serverId (connected_servers (final o)) /\
  ~ In serverId (map fst (getServerStatus (final o))) /\
  (forall request, ~ In (serverId, request) (requests o)) /\
  (forall m, deref (final (run env a (createCommandConnection serverId config m)))
                   (length (heap m)) =
             Connection.c_server (spawned serverId config) /\
             srv_connected (Connection.c_server (spawned serverId config)) = false).
Proof.
  intros Hnd Hin Hcmd. cbn zeta.
  destruct (@initialize_partial_startup env a configured Hnd)
    as (Hres & _ & _ & Hkeys & Hconn & _ & _ & _ & Htargets).
  cbn zeta in Hres, Hkeys, Hconn, Htargets.
  assert (Hout : ~ In serverId (map fst (filter (connects env) configured))).
  { intros Hc. apply in_map_iff in Hc as [[k cfg] [Hk Hf]]. cbn in Hk. subst k.
    apply filter_In in Hf as [Hf Hyes].
    rewrite (@nodup_fst_unique _ configured serverId cfg config Hnd Hf Hin) in Hyes.
    unfold connects in Hyes. cbn [snd] in Hyes. now rewrite Hcmd in Hyes. }
  split; [exact Hres|]. split; [|split; [|split; [|split]]].
  - apply keys_get_none. now rewrite Hkeys.
  - now rewrite Hconn.
  - unfold getServerStatus. rewrite map_map. cbn [fst].
    change (map (fun x : string * ref => fst x) (servers (final (run env a (initialize (new_manager configured))))))
      with (JsMap.keys (servers (final (run env a (initialize (new_manager configured)))))).
    now rewrite Hkeys.
  - intros request Hreq. unfold requests in Hreq.
    apply in_map_iff in Hreq as [s [Heq Hs]]. injection Heq as Ht _.
    destruct (Htargets s Hs) as (cfg & Hc & Hsse). rewrite Ht in Hc.
    rewrite (@nodup_fst_unique _ configured serverId cfg config Hnd Hc Hin) in Hsse. congruence.
  - intros m. rewrite createCommandConnection_run. cbn [final].
    split; [apply deref_fresh | reflexivity].
Qed.

(** The scenario of the specification: "alpha" exits at once and "beta"
    answers.  After [initialize] neither is connected, and the catalog is
    empty. *)
Lemma command_server_is_never_connected_witness :
  let o := run Scenario.answering Scenario.boot (initialize (new_manager Scenario.processes)) in
  (forall request, answer Scenario.answering "beta" request <> FulfilledNull /\
                   forall e, answer Scenario.answering "beta" request <> Rejected e) /\
  JsMap.get (servers (final o)) "beta" = None /\
  getServerStatus (final o) = [] /\
  getAvailableTools (final o) = [] /\
  requests o = [].
Proof.
  cbn zeta.
  assert (Hnd : NoDup (map fst Scenario.processes)).
  { cbn. repeat constructor; cbn; intuition discriminate. }
  destruct (@command_server_is_never_connected Scenario.answering Scenario.boot
              Scenario.processes "beta" Scenario.command_entry Hnd
              (or_intror (or_introl eq_refl)) eq_refl)
    as (_ & Hnone & _).
  split.
  { intros request. unfold Scenario.answering, Scenario.upstream. cbn.
    destruct (String.eqb (rq_method request) "tools/list");
      [split; [discriminate | intros e; discriminate]|].
    destruct (String.eqb (rq_method request) "resources/list");
      split; try discriminate; intros e; discriminate. }
  split; [exact Hnone|]. vm_compute. repeat split.
Defined.

(** [initialize] completes when every request settles.  A remote server
    that sends the headers of its [tools/list] response and no end leaves
    [initialize] suspended there for ever, with [isInitialized] false:
    "delta", configured after it, is never asked. *)
Lemma initialize_waits_for_a_stalled_response :
  match attempt Scenario.upstream Scenario.stalled Scenario.boot
                (initialize (new_manager Scenario.pair)) with
  | Waiting s earlier =>
      sus_target s = "beta" /\ rq_method (sus_request s) = "tools/list" /\
      isInitialized (visible s) = false /\
      map sus_target earlier = ["beta"]
  | Finished _ => False
  end.
Proof. vm_compute. repeat split. Qed.

(** When no request is left without an end, the task runs as [run] says. *)
Lemma attempt_settled {A : Type} (env : oracle) (silent : string -> rpc_request -> bool)
      (a : ambient) (x : async A) :
  (forall t rq, silent t rq = false) ->
  attempt env silent a x = Finished (run env a x).
Proof.
  intros Hall. revert a. induction x as [m c | k IH | k IH | m t via rq k IH]; intros a; cbn.
  - reflexivity.
  - apply IH.
  - apply IH.
  - rewrite Hall, IH. reflexivity.
Qed.

(** ** MCPIntegration *)

Lemma flatten_skip (toolName : string) (rest : list (string * tool_entry))
      (acc : list (string * agent_tool)) :
  (forall kv, In kv rest -> te_name (snd kv) <> toolName) ->
  JsMap.get (fold_left (fun acc kv => JsMap.set acc (te_name (snd kv))
                                        (agent_tool_of (fst kv) (snd kv)))
                       rest acc) toolName =
  JsMap.get acc toolName.
Proof.
  revert acc. induction rest as [|kv rest IH]; intros acc Hskip; cbn; [reflexivity|].
  rewrite IH by (intros kv' Hin; apply Hskip; now right).
  apply JsMapFacts.get_set_other. apply Hskip. now left.
Qed.

(** [registerTools] keeps, under a bare name, the last entry of the tools
    registry that has this name. *)
Lemma flatten_last (reg before rest : list (string * tool_entry))
      (key : string) (tool : tool_entry) :
  reg = before ++ (key, tool) :: rest ->
  (forall kv, In kv rest -> te_name (snd kv) <> te_name tool) ->
  JsMap.get (flatten reg) (te_name tool) = Some (agent_tool_of key tool).
Proof.
  intros -> Hlast. unfold flatten. rewrite fold_left_app. cbn [fold_left fst snd].
  rewrite flatten_skip by exact Hlast.
  apply JsMapFacts.get_set_same.
Qed.

(** [registerTools] keys the flattened registry by bare name, so that
    of the entries with one bare name the last in the order of the tools
    registry survives; [executeTool] calls [callTool] with the qualified
    key of that survivor, which is an exact match for that very entry.
    With two entries of one bare name, [callTool] given the bare name finds
    the first entry whose key ends with a slash and the name, and
    [executeTool] reaches the last one. *)
Lemma executeTool_takes_last_registered
    (i : integration) (m : manager) (toolName args : string) :
  mcpManager i = Some m ->
  JsMap.wf (tools m) ->
  (forall before key tool rest,
      tools m = before ++ (key, tool) :: rest ->
      te_name tool = toolName ->
      (forall kv, In kv rest -> te_name (snd kv) <> toolName) ->
      getTool (registerTools i) toolName = Some (agent_tool_of key tool) /\
      executeTool (registerTools i) toolName args = callTool key args /\
      find_tool (tools m) key = Some tool) /\
  (forall l1 k1 t1 l2 k2 t2 l3,
      tools m = l1 ++ (k1, t1) :: l2 ++ (k2, t2) :: l3 ->
      te_name t2 = toolName ->
      (forall kv, In kv l3 -> te_name (snd kv) <> toolName) ->
      JsMap.get (tools m) toolName = None ->
      endsWith k1 ("/" ++ toolName) = true ->
      (forall kv, In kv l1 -> endsWith (fst kv) ("/" ++ toolName) = false) ->
      find_tool (tools m) toolName = Some t1 /\
      executeTool (registerTools i) toolName args = callTool k2 args /\
      find_tool (tools m) k2 = Some t2).
Proof.
  intros Hm Hwf.
  assert (Hlast : forall before key tool rest,
             tools m = before ++ (key, tool) :: rest ->
             te_name tool = toolName ->
             (forall kv, In kv rest -> te_name (snd kv) <> toolName) ->
             getTool (registerTools i) toolName = Some (agent_tool_of key tool) /\
             executeTool (registerTools i) toolName args = callTool key args /\
             find_tool (tools m) key = Some tool).
  { intros before key tool rest Hsplit Hname Hrest. subst toolName.
    assert (Hget : getTool (registerTools i) (te_name tool) = Some (agent_tool_of key tool)).
    { unfold getTool, registerTools. rewrite Hm. cbn [toolRegistry with_toolRegistry].
      eapply flatten_last; [exact Hsplit | exact Hrest]. }
    split; [exact Hget|]. split.
    - unfold executeTool. rewrite Hget. reflexivity.
    - unfold find_tool. erewrite JsMapFacts.in_get; [reflexivity | exact Hwf |].
      rewrite Hsplit. apply in_or_app. right. now left. }
  split; [exact Hlast|].
  intros l1 k1 t1 l2 k2 t2 l3 Hsplit Hname Hrest Hnone Hkey Hbefore.
  split.
  - unfold find_tool. rewrite Hnone, Hsplit.
    rewrite (find_first (fun kv => endsWith (fst kv) ("/" ++ toolName))
                        l1 (k1, t1) (l2 ++ (k2, t2) :: l3) Hbefore Hkey).
    reflexivity.
  - apply (Hlast (l1 ++ (k1, t1) :: l2) k2 t2 l3); [|exact Hname | exact Hrest].
    rewrite Hsplit, <- app_assoc. reflexivity.
Qed.

Lemma executeTool_takes_last_registered_example :
  let i := fst (integration_initialize Scenario.desktop Scenario.upstream Scenario.boot
                                       new_integration) in
  let m := final Scenario.started in
  find_tool (tools m) "echo" = Some (tool_entry_of "beta" Scenario.echo) /\
  executeTool (registerTools i) "echo" "{}" = callTool "delta/echo" "{}" /\
  find_tool (tools m) "delta/echo" = Some (tool_entry_of "delta" Scenario.echo).
Proof.
  cbn zeta.
  assert (Hwf : JsMap.wf (tools (final Scenario.started))).
  { unfold JsMap.wf. vm_compute. repeat constructor; cbn; intuition discriminate. }
  assert (Hm : mcpManager (fst (integration_initialize Scenario.desktop Scenario.upstream
                                  Scenario.boot new_integration)) =
               Some (final Scenario.started))
    by (vm_compute; reflexivity).
  assert (Ht : tools (final Scenario.started) =
               [] ++ ("beta/echo", tool_entry_of "beta" Scenario.echo)
                  :: [] ++ ("delta/echo", tool_entry_of "delta" Scenario.echo) :: [])
    by (vm_compute; reflexivity).
  destruct (executeTool_takes_last_registered
              (fst (integration_initialize Scenario.desktop Scenario.upstream Scenario.boot
                                           new_integration))
              "echo" "{}" Hm Hwf) as [_ Hpair].
  apply (Hpair [] "beta/echo" (tool_entry_of "beta" Scenario.echo)
               [] "delta/echo" (tool_entry_of "delta" Scenario.echo) [] Ht);
    try (vm_compute; reflexivity); intros kv [].
Qed.

(** The requests behind the two look-ups: with two entries of one bare
    name in the tools registry, [callTool] given the bare name sends its
    one [tools/call] request to the server that the first entry names in
    its [serverId] field, and [executeTool] sends its one request to the
    server that the last entry names there. *)
Lemma executeTool_sends_for_last_entry
    (env : oracle) (a : ambient) (i : integration) (m : manager) (toolName args : string)
    (l1 l2 l3 : list (string * tool_entry)) (k1 k2 : string) (t1 t2 : tool_entry)
    (r1 r2 : ref) :
  mcpManager i = Some m ->
  JsMap.wf (tools m) ->
  tools m = l1 ++ (k1, t1) :: l2 ++ (k2, t2) :: l3 ->
  te_name t2 = toolName ->
  (forall kv, In kv l3 -> te_name (snd kv) <> toolName) ->
  JsMap.get (tools m) toolName = None ->
  endsWith k1 ("/" ++ toolName) = true ->
  (forall kv, In kv l1 -> endsWith (fst kv) ("/" ++ toolName) = false) ->
  JsMap.get (servers m) (te_serverId t1) = Some r1 ->
  JsMap.get (servers m) (te_serverId t2) = Some r2 ->
  srv_connected (deref m r1) = true -> srv_type (deref m r1) = SSE ->
  srv_connected (deref m r2) = true -> srv_type (deref m r2) = SSE ->
  requests (run env a (callTool toolName args m)) =
    [(srv_id (deref m r1), call_request (clock a) (te_name t1) args)] /\
  requests (run env a (executeTool (registerTools i) toolName args m)) =
    [(srv_id (deref m r2), call_request (clock a) (te_name t2) args)].
Proof.
  intros Hm Hwf Hsplit Hname Hrest Hnone Hkey Hbefore Hr1 Hr2 Hon1 Ht1 Hon2 Ht2.
  destruct (@executeTool_takes_last_registered i m toolName args Hm Hwf) as [_ Hpair].
  destruct (Hpair l1 k1 t1 l2 k2 t2 l3 Hsplit Hname Hrest Hnone Hkey Hbefore)
    as (Hfirst & Hexec & Hlast).
  split.
  - now destruct (@callTool_sends env a m toolName args t1 r1 Hfirst Hr1 Hon1 Ht1) as (H & _).
  - rewrite Hexec.
    now destruct (@callTool_sends env a m k2 args t2 r2 Hlast Hr2 Hon2 Ht2) as (H & _).
Qed.

(** C10, on the code: "beta" and "delta" both list "echo", and the
    flattened registry keeps the entry of "delta", iterated last, with the
    key "delta/echo".  When the listed tools are plain, [executeTool]
    given "echo" sends its request to "delta" and [callTool] given "echo"
    to "beta".  When the tool that "delta" lists carries the property
    [serverId: 'beta'], the surviving entry is still the one under
    "delta/echo", but [{ serverId, ...tool }] recorded "beta" in it, and
    [executeTool] sends its request to "beta": not to the server iterated
    last, and to the same server as [callTool]. *)
Theorem executeTool_follows_listed_serverId :
  let started_with (env : oracle) :=
    fst (integration_initialize Scenario.desktop env Scenario.boot new_integration) in
  let targets (env : oracle) (task : M (option rpc_result)) :=
    match mcpManager (started_with env) with
    | Some m => Some (map fst (requests (run env Scenario.boot (task m))))
    | None => None
    end in
  let plain := Scenario.upstream in
  let naming := Scenario.naming "delta" "beta" in
  option_map at_toolKey (getTool (started_with plain) "echo") = Some "delta/echo" /\
  targets plain (executeTool (started_with plain) "echo" "{}") = Some ["delta"] /\
  targets plain (callTool "echo" "{}") = Some ["beta"] /\
  option_map connected_servers (mcpManager (started_with naming)) = Some ["beta"; "delta"] /\
  option_map at_toolKey (getTool (started_with naming) "echo") = Some "delta/echo" /\
  targets naming (executeTool (started_with naming) "echo" "{}") = Some ["beta"] /\
  targets naming (callTool "echo" "{}") = Some ["beta"].
Proof.
  vm_compute. repeat split.
Qed.

(** On an integration that completed [initialize], the ['mcp-refresh']
    handler shuts the manager down, and the call of [this.initialize()]
    that follows returns at its first line, because [isInitialized] is
    still set: the handler reports success, the manager stays shut down
    with empty registries, and [toolRegistry] keeps its old entries. *)
Lemma refresh_of_initialized (h : host) (env : oracle) (a : ambient)
      (i : integration) (m : manager) :
  mcpManager i = Some m ->
  int_isInitialized i = true ->
  mcp_refresh h env a i =
    (with_manager (Some (final (run env a (shutdown m)))) i, true) /\
  registry_of (fst (mcp_refresh h env a i)) = [] /\
  toolRegistry (fst (mcp_refresh h env a i)) = toolRegistry i.
Proof.
  intros Hm Hinit.
  assert (Heq : mcp_refresh h env a i =
                (with_manager (Some (final (run env a (shutdown m)))) i, true)).
  { unfold mcp_refresh. rewrite Hm, shutdown_run. cbn [result final after].
    unfold integration_initialize. cbn [int_isInitialized with_manager].
    now rewrite Hinit. }
  rewrite Heq. split; [reflexivity|].
  rewrite shutdown_run. split; reflexivity.
Qed.

(** C9, on the code: the integration is initialized against an upstream
    that lists "echo" on two servers, and the registry holds one entry per
    listed tool.  A refresh against the same upstream reports success and
    leaves the registry empty, where a second discovery would have
    produced the same two entries again. *)
Theorem refresh_leaves_registry_empty :
  let i := fst (integration_initialize Scenario.desktop Scenario.upstream Scenario.boot
                                       new_integration) in
  let refreshed := mcp_refresh Scenario.desktop Scenario.upstream Scenario.boot i in
  int_isInitialized i = true /\
  registry_of i = [("beta/echo", tool_entry_of "beta" Scenario.echo);
                   ("delta/echo", tool_entry_of "delta" Scenario.echo)] /\
  snd refreshed = true /\
  registry_of (fst refreshed) = [] /\
  JsMap.keys (toolRegistry (fst refreshed)) = ["echo"] /\
  tools (final (run Scenario.upstream {| clock := 2000; next_promise := 0 |}
                    (initialize (new_manager Scenario.configured)))) = registry_of i.
Proof.
  vm_compute. repeat split.
Qed.

(** * Further properties *)

(** ** Framing of the standard output *)

Module FramingFacts.
Import Connection Framing.

Lemma split_nonempty (s : string) : split s <> [].
Proof.
  induction s as [|ch r IH]; cbn; [discriminate|].
  destruct (Ascii.eqb ch newline); [discriminate|].
  destruct (split r); discriminate.
Qed.

Lemma split_cons (s : string) : exists seg segs, split s = seg :: segs.
Proof.
  destruct (split s) as [|seg segs] eqn:E; [now apply split_nonempty in E|].
  now exists seg, segs.
Qed.

Lemma removelast_cons2 {A : Type} (x y : A) (l : list A) :
  removelast (x :: y :: l) = x :: removelast (y :: l).
Proof. reflexivity. Qed.

Lemma last_cons2 {A : Type} (x y : A) (l : list A) (d : A) :
  last (x :: y :: l) d = last (y :: l) d.
Proof. reflexivity. Qed.

(** Splitting a concatenation: the complete lines of the first part, then
    the split of what the first part left over followed by the second. *)
Lemma split_app (s t : string) :
  split (s ++ t) =
  removelast (split s) ++ split (last (split s) EmptyString ++ t).
Proof.
  induction s as [|ch r IH]; cbn [split append]; [reflexivity|].
  destruct (Ascii.eqb ch newline) eqn:Ech.
  - rewrite IH. destruct (split_cons r) as (seg & segs & ->).
    reflexivity.
  - rewrite IH. destruct (split_cons r) as (seg & segs & Hr). rewrite Hr.
    destruct segs as [|seg2 segs].
    + cbn [removelast last app append split]. rewrite Ech.
      destruct (split_cons (seg ++ t)) as (a & b & ->). reflexivity.
    + cbn iota. rewrite !removelast_cons2, !last_cons2. reflexivity.
Qed.

Lemma join_cons2 (x y : string) (l : list string) :
  join (x :: y :: l) = (x ++ String newline (join (y :: l)))%string.
Proof. reflexivity. Qed.

Lemma last_in {A : Type} (l : list A) (d : A) : l <> [] -> In (last l d) l.
Proof.
  induction l as [|x l IH]; [congruence|]. intros _.
  destruct l as [|y l]; [now left|].
  right. apply IH. discriminate.
Qed.

Lemma last_app_nonempty {A : Type} (l l' : list A) (d : A) :
  l' <> [] -> last (l ++ l') d = last l' d.
Proof.
  intros Hne. induction l as [|x l IH]; [reflexivity|].
  cbn [app]. destruct (l ++ l') eqn:E.
  - destruct l; [contradiction | discriminate].
  - exact IH.
Qed.

Lemma split_segments_clean (s seg : string) :
  In seg (split s) -> has_newline seg = false.
Proof.
  revert seg. induction s as [|ch r IH]; intros seg; cbn [split].
  - intros [<- | []]. reflexivity.
  - destruct (Ascii.eqb ch newline) eqn:Ech.
    + intros [<- | Hin]; [reflexivity | auto].
    + destruct (split_cons r) as (seg1 & segs & Hr). rewrite Hr in *.
      intros [<- | Hin].
      * cbn. rewrite Ech. apply IH. now left.
      * apply IH. now right.
Qed.

Lemma split_clean (s : string) : has_newline s = false -> split s = [s].
Proof.
  induction s as [|ch r IH]; cbn; [reflexivity|].
  destruct (Ascii.eqb ch newline); cbn; [discriminate|].
  intros H. now rewrite IH.
Qed.

Lemma split_line (line rest : string) :
  has_newline line = false ->
  split (line ++ String newline rest) = line :: split rest.
Proof.
  induction line as [|ch r IH]; cbn [append split has_newline].
  - intros _. now rewrite Ascii.eqb_refl.
  - destruct (Ascii.eqb ch newline); cbn [orb]; [discriminate|].
    intros H. now rewrite IH.
Qed.

Lemma append_nil_r (s : string) : (s ++ EmptyString)%string = s.
Proof. induction s as [|ch r IH]; cbn; [reflexivity | now rewrite IH]. Qed.

Lemma append_assoc (s t u : string) : ((s ++ t) ++ u)%string = (s ++ t ++ u)%string.
Proof. induction s as [|ch r IH]; cbn; [reflexivity | now rewrite IH]. Qed.

(** X1: joining the segments of a split with newlines gives the string
    back, and no segment holds a newline: the reader loses no character,
    and what it keeps in its buffer is one unfinished line. *)
Theorem join_split (s : string) :
  join (split s) = s /\
  (forall seg, In seg (split s) -> has_newline seg = false) /\
  has_newline (last (split s) EmptyString) = false.
Proof.
  split; [|split].
  - induction s as [|ch r IH]; cbn [split]; [reflexivity|].
    destruct (Ascii.eqb ch newline) eqn:Ech.
    + apply Ascii.eqb_eq in Ech. subst ch.
      destruct (split_cons r) as (seg & segs & Hr). rewrite Hr in *.
      rewrite join_cons2, IH. reflexivity.
    + destruct (split_cons r) as (seg & segs & Hr). rewrite Hr in *.
      destruct segs as [|seg2 segs].
      * cbn in *. now rewrite IH.
      * rewrite join_cons2 in *. cbn [append]. now rewrite IH.
  - apply split_segments_clean.
  - apply (split_segments_clean s). apply last_in. apply split_nonempty.
Qed.

Section ReaderFacts.
Variable parse : string -> option rpc_message.
Variable blank : string -> bool.

Lemma on_data_twice (buffer d1 d2 : string) (c : conn) :
  on_chunks parse blank buffer [d1; d2] c = on_data parse blank buffer (d1 ++ d2) c.
Proof.
  cbn [on_chunks]. unfold on_data.
  rewrite <- (append_assoc buffer d1 d2).
  rewrite (split_app (buffer ++ d1) d2).
  set (rest := last (split (buffer ++ d1)) EmptyString).
  destruct (split_cons (rest ++ d2)) as (seg & segs & Hs). rewrite Hs.
  rewrite last_app_nonempty by discriminate.
  rewrite removelast_app by discriminate.
  now rewrite fold_left_app.
Qed.

(** On decoded texts the listener does not depend on the cuts: starting
    from a buffer that holds an unfinished line, handling the texts one by
    one leaves the buffer and the connection that handling their
    concatenation at once leaves. *)
Lemma on_chunks_whole (chunks : list string) (buffer : string) (c : conn) :
  has_newline buffer = false ->
  on_chunks parse blank buffer chunks c =
  on_data parse blank buffer (fold_right append EmptyString chunks) c.
Proof.
  revert buffer c. induction chunks as [|d chunks IH]; intros buffer c Hclean.
  - cbn [on_chunks fold_right]. unfold on_data.
    rewrite append_nil_r, (split_clean _ Hclean). reflexivity.
  - cbn [fold_right]. rewrite <- on_data_twice. cbn [on_chunks].
    destruct (on_data parse blank buffer d c) as [b1 c1] eqn:E.
    rewrite IH.
    + now destruct (on_data parse blank b1 _ c1).
    + unfold on_data in E. injection E as <- _.
      apply (split_segments_clean (buffer ++ d)). apply last_in. apply split_nonempty.
Qed.

(** X3: a line of output is handled when its newline has arrived, however
    the reads cut it: if the text parses to a message whose id has a
    pending call, the call is settled with it and its entry is deleted;
    and a line that is blank or does not parse is dropped without a trace,
    what follows it being handled as if the line had not been sent. *)
Theorem line_by_line (text rest : string) (c : conn) :
  has_newline text = false ->
  (forall d1 d2 message id p,
      text = (d1 ++ d2)%string ->
      blank text = false ->
      parse text = Some message ->
      truthy_id message = Some id ->
      JsMap.get (srv_responseHandlers (c_server c)) id = Some p ->
      on_chunks parse blank EmptyString [d1; (d2 ++ String newline EmptyString)%string] c =
      (EmptyString,
       settle_promise p (settlement_of_message message)
                      (with_server (drop_handler id (c_server c)) c))) /\
  (blank text = true \/ parse text = None ->
   on_data parse blank EmptyString (text ++ String newline rest) c =
   on_data parse blank EmptyString rest c).
Proof.
  intros Hclean. split.
  - intros d1 d2 message id p Htext Hblank Hparse Hid Hget.
    rewrite on_data_twice. unfold on_data. cbn [append].
    rewrite <- append_assoc, <- Htext, split_line by exact Hclean.
    cbn. unfold read_line. rewrite Hblank, Hparse.
    now rewrite (ConnectionFacts.matched_message _ _ Hid Hget).
  - intros Hdrop. unfold on_data. cbn [append].
    rewrite split_line by exact Hclean.
    destruct (split_cons rest) as (seg & segs & ->).
    rewrite removelast_cons2, last_cons2. cbn [fold_left].
    unfold read_line at 2.
    destruct Hdrop as [-> | Hnone]; [reflexivity|].
    rewrite Hnone. now destruct (blank text).
Qed.

Variable chunk : Type.
Variable toString : chunk -> string.

Lemma on_reads_texts (reads : list chunk) (buffer : string) (c : conn) :
  on_reads parse blank toString buffer reads c =
  on_chunks parse blank buffer (map toString reads) c.
Proof.
  revert buffer c. induction reads as [|data reads IH]; intros buffer c; cbn; [reflexivity|].
  unfold on_read. destruct (on_data parse blank buffer (toString data) c) as [b1 c1].
  apply IH.
Qed.

(** X2: as long as no read cuts a character, what the ['data'] listener
    does depends on the text received and not on how the reads cut it.
    The listener decodes each read on its own, so the text it handles is
    the concatenation of the decoded reads; when that is the text of the
    whole stream decoded at once (no character was cut by a read), then,
    starting from a buffer that holds an unfinished line, handling the
    reads one by one leaves the buffer and the connection that handling
    the whole stream in one read leaves: a message cut by a read is put
    together again, and a read that holds several messages dispatches
    each of them, in order. *)
Theorem on_reads_whole (reads : list chunk) (whole : chunk) (buffer : string) (c : conn) :
  has_newline buffer = false ->
  toString whole = fold_right append EmptyString (map toString reads) ->
  on_reads parse blank toString buffer reads c =
  on_read parse blank toString buffer whole c.
Proof.
  intros Hclean Hwhole. rewrite on_reads_texts. unfold on_read. rewrite Hwhole.
  now apply on_chunks_whole.
Qed.

End ReaderFacts.

Lemma on_reads_whole_witness :
  on_reads (fun _ => None) (fun _ => false) (fun text : string => text) "par"
           ["tial"; "x"] Scenario.fresh_conn =
  on_read (fun _ => None) (fun _ => false) (fun text : string => text) "par"
          "tialx" Scenario.fresh_conn.
Proof.
  apply (@on_reads_whole (fun _ => None) (fun _ => false) string (fun text => text)
                         ["tial"; "x"] "tialx" "par" Scenario.fresh_conn).
  - reflexivity.
  - reflexivity.
Defined.

Lemma line_by_line_witness :
  on_chunks (fun _ => Some (Scenario.reply 1000)) (fun _ => false) EmptyString
            ["{id:"; ("1000}" ++ String newline EmptyString)%string]
            (sendCommand 7 (call_request 1000 "echo" "{}") 1000 Scenario.fresh_conn) =
  (EmptyString,
   settle_promise 7 (Fulfilled (Scenario.reply 1000))
     (with_server (drop_handler 1000 (store_handler 1000 7 Scenario.child))
        (sendCommand 7 (call_request 1000 "echo" "{}") 1000 Scenario.fresh_conn))).
Proof.
  destruct (line_by_line (fun _ => Some (Scenario.reply 1000)) (fun _ => false)
              "{id:1000}" EmptyString
              (sendCommand 7 (call_request 1000 "echo" "{}") 1000 Scenario.fresh_conn)
              eq_refl) as [Hsettle _].
  apply (Hsettle "{id:" "1000}" (Scenario.reply 1000) 1000%Z 7); reflexivity.
Defined.

End FramingFacts.

(** ** Calls under distinct ids are settled once *)

Module SettlementFacts.
Import Connection ConnectionFacts Settlement.

Lemma settlements_same (p : promise) (c c' : conn) :
  c_settled c' = c_settled c -> settlements p c' = settlements p c.
Proof. unfold settlements. now intros ->. Qed.

Lemma settlements_more (p q : promise) (o : settle) (c c' : conn) :
  c_settled c' = c_settled c ++ [(q, o)] ->
  settlements p c' = settlements p c ++ (if Nat.eqb q p then [o] else []).
Proof.
  unfold settlements. intros ->. rewrite filter_app, map_app. cbn.
  now destruct (Nat.eqb q p).
Qed.

Lemma settlements_none (p : promise) (c : conn) :
  (forall o, ~ In (p, o) (c_settled c)) -> settlements p c = [].
Proof.
  intros Hnone. unfold settlements.
  destruct (filter (fun x => Nat.eqb (fst x) p) (c_settled c)) as [|[q o] r] eqn:E;
    [reflexivity|].
  exfalso. assert (Hin : In (q, o) (filter (fun x => Nat.eqb (fst x) p) (c_settled c)))
    by (rewrite E; now left).
  apply filter_In in Hin as [Hin Heq]. cbn in Heq. apply Nat.eqb_eq in Heq. subst q.
  exact (Hnone o Hin).
Qed.

Lemma has_in (m : list (Z * promise)) (k : Z) :
  JsMap.has m k = true -> exists q, In (k, q) m.
Proof.
  intros Hhas. apply has_get in Hhas as [q Hq]. exists q. now apply JsMapFacts.get_in.
Qed.

Lemma has_set_other (m : list (Z * promise)) (k k' : Z) (p : promise) :
  k <> k' -> JsMap.has (JsMap.set m k p) k' = JsMap.has m k'.
Proof. intros Hne. unfold JsMap.has. now rewrite JsMapFacts.get_set_other. Qed.

Lemma has_delete_other (m : list (Z * promise)) (k k' : Z) :
  k <> k' -> JsMap.has (JsMap.delete m k) k' = JsMap.has m k'.
Proof. intros Hne. unfold JsMap.has. now rewrite JsMapFacts.get_delete_other. Qed.

Ltac settled_unchanged p :=
  match goal with
  | |- context [settlements p ?c'] =>
      change (settlements p c') with
        (map snd (filter (fun x => Nat.eqb (fst x) p) (c_settled c')));
      cbn [c_settled];
      match goal with
      | |- context [map snd (filter (fun x => Nat.eqb (fst x) p) (c_settled ?c))] =>
          change (map snd (filter (fun x => Nat.eqb (fst x) p) (c_settled c)))
            with (settlements p c)
      end
  end.

Lemma in_snoc {A : Type} (x y : A) (l : list A) : In x (l ++ [y]) -> In x l \/ x = y.
Proof. intros Hin. apply in_app_or in Hin as [Hin | Hin]; [now left | right]. now destruct Hin. Qed.

Lemma grown_nonempty {A : Type} (l l' : list A) : l <> [] -> l ++ l' <> [].
Proof. destruct l; [congruence | discriminate]. Qed.

(** Deleting the entry under [id] and settling its owner [p]. *)
Lemma orderly_settle (ids : list Z) (used : list promise) (c : conn) (id : Z)
      (p : promise) (o : settle) (timers : list (promise * Z)) :
  coherent used c ->
  orderly ids used c ->
  In (id, p) (srv_responseHandlers (c_server c)) ->
  (forall x, In x timers -> In x (c_timers c)) ->
  (forall x, In x (c_timers c) -> x <> (p, id) -> In x timers) ->
  orderly ids used
    {| c_server := drop_handler id (c_server c);
       c_settled := c_settled c ++ [(p, o)];
       c_emitted := c_emitted c; c_stdin := c_stdin c; c_timers := timers |}.
Proof.
  intros [Hcat1 Hcat2 Hcat3 Hcat4 Hcat5] [O1 O2 O3 O4 O5] Hentry Hsub Hkeep.
  assert (Hmore : forall p0 c',
             c_settled c' = c_settled c ++ [(p, o)] ->
             settlements p0 c' = settlements p0 c ++ (if Nat.eqb p p0 then [o] else []))
    by (intros; now apply settlements_more).
  constructor; cbn [c_timers c_server drop_handler srv_responseHandlers with_responseHandlers].
  - intros p0 id0 q Ht Hin. apply JsMapFacts.in_delete in Hin as [Hin _]. eauto.
  - intros p0 id0 Ht. eauto.
  - intros p0 id0 Ht Hgone. rewrite (Hmore p0) by reflexivity.
    destruct (Z.eq_dec id0 id) as [-> | Hne].
    + assert (p = p0) by (apply (O1 p0 id p); auto). subst p0.
      rewrite Nat.eqb_refl. destruct (settlements p c); discriminate.
    + apply grown_nonempty. apply (O3 p0 id0); [auto|].
      now rewrite has_delete_other in Hgone by congruence.
  - intros p0. rewrite (Hmore p0) by reflexivity.
    destruct (Nat.eqb p p0) eqn:E.
    + apply Nat.eqb_eq in E. subst p0.
      rewrite settlements_none; [cbn; lia|]. intros o0. now apply (Hcat5 id p o0).
    + rewrite app_nil_r. apply O4.
  - intros p0 Hused. rewrite (Hmore p0) by reflexivity.
    destruct (O5 p0 Hused) as [Harmed | Hset]; [|right; now apply grown_nonempty].
    apply in_map_iff in Harmed as [[p1 id1] [Hfst Hin]]. cbn in Hfst. subst p1.
    destruct (Nat.eq_dec p p0) as [-> | Hne].
    + right. rewrite Nat.eqb_refl. destruct (settlements p0 c); discriminate.
    + left. apply in_map_iff. exists (p0, id1). split; [reflexivity|].
      apply Hkeep; [exact Hin | congruence].
Qed.

Lemma orderly_frame (ids : list Z) (used : list promise) (c c' : conn) :
  srv_responseHandlers (c_server c') = srv_responseHandlers (c_server c) ->
  c_settled c' = c_settled c ->
  c_timers c' = c_timers c ->
  orderly ids used c -> orderly ids used c'.
Proof.
  intros Hh Hs Ht [O1 O2 O3 O4 O5].
  constructor; rewrite ?Hh, ?Ht; intros;
    rewrite ?(settlements_same _ _ _ Hs); eauto.
Qed.

Lemma step_orderly (ids : list Z) (used : list promise) (c : conn) (i : input) :
  coherent used c ->
  orderly ids used c ->
  (forall p, In p (sent_promises [i]) -> ~ In p used) ->
  (forall id, In id (sent_ids [i]) -> ~ In id ids) ->
  orderly (sent_ids [i] ++ ids) (sent_promises [i] ++ used) (step c i).
Proof.
  intros Hc Ho Hfresh Hnew.
  pose proof Hc as [Hcat1 Hcat2 Hcat3 Hcat4 Hcat5]. pose proof Ho as [O1 O2 O3 O4 O5].
  destruct i as [p message now | message | p id | code signal | ]; cbn [step].
  - (* sendCommand *)
    assert (Hp : ~ In p used) by (apply Hfresh; now left).
    assert (Hid : ~ In (message_id message now) ids) by (apply Hnew; now left).
    cbn [sent_promises sent_ids app]. unfold sendCommand.
    destruct (sendCommand_refused (c_server c)).
    + assert (Hmore : forall p0, settlements p0 (settle_promise p (Rejected (NotConnected (srv_id (c_server c)))) c) =
                 settlements p0 c ++ (if Nat.eqb p p0 then [Rejected (NotConnected (srv_id (c_server c)))] else []))
        by (intros; now apply settlements_more).
      constructor; cbn [c_timers c_server settle_promise].
      * exact O1.
      * intros p0 id0 Ht. right. eauto.
      * intros p0 id0 Ht Hgone. rewrite Hmore. apply grown_nonempty. eauto.
      * intros p0. rewrite Hmore. destruct (Nat.eqb p p0) eqn:E.
        -- apply Nat.eqb_eq in E. subst p0.
           rewrite settlements_none; [cbn; lia|]. intros o Hin. apply Hp. eauto.
        -- rewrite app_nil_r. apply O4.
      * intros p0 [<- | Hused]; rewrite Hmore.
        -- right. rewrite Nat.eqb_refl. destruct (settlements p c); discriminate.
        -- destruct (O5 p0 Hused) as [Harmed | Hset]; [now left | right; now apply grown_nonempty].
    + set (id := message_id message now) in *.
      assert (Hold : forall id0 q, In (id0, q) (srv_responseHandlers (c_server c)) -> id0 <> id).
      { intros id0 q Hin ->. apply Hid. eapply O2. eapply Hcat1. exact Hin. }
      constructor; cbn [c_timers c_server store_handler srv_responseHandlers with_responseHandlers].
      * intros p0 id0 q Ht Hin.
        apply in_snoc in Ht as [Ht | Ht];
          apply in_set in Hin as [Heq | Hin].
        -- exfalso. apply Hid. injection Heq as -> _. eauto.
        -- eauto.
        -- congruence.
        -- exfalso. injection Ht as _ ->. now apply (Hold id q).
      * intros p0 id0 Ht. apply in_snoc in Ht as [Ht | [= -> ->]];
          [right; eauto | now left].
      * intros p0 id0 Ht Hgone. settled_unchanged p0.
        apply in_snoc in Ht as [Ht | [= -> ->]].
        -- apply (O3 p0 id0 Ht). rewrite has_set_other in Hgone; [exact Hgone|].
           intros <-. apply Hid. eauto.
        -- unfold JsMap.has in Hgone. now rewrite JsMapFacts.get_set_same in Hgone.
      * intros p0. settled_unchanged p0. apply O4.
      * intros p0 [<- | Hused].
        -- left. rewrite map_app. apply in_or_app. right. now left.
        -- settled_unchanged p0.
           destruct (O5 p0 Hused) as [Harmed | Hset]; [left | now right].
           rewrite map_app. apply in_or_app. now left.
  - (* handleJSONRPCMessage *)
    cbn [sent_promises sent_ids app]. unfold handleJSONRPCMessage.
    destruct (truthy_id message) as [id|];
      [|apply (orderly_frame (c := c)); auto].
    destruct (JsMap.has (srv_responseHandlers (c_server c)) id);
      [|apply (orderly_frame (c := c)); auto].
    destruct (JsMap.get (srv_responseHandlers (c_server c)) id) as [q|] eqn:Hget; [|exact Ho].
    apply JsMapFacts.get_in in Hget.
    destruct (msg_error message); unfold settle_promise, with_server; cbn;
      apply orderly_settle; auto.
  - (* timer *)
    cbn [sent_promises sent_ids app]. unfold timer_fires.
    destruct (existsb (timer_eqb (p, id)) (c_timers c)) eqn:Harmed; [|exact Ho].
    apply existsb_armed in Harmed.
    destruct (JsMap.has (srv_responseHandlers (c_server c)) id) eqn:Hhas.
    + destruct (has_in _ _ Hhas) as [q Hq].
      assert (q = p) by (apply (O1 p id q); auto). subst q.
      unfold settle_promise, with_server; cbn. apply orderly_settle; auto.
      * intros x. apply disarm_incl.
      * intros x Hin Hne. now apply in_disarm.
    + constructor; cbn [c_timers c_server].
      * intros p0 id0 q Ht Hin. apply disarm_incl in Ht. eauto.
      * intros p0 id0 Ht. apply disarm_incl in Ht. eauto.
      * intros p0 id0 Ht Hgone. apply disarm_incl in Ht.
        settled_unchanged p0. eauto.
      * intros p0. settled_unchanged p0. apply O4.
      * intros p0 Hused. settled_unchanged p0.
        destruct (O5 p0 Hused) as [Harmed0 | Hset]; [|now right].
        apply in_map_iff in Harmed0 as [[p1 id1] [Hfst Hin]]. cbn in Hfst. subst p1.
        destruct (Nat.eq_dec p0 p) as [-> | Hne].
        -- right. destruct (Z.eq_dec id1 id) as [-> | Hid].
           ++ now apply (O3 p id).
           ++ exfalso. apply Hid. exact (armed_once _ _ _ _ Hcat2 Hin Harmed).
        -- left. apply in_map_iff. exists (p0, id1). split; [reflexivity|].
           apply in_disarm; [exact Hin | congruence].
  - cbn [sent_promises sent_ids app]. apply (orderly_frame (c := c)); auto.
  - cbn [sent_promises sent_ids app]. apply (orderly_frame (c := c)); auto.
Qed.

Lemma nodup_app_apart {A : Type} (l1 l2 : list A) (a : A) :
  NoDup (l1 ++ l2) -> In a l1 -> ~ In a l2.
Proof.
  induction l1 as [|x r IH]; cbn; [tauto|].
  intros Hnd [-> | Hin] Hin2; inversion Hnd as [|? ? Hnotin Hnd']; subst.
  - apply Hnotin. apply in_or_app. now right.
  - exact (IH Hnd' Hin Hin2).
Qed.

Lemma untouched_orderly (c : conn) : untouched c -> orderly [] [] c.
Proof.
  intros (Hh & Hs & Ht).
  constructor; unfold settlements; rewrite ?Hh, ?Hs, ?Ht; cbn; try tauto. lia.
Qed.

Lemma steps_orderly (l : list input) (ids : list Z) (used : list promise) (c : conn) :
  coherent used c ->
  orderly ids used c ->
  NoDup (sent_promises l) ->
  (forall p, In p (sent_promises l) -> ~ In p used) ->
  NoDup (sent_ids l) ->
  (forall id, In id (sent_ids l) -> ~ In id ids) ->
  exists ids' used',
    orderly ids' used' (steps c l) /\
    (forall p, In p used \/ In p (sent_promises l) -> In p used').
Proof.
  revert ids used c.
  induction l as [|i r IH]; intros ids used c Hc Ho Hnd Hfresh Hndi Hnew.
  - exists ids, used. split; [exact Ho | intros p [Hin | []]; exact Hin].
  - assert (Hp : sent_promises (i :: r) = sent_promises [i] ++ sent_promises r)
      by (destruct i; reflexivity).
    assert (Hi : sent_ids (i :: r) = sent_ids [i] ++ sent_ids r)
      by (destruct i; reflexivity).
    rewrite Hp in Hnd, Hfresh. rewrite Hi in Hndi, Hnew.
    assert (Hc' : coherent (sent_promises [i] ++ used) (step c i)).
    { apply step_coherent; [exact Hc|]. intros p Hin. apply Hfresh. apply in_or_app. now left. }
    assert (Ho' : orderly (sent_ids [i] ++ ids) (sent_promises [i] ++ used) (step c i)).
    { apply step_orderly; auto.
      - intros p Hin. apply Hfresh. apply in_or_app. now left.
      - intros id Hin. apply Hnew. apply in_or_app. now left. }
    assert (Hnd_r : NoDup (sent_promises r)) by exact (NoDup_app_remove_l _ _ Hnd).
    assert (Hndi_r : NoDup (sent_ids r)) by exact (NoDup_app_remove_l _ _ Hndi).
    assert (Hfresh_r : forall p, In p (sent_promises r) -> ~ In p (sent_promises [i] ++ used)).
    { intros p Hin Hused. apply in_app_or in Hused as [Hused | Hused].
      - exact (@nodup_app_apart _ _ _ p Hnd Hused Hin).
      - apply (Hfresh p); [apply in_or_app; now right | exact Hused]. }
    assert (Hnew_r : forall id, In id (sent_ids r) -> ~ In id (sent_ids [i] ++ ids)).
    { intros id Hin Hused. apply in_app_or in Hused as [Hused | Hused].
      - exact (@nodup_app_apart _ _ _ id Hndi Hused Hin).
      - apply (Hnew id); [apply in_or_app; now right | exact Hused]. }
    destruct (IH _ _ _ Hc' Ho' Hnd_r Hfresh_r Hndi_r Hnew_r) as (ids' & used' & Hfinal & Hall).
    exists ids', used'. split; [exact Hfinal|].
    intros p [Hin | Hin]; apply Hall.
    + left. apply in_or_app. now right.
    + rewrite Hp in Hin.
      apply in_app_or in Hin as [Hin | Hin]; [left; apply in_or_app; now left | now right].
Qed.

(** X4: on a connection that started untouched and whose [sendCommand]s
    carry pairwise distinct ids and promises of their own, whatever
    messages, timers, exits and errors come in between, every promise is
    resolved or rejected at most once; and a promise that a [sendCommand]
    created has been resolved or rejected exactly once as soon as no timer
    is armed for it any more. *)
Theorem distinct_ids_settle_once (c0 : conn) (l : list input) (p : promise) :
  untouched c0 ->
  NoDup (sent_promises l) ->
  NoDup (sent_ids l) ->
  length (settlements p (steps c0 l)) <= 1 /\
  (In p (sent_promises l) ->
   ~ In p (map fst (c_timers (steps c0 l))) ->
   length (settlements p (steps c0 l)) = 1).
Proof.
  intros Hfresh Hnd Hndi.
  destruct (@steps_orderly l [] [] c0) as (ids & used & Ho & Hall); auto.
  - now apply untouched_coherent.
  - now apply untouched_orderly.
  - pose proof (ord_once Ho p) as Hle. split; [exact Hle|].
    intros Hsent Hidle.
    destruct (ord_done Ho p) as [Harmed | Hset]; [apply Hall; now right | contradiction |].
    destruct (settlements p (steps c0 l)); [congruence | cbn in *; lia].
Qed.

Lemma distinct_ids_settle_once_witness :
  let l := [InSend 7 (call_request 1000 "echo" "{}") 1000;
            InSend 8 (call_request 1001 "echo" "{}") 1001;
            InMessage (Scenario.reply 1001);
            InTimer 7 1000;
            InMessage (Scenario.reply 1000);
            InTimer 8 1001] in
  settlements 7 (steps Scenario.fresh_conn l) = [Rejected (CommandTimeout 300)] /\
  length (settlements 8 (steps Scenario.fresh_conn l)) = 1.
Proof.
  cbn zeta. split; [reflexivity|].
  apply distinct_ids_settle_once.
  - repeat split.
  - repeat constructor; cbn; intuition congruence.
  - repeat constructor; cbn; intuition congruence.
  - cbn. tauto.
  - vm_compute. tauto.
Defined.

(** *** A connection that is not connected *)

(** X5: on a connection whose server is not connected (after the exit of
    the child, or before the handshake has ended) nothing is sent any
    more: whatever comes in, nothing is written to the child, no timer is
    armed and no entry is stored, the server stays unconnected, and the
    promise of every [sendCommand] is rejected with the not-connected
    error of this server. *)
Theorem unconnected_refuses_every_send (c : conn) (l : list input) :
  srv_connected (c_server c) = false ->
  let c' := steps c l in
  srv_connected (c_server c') = false /\
  c_stdin c' = c_stdin c /\
  (forall x, In x (c_timers c') -> In x (c_timers c)) /\
  (forall x, In x (srv_responseHandlers (c_server c')) ->
             In x (srv_responseHandlers (c_server c))) /\
  (forall p message now,
      In (InSend p message now) l ->
      In (p, Rejected (NotConnected (srv_id (c_server c)))) (c_settled c')).
Proof.
  cbn zeta. revert c. induction l as [|i r IH]; intros c Hoff.
  - repeat split; auto. intros p message now [].
  - destruct (step_stays_disconnected c i Hoff) as (Hoff' & Hin' & Ht' & Hh').
    destruct (IH (step c i) Hoff') as (H1 & H2 & H3 & H4 & H5).
    change (steps c (i :: r)) with (steps (step c i) r).
    split; [exact H1|]. split; [congruence|]. split; [auto|]. split; [auto|].
    intros p message now [-> | Hin].
    + apply steps_keep_settled. cbn [step]. unfold sendCommand, sendCommand_refused.
      rewrite Hoff, orb_true_r. cbn. apply in_or_app. right. now left.
    + rewrite <- (step_srv_id c i). eauto.
Qed.

Lemma unconnected_refuses_every_send_witness :
  let c := process_exit (Some 1%Z) None
             (sendCommand 7 (call_request 1000 "echo" "{}") 1000 Scenario.fresh_conn) in
  let l := [InSend 8 (call_request 1001 "echo" "{}") 1001; InTimer 7 1000;
            InSend 9 (call_request 1002 "echo" "{}") 1002] in
  c_stdin (steps c l) = c_stdin c /\
  In (9, Rejected (NotConnected "beta")) (c_settled (steps c l)).
Proof.
  cbn zeta.
  pose proof (@unconnected_refuses_every_send
                (process_exit (Some 1%Z) None
                   (sendCommand 7 (call_request 1000 "echo" "{}") 1000 Scenario.fresh_conn))
                [InSend 8 (call_request 1001 "echo" "{}") 1001; InTimer 7 1000;
                 InSend 9 (call_request 1002 "echo" "{}") 1002]
                eq_refl) as (_ & Hstdin & _ & _ & Hsends).
  split; [exact Hstdin|].
  apply (Hsends 9 (call_request 1002 "echo" "{}") 1002%Z). right. right. now left.
Defined.

End SettlementFacts.

(** ** The manager: shutdown and restart *)

Lemma nth_list_update_any {A : Type} (l : list A) (n k : nat) (f : A -> A) (d : A) :
  f d = d ->
  nth n (list_update l k f) d = if Nat.eqb n k then f (nth n l d) else nth n l d.
Proof.
  intros Hd. revert n k. induction l as [|x l IH]; intros n k; cbn.
  - destruct n; destruct (Nat.eqb _ k); auto.
  - destruct k as [|k], n as [|n]; cbn; auto.
Qed.

Lemma nth_fold_update {A : Type} (f : A -> A) (d : A) (l : list (string * ref))
      (h : list A) (r : ref) :
  f d = d ->
  (forall x, f (f x) = f x) ->
  nth r (fold_left (fun h entry => list_update h (snd entry) f) l h) d =
  if existsb (Nat.eqb r) (map snd l) then f (nth r h d) else nth r h d.
Proof.
  intros Hd Hff. revert h. induction l as [|[k r'] l IH]; intros h; cbn; [reflexivity|].
  rewrite IH, nth_list_update_any by exact Hd.
  destruct (Nat.eqb r r'); cbn; [|reflexivity].
  rewrite Hff. now destruct (existsb (Nat.eqb r) (map snd l)).
Qed.

Lemma existsb_eqb_in (r : ref) (l : list ref) : existsb (Nat.eqb r) l = true <-> In r l.
Proof.
  rewrite existsb_exists. split.
  - intros [x [Hin Heq]]. apply Nat.eqb_eq in Heq. now subst.
  - intros Hin. exists r. split; [exact Hin | apply Nat.eqb_refl].
Qed.

Lemma length_list_update {A : Type} (l : list A) (n : nat) (f : A -> A) :
  length (list_update l n f) = length l.
Proof. revert n. induction l as [|x l IH]; intros [|n]; cbn; auto. Qed.

Lemma length_fold_update {A : Type} (f : A -> A) (l : list (string * ref)) (h : list A) :
  length (fold_left (fun h entry => list_update h (snd entry) f) l h) = length h.
Proof.
  revert h. induction l as [|e l IH]; intros h; cbn; [reflexivity|].
  now rewrite IH, length_list_update.
Qed.

(** The server objects after [shutdown]. *)
Lemma shutdown_deref (env : oracle) (a : ambient) (m : manager) (r : ref) :
  deref (final (run env a (shutdown m))) r =
  if existsb (Nat.eqb r) (map snd (servers m))
  then with_connected false (deref m r) else deref m r.
Proof.
  rewrite shutdown_run. unfold deref. cbn [final heap].
  apply nth_fold_update; [reflexivity | intros x; reflexivity].
Qed.

Lemma shutdown_clears_connected (env : oracle) (a : ambient) (m : manager)
      (k : string) (r : ref) :
  In (k, r) (servers m) -> srv_connected (deref (final (run env a (shutdown m))) r) = false.
Proof.
  intros Hin. rewrite shutdown_deref.
  assert (Hex : existsb (Nat.eqb r) (map snd (servers m)) = true).
  { apply existsb_eqb_in. change r with (snd (k, r)). now apply in_map. }
  rewrite Hex. reflexivity.
Qed.

(** X6: [shutdown] completes without awaiting anything and without an
    event; it empties the four maps and clears [isInitialized]; every
    server object that was in the map has [connected] cleared and is
    otherwise as it was (its pending table is kept: no pending call is
    rejected); the objects that were not in the map are untouched; and a
    second [shutdown] changes nothing. *)
Theorem shutdown_disconnects (env : oracle) (a : ambient) (m : manager) :
  let o := run env a (shutdown m) in
  let down := final o in
  result o = Normal tt /\ trace o = [] /\
  servers down = [] /\ catalog down = ([], [], []) /\
  isInitialized down = false /\ emitted down = emitted m /\
  (forall k r, In (k, r) (servers m) -> srv_connected (deref down r) = false) /\
  (forall r, with_connected false (deref down r) = with_connected false (deref m r)) /\
  (forall r, ~ In r (map snd (servers m)) -> deref down r = deref m r) /\
  final (run env a (shutdown down)) = down.
Proof.
  cbn zeta.
  split; [now rewrite shutdown_run|]. split; [now rewrite shutdown_run|].
  split; [now rewrite shutdown_run|]. split; [now rewrite shutdown_run|].
  split; [now rewrite shutdown_run|]. split; [now rewrite shutdown_run|].
  split; [|split; [|split]].
  - intros k r Hin. now apply (shutdown_clears_connected env a m k).
  - intros r. rewrite shutdown_deref.
    now destruct (existsb (Nat.eqb r) (map snd (servers m))).
  - intros r Hnotin. rewrite shutdown_deref.
    destruct (existsb (Nat.eqb r) (map snd (servers m))) eqn:Hex; [|reflexivity].
    apply existsb_eqb_in in Hex. contradiction.
  - rewrite !shutdown_run. reflexivity.
Qed.

(** The loop of [initialize] on any manager: no attempt throws, and the
    objects already in the store stay where they are. *)
Lemma connect_loop_total (env : oracle) (l : list (string * server_config))
      (a : ambient) (m : manager) :
  let o := run env a (for_each l
              (fun entry => try_catch (connectToServer (fst entry) (snd entry))
                                      (fun _ => ret tt)) m) in
  result o = Normal tt /\
  isInitialized (final o) = isInitialized m /\
  emitted (final o) = emitted m /\
  exists extra, heap (final o) = heap m ++ extra.
Proof.
  revert a m. induction l as [|[id cfg] l IH]; intros a m; cbn zeta.
  - cbn. do 3 (split; [reflexivity|]). exists []. now rewrite app_nil_r.
  - cbn [for_each]. rewrite run_bind. cbn [fst snd].
    destruct (connect_attempt env a m id cfg)
      as (Hres & Hinit & Hemit & [extra Hheap] & _ & _).
    cbn zeta in Hres, Hinit, Hemit, Hheap.
    set (o1 := run env a (try_catch (connectToServer id cfg) (fun _ => ret tt) m)) in *.
    cbn zeta. rewrite Hres.
    destruct (IH (after o1) (final o1)) as (Hres2 & Hinit2 & Hemit2 & [extra2 Hheap2]).
    cbn zeta in Hres2, Hinit2, Hemit2, Hheap2. cbn [result final].
    split; [exact Hres2|]. split; [congruence|]. split; [congruence|].
    exists (extra ++ extra2). now rewrite Hheap2, Hheap, app_assoc.
Qed.

Lemma initialize_run (env : oracle) (a : ambient) (m : manager) :
  run env a (initialize m) =
  if isInitialized m then
    {| final := m; result := Normal tt; trace := []; after := a |}
  else
    let o := run env a (for_each (serverConfigs m)
                (fun entry => try_catch (connectToServer (fst entry) (snd entry))
                                        (fun _ => ret tt)) m) in
    {| final := with_emitted (emitted (final o) ++ [EvInitialized])
                             (with_isInitialized true (final o));
       result := Normal tt; trace := trace o; after := after o |}.
Proof.
  unfold initialize. rewrite run_bind. cbn [this run result final after trace]. cbn zeta.
  cbn [result final after trace].
  destruct (isInitialized m); [reflexivity|].
  rewrite run_bind.
  destruct (connect_loop_total env (serverConfigs m) a m) as (Hres & _).
  cbn zeta in Hres. cbn zeta. rewrite Hres.
  unfold emit, bind, modify. cbn [bind_async run final result trace after].
  now rewrite !app_nil_r.
Qed.

(** X7: [initialize] never throws, whatever the configuration and
    whatever the servers answer: it completes with [isInitialized] set and
    one ['initialized'] event more; and on a manager that is initialized
    it returns at once, awaiting nothing and changing nothing, so that a
    second [initialize] is without effect. *)
Theorem initialize_completes_once (env : oracle) (a a' : ambient) (m : manager) :
  let o := run env a (initialize m) in
  result o = Normal tt /\
  isInitialized (final o) = true /\
  (isInitialized m = true -> final o = m /\ trace o = []) /\
  (isInitialized m = false -> emitted (final o) = emitted m ++ [EvInitialized]) /\
  run env a' (initialize (final o)) =
    {| final := final o; result := Normal tt; trace := []; after := a' |}.
Proof.
  cbn zeta.
  assert (Hdone : isInitialized (final (run env a (initialize m))) = true).
  { rewrite initialize_run. destruct (isInitialized m) eqn:E; [exact E | reflexivity]. }
  split; [|split; [exact Hdone|split; [|split]]].
  - rewrite initialize_run. now destruct (isInitialized m).
  - intros Hinit. rewrite initialize_run, Hinit. now split.
  - intros Hinit. rewrite initialize_run, Hinit. cbn zeta. cbn [final emitted with_emitted].
    destruct (connect_loop_total env (serverConfigs m) a m) as (_ & _ & Hemit & _).
    cbn zeta in Hemit. cbn. now rewrite Hemit.
  - rewrite (initialize_run env a' (final (run env a (initialize m)))), Hdone. reflexivity.
Qed.

(** [initialize] on a manager that holds no server and is not yet
    initialized. *)
Lemma initialize_from_idle (env : oracle) (a : ambient) (m : manager) :
  isInitialized m = false ->
  servers m = [] ->
  NoDup (map fst (serverConfigs m)) ->
  let o := run env a (initialize m) in
  JsMap.keys (servers (final o)) = map fst (filter (connects env) (serverConfigs m)) /\
  all_connected (final o) /\
  (exists extra, heap (final o) = heap m ++ extra) /\
  (forall entry, In entry (serverConfigs m) -> is_sse (snd entry) = true ->
                 In (fst entry, initialize_request) (requests o)).
Proof.
  intros Hinit Hservers Hnd. cbn zeta. rewrite initialize_run, Hinit. cbn zeta.
  assert (Hempty : all_connected m) by (intros k r Hin; rewrite Hservers in Hin; destruct Hin).
  assert (Hfresh : forall id, In id (map fst (serverConfigs m)) -> JsMap.get (servers m) id = None)
    by (intros id _; now rewrite Hservers).
  destruct (@connect_loop env (serverConfigs m) a m Hempty Hnd Hfresh)
    as (_ & _ & _ & Hgood & Hkeys & Hreq & _).
  destruct (connect_loop_total env (serverConfigs m) a m) as (_ & _ & _ & Hheap).
  cbn zeta in Hgood, Hkeys, Hreq, Hheap.
  rewrite Hservers in Hkeys. cbn [JsMap.keys map app] in Hkeys.
  split; [exact Hkeys|]. split; [exact Hgood|]. split; [exact Hheap|]. exact Hreq.
Qed.

(** X8: the manager can be restarted.  [initialize] after [shutdown]
    goes through the configuration again: the map then holds the servers
    that connect now, in configured order, each one connected and a new
    object; an object that [shutdown] took out of the map stays
    disconnected and is not put back. *)
Theorem restart_reconnects (env : oracle) (a a' : ambient) (m : manager) :
  NoDup (map fst (serverConfigs m)) ->
  let down := final (run env a (shutdown m)) in
  let o := run env a' (initialize down) in
  result o = Normal tt /\
  isInitialized (final o) = true /\
  emitted (final o) = emitted m ++ [EvInitialized] /\
  JsMap.keys (servers (final o)) = map fst (filter (connects env) (serverConfigs m)) /\
  all_connected (final o) /\
  (forall k r, In (k, r) (servers m) -> r < length (heap m) ->
               srv_connected (deref (final o) r) = false /\
               ~ In r (map snd (servers (final o)))).
Proof.
  intros Hnd. cbn zeta.
  assert (Hdown : servers (final (run env a (shutdown m))) = [] /\
                  isInitialized (final (run env a (shutdown m))) = false /\
                  emitted (final (run env a (shutdown m))) = emitted m /\
                  serverConfigs (final (run env a (shutdown m))) = serverConfigs m /\
                  length (heap (final (run env a (shutdown m)))) = length (heap m)).
  { rewrite shutdown_run. cbn [final servers isInitialized emitted serverConfigs heap].
    repeat split. apply length_fold_update. }
  destruct Hdown as (Hservers & Hinit & Hemit & Hcfg & Hlen).
  pose proof (shutdown_clears_connected env a m) as Hoff.
  set (down := final (run env a (shutdown m))) in *.
  destruct (@initialize_from_idle env a' down Hinit Hservers)
    as (Hkeys & Hgood & [extra Hheap] & _); [now rewrite Hcfg|].
  cbn zeta in Hkeys, Hgood, Hheap.
  split; [rewrite initialize_run, Hinit; reflexivity|].
  split; [rewrite initialize_run, Hinit; reflexivity|].
  split.
  { rewrite initialize_run, Hinit. cbn zeta. cbn [final emitted with_emitted].
    destruct (connect_loop_total env (serverConfigs down) a' down) as (_ & _ & Hsame & _).
    cbn zeta in Hsame. cbn. now rewrite Hsame, Hemit. }
  split; [now rewrite Hkeys, Hcfg|]. split; [exact Hgood|].
  intros k r Hin Hlt.
  assert (Hsame : deref (final (run env a' (initialize down))) r = deref down r).
  { unfold deref. rewrite Hheap. apply app_nth1. now rewrite Hlen. }
  assert (Hfalse : srv_connected (deref (final (run env a' (initialize down))) r) = false)
    by (rewrite Hsame; now apply (Hoff k r)).
  split; [exact Hfalse|].
  intros Hback. apply in_map_iff in Hback as [[k' r'] [Heq Hin']]. cbn in Heq. subst r'.
  destruct (Hgood k' r Hin') as (_ & Hon & _). congruence.
Qed.

Lemma restart_reconnects_witness :
  let m := final Scenario.started in
  let down := final (run Scenario.upstream (after Scenario.started) (shutdown m)) in
  let o := run Scenario.upstream (after Scenario.started) (initialize down) in
  JsMap.keys (servers (final o)) = ["beta"; "delta"] /\
  isInitialized (final o) = true.
Proof.
  cbn zeta.
  assert (Hnd : NoDup (map fst (serverConfigs (final Scenario.started)))).
  { vm_compute. repeat constructor; cbn; intuition discriminate. }
  destruct (restart_reconnects Scenario.upstream (after Scenario.started)
              (after Scenario.started) (final Scenario.started) Hnd)
    as (_ & Hdone & _ & Hkeys & _).
  split; [exact Hkeys | exact Hdone].
Defined.

(** ** The manager: how the registries are keyed *)

Lemma in_set_entry {V : Type} (m : list (string * V)) (id k : string) (p q : V) :
  In (k, q) (JsMap.set m id p) -> (k, q) = (id, p) \/ In (k, q) m.
Proof.
  induction m as [|[k0 v0] r IH]; simpl.
  - intros [Heq | []]. now left.
  - destruct (String.eqb k0 id); simpl.
    + intros [Heq | Hin]; [now left | right; now right].
    + intros [Heq | Hin]; [right; now left |].
      destruct (IH Hin) as [Heq | Hin']; [now left | right; now right].
Qed.

Lemma fold_set_in {D V : Type} (key : D -> string) (val : D -> V) (l : list D)
      (reg : list (string * V)) (k : string) (v : V) :
  In (k, v) (fold_left (fun acc d => JsMap.set acc (key d) (val d)) l reg) ->
  In (k, v) reg \/ exists d, In d l /\ k = key d /\ v = val d.
Proof.
  revert reg. induction l as [|d l IH]; intros reg Hin; cbn in Hin; [now left|].
  destruct (IH _ Hin) as [Hset | (d' & Hd' & Hk & Hv)].
  - apply in_set_entry in Hset as [[= -> ->] | Hold]; [|now left].
    right. exists d. split; [now left | now split].
  - right. exists d'. split; [now right | now split].
Qed.

Lemma fold_set_wf {D V : Type} (key : D -> string) (val : D -> V) (l : list D)
      (reg : list (string * V)) :
  JsMap.wf reg -> JsMap.wf (fold_left (fun acc d => JsMap.set acc (key d) (val d)) l reg).
Proof.
  revert reg. induction l as [|d l IH]; intros reg Hwf; cbn; [exact Hwf|].
  apply IH. now apply JsMapFacts.wf_set.
Qed.

Lemma has_set_grows {V : Type} (m : list (string * V)) (id k : string) (v : V) :
  JsMap.has m k = true -> JsMap.has (JsMap.set m id v) k = true.
Proof.
  intros Hhas. unfold JsMap.has. destruct (String.eqb id k) eqn:E.
  - apply String.eqb_eq in E. subst. now rewrite JsMapFacts.get_set_same.
  - apply String.eqb_neq in E. now rewrite JsMapFacts.get_set_other.
Qed.

Lemma keyed_same (m m' : manager) :
  servers m' = servers m -> catalog m' = catalog m ->
  keyed_by_servers m -> keyed_by_servers m'.
Proof.
  unfold catalog, keyed_by_servers. intros Hs [= Ht Hr Hp]. now rewrite Hs, Ht, Hr, Hp.
Qed.

Lemma keyed_set_server (m : manager) (serverId : string) (r : ref) :
  keyed_by_servers m ->
  keyed_by_servers (with_servers (JsMap.set (servers m) serverId r) m).
Proof.
  intros (W1 & W2 & W3 & K1 & K2 & K3).
  unfold keyed_by_servers. cbn [with_servers servers tools resources prompts].
  do 3 (split; [assumption|]).
  split; [|split]; intros k e Hin;
    [destruct (K1 k e Hin) as (s & Hs & Hk) | destruct (K2 k e Hin) as (s & Hs & Hk)
     | destruct (K3 k e Hin) as (s & Hs & Hk)];
    exists s; (split; [now apply has_set_grows | exact Hk]).
Qed.

Lemma registered_keyed (serverId : string) (m m' : manager)
      (l1 : list tool_decl) (l2 : list resource_decl) (l3 : list prompt_decl) :
  catalog m' = (register_tools serverId l1 (tools m),
                register_resources serverId l2 (resources m),
                register_prompts serverId l3 (prompts m)) ->
  servers m' = servers m ->
  JsMap.has (servers m) serverId = true ->
  keyed_by_servers m -> keyed_by_servers m'.
Proof.
  unfold catalog, keyed_by_servers. intros [= -> -> ->] -> Hs (W1 & W2 & W3 & K1 & K2 & K3).
  unfold register_tools, register_resources, register_prompts.
  do 3 (split; [now apply fold_set_wf|]).
  split; [|split]; intros k e Hin;
    (apply fold_set_in in Hin as [Hold | (x & _ & -> & ->)];
     [auto | exists serverId; split; [exact Hs | reflexivity]]).
Qed.

Lemma discovery_keyed (env : oracle) (a : ambient) (m : manager) (serverId : string) (r : ref) :
  srv_type (deref m r) = SSE ->
  JsMap.has (servers m) serverId = true ->
  keyed_by_servers m ->
  keyed_by_servers (final (run env a (initializeServerCapabilities serverId r m))).
Proof.
  intros Htype Hs Hk. rewrite discovery_sse_run by exact Htype. cbn zeta.
  set (target := srv_id (deref m r)).
  set (o1 := answer env target (tools_request (clock a))).
  set (a1 := tick env a target (tools_request (clock a))).
  set (o2 := answer env target (resources_request (clock a1))).
  set (a2 := tick env a1 target (resources_request (clock a1))).
  set (o3 := answer env target (prompts_request (clock a2))).
  destruct (registered_catalog serverId o1 o2 o3 m)
    as (Hcat1 & Hcat2 & Hcat3 & (_ & S1 & _) & (_ & S2 & _) & (_ & S3 & _)).
  cbn zeta in Hcat1, Hcat2, Hcat3, S1, S2, S3.
  destruct (stops tools_member o1); [|destruct (stops resources_member o2)]; cbn [final].
  - exact (@registered_keyed serverId m _ _ [] [] Hcat1 S1 Hs Hk).
  - exact (@registered_keyed serverId m _ _ _ [] Hcat2 S2 Hs Hk).
  - exact (@registered_keyed serverId m _ _ _ _ Hcat3 S3 Hs Hk).
Qed.

Lemma connect_attempt_keyed (env : oracle) (a : ambient) (m : manager)
      (serverId : string) (config : server_config) :
  keyed_by_servers m ->
  keyed_by_servers
    (final (run env a (try_catch (connectToServer serverId config) (fun _ => ret tt) m))).
Proof.
  intros Hk.
  rewrite run_try_catch. unfold connectToServer. rewrite run_bind.
  destruct (is_sse config) eqn:Hsse.
  - rewrite createSSEConnection_run. cbn zeta.
    destruct (answer env serverId initialize_request) as [response| |e];
      cbn [result final trace after andb].
    + rewrite run_bind, run_modify. cbn [result final trace after]. cbn zeta.
      match goal with
      | |- context [run env ?a1 (initializeServerCapabilities serverId ?r ?m1)] =>
          assert (Htype : srv_type (deref m1 r) = SSE)
            by (unfold deref; cbn; now rewrite nth_middle);
          assert (Hkeyed : keyed_by_servers
                             (final (run env a1 (initializeServerCapabilities serverId r m1))));
          [ apply discovery_keyed;
            [ exact Htype
            | cbn [with_servers servers with_heap]; unfold JsMap.has;
              now rewrite JsMapFacts.get_set_same
            | apply (keyed_same (m := with_servers (JsMap.set (servers m) serverId r) m));
              [reflexivity | reflexivity | now apply keyed_set_server] ]
          | destruct (discovery_sse_frame env a1 m1 serverId r Htype) as (Hres & _);
            destruct (run env a1 (initializeServerCapabilities serverId r m1))
              as [mf rf tf af] ]
      end.
      cbn in Hres. subst rf. cbn [result final trace after app]. exact Hkeyed.
    + cbn. eapply keyed_same; [| |exact Hk]; reflexivity.
    + cbn. eapply keyed_same; [| |exact Hk]; reflexivity.
  - destruct (truthy (cfg_command config)).
    + rewrite createCommandConnection_run. cbn. eapply keyed_same; [| |exact Hk]; reflexivity.
    + cbn. exact Hk.
Qed.

Lemma connect_loop_keyed (env : oracle) (l : list (string * server_config))
      (a : ambient) (m : manager) :
  keyed_by_servers m ->
  keyed_by_servers
    (final (run env a (for_each l
              (fun entry => try_catch (connectToServer (fst entry) (snd entry))
                                      (fun _ => ret tt)) m))).
Proof.
  revert a m. induction l as [|[id cfg] l IH]; intros a m Hk; [exact Hk|].
  cbn [for_each]. rewrite run_bind. cbn [fst snd].
  destruct (connect_attempt env a m id cfg) as (Hres & _).
  pose proof (connect_attempt_keyed env a id cfg Hk) as Hk1.
  cbn zeta in Hres.
  set (o1 := run env a (try_catch (connectToServer id cfg) (fun _ => ret tt) m)) in *.
  cbn zeta. rewrite Hres. cbn [final]. now apply IH.
Qed.

Lemma initialize_keyed (env : oracle) (a : ambient) (m : manager) :
  keyed_by_servers m -> keyed_by_servers (final (run env a (initialize m))).
Proof.
  intros Hk. rewrite initialize_run. destruct (isInitialized m); [exact Hk|].
  cbn zeta. cbn [final].
  eapply keyed_same; [| |apply (connect_loop_keyed env (serverConfigs m) a Hk)]; reflexivity.
Qed.

Lemma new_manager_keyed (configured : list (string * server_config)) :
  keyed_by_servers (new_manager configured).
Proof.
  unfold keyed_by_servers. cbn. repeat split; try constructor; intros k e [].
Qed.

(** X9: [initialize] keeps the registries keyed by server: if each of the
    three maps holds one entry per key and every key is the id of a server
    of the [servers] map, a slash and the entry's name (uri, for a
    resource), then so it is afterwards, whatever the servers answer.  So
    the ids that [getAvailableTools] and [getAvailableResources] report
    are pairwise distinct, and each is the id of a server of the map, a
    slash, and the reported name (uri). *)
Theorem initialize_keeps_catalog_keyed (env : oracle) (a : ambient) (m : manager) :
  keyed_by_servers m ->
  let after_init := final (run env a (initialize m)) in
  keyed_by_servers after_init /\
  NoDup (map tv_id (getAvailableTools after_init)) /\
  NoDup (map rv_id (getAvailableResources after_init)) /\
  (forall v, In v (getAvailableTools after_init) ->
     exists s, JsMap.has (servers after_init) s = true /\ tv_id v = qualified s (tv_name v)) /\
  (forall v, In v (getAvailableResources after_init) ->
     exists s, JsMap.has (servers after_init) s = true /\ rv_id v = qualified s (rv_uri v)).
Proof.
  intros Hk. cbn zeta.
  assert (Hafter : keyed_by_servers (final (run env a (initialize m))))
    by now apply initialize_keyed.
  split; [exact Hafter|].
  destruct Hafter as (W1 & W2 & _ & K1 & K2 & _).
  set (mf := final (run env a (initialize m))) in *.
  unfold getAvailableTools, getAvailableResources.
  rewrite !map_map. cbn [tv_id rv_id].
  split; [exact W1|]. split; [exact W2|]. split.
  - intros v Hin. apply in_map_iff in Hin as [[k e] [<- Hin]]. cbn. now apply K1.
  - intros v Hin. apply in_map_iff in Hin as [[k e] [<- Hin]]. cbn. now apply K2.
Qed.

Lemma initialize_keeps_catalog_keyed_witness :
  NoDup (map tv_id (getAvailableTools (final Scenario.started))) /\
  keyed_by_servers (final Scenario.started).
Proof.
  pose proof (new_manager_keyed Scenario.configured) as Hk.
  destruct (initialize_keeps_catalog_keyed Scenario.upstream Scenario.boot Hk)
    as (Hkeyed & Hnd & _).
  split; [exact Hnd | exact Hkeyed].
Defined.

(** ** getServerStatus *)

Lemma prefix_spec (a k : string) :
  String.prefix a k = true <-> exists t, k = (a ++ t)%string.
Proof.
  revert k. induction a as [|c a IH]; intros k.
  - split; [intros _; now exists k | now destruct k].
  - destruct k as [|d k]; cbn.
    + split; [discriminate | intros [t Ht]; discriminate].
    + destruct (ascii_dec c d) as [-> | Hne].
      * rewrite IH. split; intros [t Ht]; exists t; [now rewrite Ht | now injection Ht].
      * split; [discriminate | intros [t Ht]; congruence].
Qed.

Lemma append_split (a t s u : string) :
  (a ++ t)%string = (s ++ u)%string ->
  (exists w, s = (a ++ w)%string /\ t = (w ++ u)%string) \/
  (exists w, a = (s ++ w)%string /\ u = (w ++ t)%string).
Proof.
  revert s. induction a as [|c a IH]; intros s Heq; cbn in Heq.
  - left. exists s. now split.
  - destruct s as [|d s]; cbn in Heq.
    + right. exists (String c a). now split.
    + injection Heq as -> Heq. destruct (IH _ Heq) as [(w & -> & ->) | (w & -> & ->)].
      * left. now exists w.
      * right. now exists w.
Qed.

Lemma filter_length_le {A : Type} (p q : A -> bool) (l : list A) :
  (forall x, In x l -> p x = true -> q x = true) ->
  length (filter p l) <= length (filter q l).
Proof.
  induction l as [|x l IH]; intros Himp; cbn; [lia|].
  assert (IH' : length (filter p l) <= length (filter q l))
    by (apply IH; intros y Hy; apply Himp; now right).
  destruct (p x) eqn:Ep.
  - rewrite (Himp x (or_introl eq_refl) Ep). cbn. lia.
  - destruct (q x); cbn; lia.
Qed.

Lemma filter_length_lt {A : Type} (p q : A -> bool) (l : list A) (x : A) :
  (forall y, In y l -> p y = true -> q y = true) ->
  In x l -> q x = true -> p x = false ->
  length (filter p l) < length (filter q l).
Proof.
  induction l as [|y l IH]; intros Himp Hin Hq Hp; [destruct Hin|].
  assert (Hle : length (filter p l) <= length (filter q l))
    by (apply filter_length_le; intros z Hz; apply Himp; now right).
  cbn. destruct Hin as [-> | Hin].
  - rewrite Hq, Hp. cbn. lia.
  - assert (Hlt : length (filter p l) < length (filter q l))
      by (apply IH; auto; intros z Hz; apply Himp; now right).
    destruct (p y) eqn:Ep.
    + rewrite (Himp y (or_introl eq_refl) Ep). cbn. lia.
    + destruct (q y); cbn; lia.
Qed.

Lemma own_prefix (a k : string) :
  startsWith k (a ++ "/") = true -> startsWith k a = true.
Proof.
  unfold startsWith. rewrite !prefix_spec. intros [t ->].
  exists ("/" ++ t)%string. now rewrite FramingFacts.append_assoc.
Qed.

(** Among keys that discovery made, under an id without a slash that
    begins no other id, the prefix test finds the keys of this id. *)
Lemma prefix_test_exact (a s name : string) :
  (forall x y, a <> (x ++ "/" ++ y)%string) ->
  (startsWith s a = true -> s = a) ->
  startsWith (qualified s name) a = startsWith (qualified s name) (a ++ "/").
Proof.
  intros Hslash Honly.
  destruct (startsWith (qualified s name) (a ++ "/")) eqn:Eown;
    [now apply own_prefix|].
  destruct (startsWith (qualified s name) a) eqn:Ea; [|reflexivity].
  exfalso. unfold startsWith, qualified in *.
  apply prefix_spec in Ea as [t Ht]. symmetry in Ht.
  assert (Hs : s = a).
  { apply append_split in Ht as [(w & Hs & _) | (w & Ha & Hu)].
    - apply Honly. apply prefix_spec. now exists w.
    - destruct w as [|c w]; [now rewrite FramingFacts.append_nil_r in Ha|].
      cbn in Hu. injection Hu as <- _. exfalso. now apply (Hslash s w). }
  subst s. assert (Htrue : String.prefix (a ++ "/") (a ++ "/" ++ name) = true).
  { apply prefix_spec. exists name. now rewrite FramingFacts.append_assoc. }
  congruence.
Qed.

Lemma count_by_prefix_exact {V : Type} (name : V -> string) (a : string)
      (has_server : string -> Prop) (reg : list (string * V)) :
  (forall k e, In (k, e) reg -> exists s, has_server s /\ k = qualified s (name e)) ->
  (forall x y, a <> (x ++ "/" ++ y)%string) ->
  (forall s, has_server s -> startsWith s a = true -> s = a) ->
  filter (fun k => startsWith k a) (JsMap.keys reg) =
  filter (fun k => startsWith k (a ++ "/")) (JsMap.keys reg).
Proof.
  intros Hkeyed Hslash Honly. apply filter_ext_in. intros k Hin.
  apply in_map_iff in Hin as [[k' e] [Hfst Hin]]. cbn in Hfst. subst k'.
  destruct (Hkeyed k e Hin) as (s & Hs & ->).
  apply prefix_test_exact; [exact Hslash | now apply Honly].
Qed.

(** X10: [getServerStatus] counts by prefix.  The [toolCount] reported
    for a server is at least the number of keys that begin with its id
    and a slash; it is more as soon as the registry holds a key [b/name]
    such that [b] begins with this id and the key does not begin with this
    id and a slash; and on registries keyed by server it is exactly that
    number, and so is [resourceCount], when the id holds no slash and
    begins no other id of the [servers] map. *)
Theorem server_status_counts_by_prefix (m : manager) (a : string) (st : server_status) :
  In (a, st) (getServerStatus m) ->
  let own := fun k => startsWith k (a ++ "/") in
  length (filter own (JsMap.keys (tools m))) <= st_toolCount st /\
  (forall b name,
      startsWith b a = true ->
      In (qualified b name) (JsMap.keys (tools m)) ->
      own (qualified b name) = false ->
      length (filter own (JsMap.keys (tools m))) < st_toolCount st) /\
  (keyed_by_servers m ->
   (forall x y, a <> (x ++ "/" ++ y)%string) ->
   (forall s, JsMap.has (servers m) s = true -> startsWith s a = true -> s = a) ->
   st_toolCount st = length (filter own (JsMap.keys (tools m))) /\
   st_resourceCount st = length (filter own (JsMap.keys (resources m)))).
Proof.
  intros Hin. cbn zeta. unfold getServerStatus in Hin.
  apply in_map_iff in Hin as [[a' r] [[= -> <-] Hin]]. cbn [st_toolCount st_resourceCount fst].
  split; [|split].
  - apply filter_length_le. intros k _. apply own_prefix.
  - intros b name Hb Hkey Hown.
    apply filter_length_lt with (x := qualified b name); auto.
    + intros k _. apply own_prefix.
    + unfold startsWith, qualified in *. apply prefix_spec in Hb as [t ->].
      apply prefix_spec. exists (t ++ "/" ++ name)%string.
      now rewrite FramingFacts.append_assoc.
  - intros (_ & _ & _ & K1 & K2 & _) Hslash Honly. split.
    + now rewrite (count_by_prefix_exact te_name (fun s => JsMap.has (servers m) s = true)
                     (tools m) K1 Hslash Honly).
    + now rewrite (count_by_prefix_exact re_uri (fun s => JsMap.has (servers m) s = true)
                     (resources m) K2 Hslash Honly).
Qed.

Lemma server_status_counts_by_prefix_witness :
  JsMap.keys (tools Scenario.namesakes) = ["fs/echo"; "fs-extra/echo"] /\
  exists st, JsMap.get (getServerStatus Scenario.namesakes) "fs" = Some st /\
             1 < st_toolCount st.
Proof.
  split; [vm_compute; reflexivity|].
  eexists. split; [vm_compute; reflexivity|].
  eapply (server_status_counts_by_prefix Scenario.namesakes "fs");
    [vm_compute; left; reflexivity | | |];
    [exact (eq_refl : startsWith "fs-extra" "fs" = true) | vm_compute; auto | vm_compute; reflexivity].
Defined.

(** ** Qualified keys *)

(** Ids without a slash: the key determines the server and the name. *)
Lemma qualified_apart (s s' name name' : string) :
  (forall x y, s <> (x ++ "/" ++ y)%string) ->
  (forall x y, s' <> (x ++ "/" ++ y)%string) ->
  qualified s name = qualified s' name' -> s = s' /\ name = name'.
Proof.
  intros Hs Hs' Heq. unfold qualified in Heq.
  assert (Hid : s = s').
  { apply append_split in Heq as [(w & Hw & Hrest) | (w & Hw & Hrest)];
      (destruct w as [|c w]; [now rewrite FramingFacts.append_nil_r in Hw|]);
      cbn in Hrest; injection Hrest as <- _; exfalso.
    - now apply (Hs' s w).
    - now apply (Hs s' w). }
  subst s'. split; [reflexivity | now apply (qualified_inj s)].
Qed.

(** X11: which registrations can overwrite each other.  Between two
    different server ids without a slash, never: discovery of one server
    leaves every key of the other as it was.  With a slash in an id they
    can: the tool [c] of the server [a/b] takes the key of the tool [b/c]
    of the server [a], so that this key then holds the entry of [a/b] and
    the registry has no key more than before. *)
Theorem registration_overwrites_only_across_slashes :
  (forall (s s' name : string) (l : list tool_decl) (reg : list (string * tool_entry)),
      (forall x y, s <> (x ++ "/" ++ y)%string) ->
      (forall x y, s' <> (x ++ "/" ++ y)%string) ->
      s <> s' ->
      JsMap.get (register_tools s' l reg) (qualified s name) =
      JsMap.get reg (qualified s name)) /\
  (forall (a b c : string) (t1 t2 : tool_decl) (reg : list (string * tool_entry)),
      td_name t1 = (b ++ "/" ++ c)%string ->
      td_name t2 = c ->
      let before := register_tools a [t1] reg in
      let after_both := register_tools (a ++ "/" ++ b) [t2] before in
      JsMap.get before (qualified a (td_name t1)) = Some (tool_entry_of a t1) /\
      JsMap.get after_both (qualified a (td_name t1)) =
        Some (tool_entry_of (a ++ "/" ++ b) t2) /\
      JsMap.keys after_both = JsMap.keys before).
Proof.
  split.
  - intros s s' name l reg Hs Hs' Hne. apply register_tools_other.
    intros tool _ Heq. apply qualified_apart in Heq as [Heq _]; auto.
  - intros a b c t1 t2 reg H1 H2. cbn zeta. unfold register_tools. cbn [fold_left].
    assert (Hkey : qualified (a ++ "/" ++ b) (td_name t2) = qualified a (td_name t1)).
    { unfold qualified. rewrite H1, H2.
      now rewrite !FramingFacts.append_assoc. }
    rewrite Hkey. split; [apply JsMapFacts.get_set_same|].
    split; [apply JsMapFacts.get_set_same|].
    apply JsMapFacts.keys_set_present. now rewrite JsMapFacts.get_set_same.
Qed.

(** X12: what the look-up of [callTool] can find on registries keyed by
    server.  The entry found is registered under the key of a server [s]
    of the map and its own name, and the name asked for is that key, or
    the entry's name, or the end of the entry's name after a slash, or
    the end of the id [s] after a slash followed by a slash and the
    entry's name. *)
Theorem callTool_lookup_finds (m : manager) (toolName : string) (tool : tool_entry) :
  keyed_by_servers m ->
  find_tool (tools m) toolName = Some tool ->
  exists s,
    JsMap.has (servers m) s = true /\
    In (qualified s (te_name tool), tool) (tools m) /\
    (toolName = qualified s (te_name tool) \/
     te_name tool = toolName \/
     (exists x, te_name tool = (x ++ "/" ++ toolName)%string) \/
     (exists x y, s = (x ++ "/" ++ y)%string /\ toolName = qualified y (te_name tool))).
Proof.
  intros (_ & _ & _ & K1 & _) Hfind. unfold find_tool in Hfind.
  destruct (JsMap.get (tools m) toolName) as [found|] eqn:Hget.
  - injection Hfind as ->. apply JsMapFacts.get_in in Hget.
    destruct (K1 _ _ Hget) as (s & Hs & Hk). exists s.
    split; [exact Hs|]. split; [now rewrite <- Hk | now left].
  - destruct (find (fun kv => endsWith (fst kv) ("/" ++ toolName)) (tools m))
      as [[k e]|] eqn:Hf; [|discriminate].
    injection Hfind as <-. apply find_some in Hf as [Hin Hends]. cbn [fst snd] in *.
    destruct (K1 _ _ Hin) as (s & Hs & Hk). exists s.
    split; [exact Hs|]. split; [now rewrite <- Hk|]. right.
    apply endsWith_spec in Hends as [front Hfront]. rewrite Hk in Hfront.
    unfold qualified in Hfront. symmetry in Hfront.
    apply append_split in Hfront as [(w & Hw & Hrest) | (w & Hw & Hrest)].
    + destruct w as [|ch w]; cbn in Hrest.
      * injection Hrest as ->. now left.
      * injection Hrest as <- ->. right. right. exists front, w.
        split; [exact Hw | reflexivity].
    + destruct w as [|ch w]; cbn in Hrest.
      * injection Hrest as ->. now left.
      * injection Hrest as <- ->. right. left. now exists w.
Qed.

Lemma callTool_lookup_finds_witness :
  exists s,
    JsMap.has (servers (final Scenario.started)) s = true /\
    In (qualified s "echo", tool_entry_of "beta" Scenario.echo)
       (tools (final Scenario.started)).
Proof.
  pose proof (initialize_keyed Scenario.upstream Scenario.boot
                (new_manager_keyed Scenario.configured)) as Hk.
  assert (Hfind : find_tool (tools (final (run Scenario.upstream Scenario.boot
                                             (initialize (new_manager Scenario.configured)))))
                            "echo" = Some (tool_entry_of "beta" Scenario.echo))
    by (vm_compute; reflexivity).
  destruct (callTool_lookup_finds _ Hk Hfind) as (s & Hs & Hin & _).
  exists s. split; [exact Hs | exact Hin].
Defined.

(** ** MCPIntegration: the flattened registry *)

Lemma fold_set_has {D V : Type} (key : D -> string) (val : D -> V) (l : list D)
      (reg : list (string * V)) (k : string) :
  JsMap.has reg k = true \/ (exists d, In d l /\ key d = k) ->
  JsMap.has (fold_left (fun acc d => JsMap.set acc (key d) (val d)) l reg) k = true.
Proof.
  revert reg. induction l as [|d l IH]; intros reg [Hhas | (d' & Hin & Hk)]; cbn.
  - exact Hhas.
  - destruct Hin.
  - apply IH. left. now apply has_set_grows.
  - destruct Hin as [-> | Hin].
    + apply IH. left. subst k. unfold JsMap.has. now rewrite JsMapFacts.get_set_same.
    + apply IH. right. now exists d'.
Qed.

Lemma fold_set_length {D V : Type} (key : D -> string) (val : D -> V) (l : list D)
      (reg : list (string * V)) :
  length (fold_left (fun acc d => JsMap.set acc (key d) (val d)) l reg)
    <= length reg + length l.
Proof.
  revert reg. induction l as [|d l IH]; intros reg; cbn; [lia|].
  specialize (IH (JsMap.set reg (key d) (val d))).
  assert (Hset : length (JsMap.set reg (key d) (val d)) <= S (length reg)).
  { destruct (JsMap.get reg (key d)) eqn:E.
    - assert (Hk : JsMap.keys (JsMap.set reg (key d) (val d)) = JsMap.keys reg)
        by (apply JsMapFacts.keys_set_present; congruence).
      apply (f_equal (@length string)) in Hk. unfold JsMap.keys in Hk.
      rewrite !length_map in Hk. lia.
    - rewrite JsMapFacts.keys_set_absent by exact E. rewrite length_app. cbn. lia. }
  lia.
Qed.

Lemma flatten_entry (reg : list (string * tool_entry)) (name : string) (t : agent_tool) :
  In (name, t) (flatten reg) ->
  at_name t = name /\
  exists tool, In (at_toolKey t, tool) reg /\ t = agent_tool_of (at_toolKey t) tool.
Proof.
  intros Hin. unfold flatten in Hin.
  apply (fold_set_in (fun kv => te_name (snd kv))
                     (fun kv => agent_tool_of (fst kv) (snd kv))) in Hin
    as [[] | ([k e] & Hd & -> & ->)].
  cbn. split; [reflexivity|]. exists e. now split.
Qed.

Lemma flatten_wf (reg : list (string * tool_entry)) : JsMap.wf (flatten reg).
Proof. unfold flatten. apply fold_set_wf. constructor. Qed.

(** X13: [registerTools] rebuilds the registry from the manager's tools
    alone, one descriptor per bare name: the names it holds are pairwise
    distinct and are exactly the names of the manager's tools, each
    descriptor is filed under its own name and carries the key and the
    fields of one entry of the manager, and there are at most as many
    descriptors as entries. *)
Theorem registerTools_one_per_name (i : integration) (m : manager) :
  mcpManager i = Some m ->
  let registered := registerTools i in
  toolRegistry registered = flatten (tools m) /\
  NoDup (getToolNames registered) /\
  (forall name, hasToolCachin registered name = true <->
                exists key tool, In (key, tool) (tools m) /\ te_name tool = name) /\
  (forall name t, In (name, t) (toolRegistry registered) ->
                  at_name t = name /\
                  exists tool, In (at_toolKey t, tool) (tools m) /\
                               t = agent_tool_of (at_toolKey t) tool) /\
  length (getToolNames registered) <= length (tools m).
Proof.
  intros Hm. cbn zeta. unfold registerTools, getToolNames, hasToolCachin. rewrite Hm.
  cbn [toolRegistry with_toolRegistry].
  split; [reflexivity|]. split; [apply flatten_wf|]. split; [|split].
  - intros name. split.
    + intros Hhas. unfold JsMap.has in Hhas.
      destruct (JsMap.get (flatten (tools m)) name) as [t|] eqn:Ht; [|discriminate].
      apply JsMapFacts.get_in in Ht. apply flatten_entry in Ht as [Hname (tool & Hin & Heq)].
      exists (at_toolKey t), tool. split; [exact Hin|].
      rewrite <- Hname, Heq. reflexivity.
    + intros (key & tool & Hin & <-). unfold flatten.
      apply (fold_set_has (fun kv => te_name (snd kv))). right. now exists (key, tool).
  - intros name t. apply flatten_entry.
  - unfold JsMap.keys. rewrite length_map. unfold flatten.
    apply (fold_set_length (fun kv => te_name (snd kv))
                           (fun kv => agent_tool_of (fst kv) (snd kv)) (tools m) []).
Qed.

Lemma registerTools_one_per_name_witness :
  let i := {| mcpManager := Some (final Scenario.started); int_isInitialized := false;
              toolRegistry := [] |} in
  getToolNames (registerTools i) = ["echo"] /\
  length (getToolNames (registerTools i)) <= length (tools (final Scenario.started)).
Proof.
  cbn zeta. split; [vm_compute; reflexivity|].
  apply (@registerTools_one_per_name
           {| mcpManager := Some (final Scenario.started); int_isInitialized := false;
              toolRegistry := [] |} (final Scenario.started) eq_refl).
Defined.

(** X14: [getHighPriorityTools] sees a bare name through the entry that
    [registerTools] kept for it, the last one registered: that entry's
    descriptor is listed if and only if its server is one of the six
    high-priority servers, and no other descriptor of this name is ever
    listed, so a tool of a high-priority server is left out when a later
    server that is not one of the six has a tool of the same name. *)
Theorem high_priority_follows_last_registered
    (i : integration) (m : manager)
    (before : list (string * tool_entry)) (key : string) (tool : tool_entry)
    (rest : list (string * tool_entry)) :
  mcpManager i = Some m ->
  tools m = before ++ (key, tool) :: rest ->
  (forall kv, In kv rest -> te_name (snd kv) <> te_name tool) ->
  let listed := getHighPriorityTools (registerTools i) in
  (In (agent_tool_of key tool) listed <->
   includes highPriorityServers (te_serverId tool) = true) /\
  (forall t, In t listed -> at_name t = te_name tool -> t = agent_tool_of key tool) /\
  (includes highPriorityServers (te_serverId tool) = false ->
   forall t, In t listed -> at_name t <> te_name tool).
Proof.
  intros Hm Hsplit Hrest. cbn zeta.
  unfold getHighPriorityTools, registerTools. rewrite Hm.
  cbn [toolRegistry with_toolRegistry].
  assert (Hlast : JsMap.get (flatten (tools m)) (te_name tool) = Some (agent_tool_of key tool))
    by (eapply flatten_last; [exact Hsplit | exact Hrest]).
  assert (Hsame : forall t, In t (map snd (filter (fun entry =>
                      includes highPriorityServers (at_server (snd entry)))
                      (flatten (tools m)))) ->
                    at_name t = te_name tool -> t = agent_tool_of key tool).
  { intros t Hin Hname. apply in_map_iff in Hin as [[name t'] [Heq Hin]].
    cbn in Heq. subst t'. apply filter_In in Hin as [Hin _].
    pose proof (flatten_entry _ _ _ Hin) as [Hn _].
    apply JsMapFacts.in_get in Hin; [|apply flatten_wf].
    rewrite <- Hn, Hname, Hlast in Hin. now injection Hin. }
  split; [|split].
  - split.
    + intros Hin. apply in_map_iff in Hin as [[name t] [Heq Hin]]. cbn in Heq. subst t.
      apply filter_In in Hin as [_ Hprio]. exact Hprio.
    + intros Hprio. apply in_map_iff. exists (te_name tool, agent_tool_of key tool).
      split; [reflexivity|]. apply filter_In. split; [|exact Hprio].
      now apply JsMapFacts.get_in.
  - exact Hsame.
  - intros Hlow t Hin Hname. pose proof (Hsame t Hin Hname) as ->.
    apply in_map_iff in Hin as [[name t] [Heq Hin]]. cbn in Heq. subst t.
    apply filter_In in Hin as [_ Hprio]. cbn [snd at_server agent_tool_of] in Hprio.
    congruence.
Qed.

Lemma high_priority_follows_last_registered_witness :
  let first := tool_entry_of "filesystem" Scenario.echo in
  let second := tool_entry_of "zeta" Scenario.echo in
  let m := with_tools [("filesystem/echo", first); ("zeta/echo", second)]
                      (new_manager []) in
  let i := with_manager (Some m) new_integration in
  includes highPriorityServers (te_serverId first) = true /\
  getHighPriorityTools (registerTools i) = [] /\
  ~ In (agent_tool_of "zeta/echo" second) (getHighPriorityTools (registerTools i)).
Proof.
  cbn zeta. split; [reflexivity|]. split; [vm_compute; reflexivity|].
  intros Hin.
  destruct (@high_priority_follows_last_registered
           (with_manager
              (Some (with_tools [("filesystem/echo", tool_entry_of "filesystem" Scenario.echo);
                                 ("zeta/echo", tool_entry_of "zeta" Scenario.echo)]
                                (new_manager [])))
              new_integration)
           (with_tools [("filesystem/echo", tool_entry_of "filesystem" Scenario.echo);
                        ("zeta/echo", tool_entry_of "zeta" Scenario.echo)]
                       (new_manager []))
           [("filesystem/echo", tool_entry_of "filesystem" Scenario.echo)]
           "zeta/echo" (tool_entry_of "zeta" Scenario.echo) []
           eq_refl eq_refl (fun kv (H : In kv []) => match H with end)) as ([Hlisted _] & _).
  apply Hlisted in Hin. discriminate Hin.
Defined.

(** ** MCPIntegration: refresh, shutdown and start *)

(** X15: after ['mcp-refresh'] on an initialized integration the
    descriptors are stale.  The handler reports success and the statistics
    show an initialized integration with no server, no tool and no
    resource; every descriptor that was registered is still found by
    [getTool], and executing it fails at once with the not-found error
    for its qualified key, as does every ['mcp-call-tool'], no request
    being sent. *)
Theorem refresh_leaves_stale_descriptors
    (h : host) (env : oracle) (a a' : ambient) (i : integration) (m : manager)
    (toolName args : string) (t : agent_tool) :
  mcpManager i = Some m ->
  int_isInitialized i = true ->
  getTool i toolName = Some t ->
  let refreshed := fst (mcp_refresh h env a i) in
  snd (mcp_refresh h env a i) = true /\
  mcp_get_stats refreshed =
    {| stats_initialized := true; stats_serverCount := 0; stats_toolCount := 0;
       stats_resourceCount := 0; stats_serverStatus := Some [] |} /\
  getTool refreshed toolName = Some t /\
  exists down,
    mcpManager refreshed = Some down /\
    run env a' (executeTool refreshed toolName args down) =
      {| final := down; result := Thrown (ToolNotFound (at_toolKey t));
         trace := []; after := a' |} /\
    (forall name, exists task,
        mcp_call_tool refreshed name args = Some task /\
        run env a' (task down) =
          {| final := down; result := Thrown (ToolNotFound name);
             trace := []; after := a' |}).
Proof.
  intros Hm Hinit Hget. cbn zeta.
  destruct (refresh_of_initialized h env a i Hm Hinit) as (Heq & _ & _).
  rewrite Heq. cbn [fst snd]. rewrite shutdown_run. cbn [final].
  split; [reflexivity|]. split.
  { unfold mcp_get_stats. cbn. now rewrite Hinit. }
  split; [exact Hget|].
  eexists. split; [reflexivity|]. split.
  - unfold executeTool. unfold getTool in *. cbn [toolRegistry with_manager].
    rewrite Hget. now apply callTool_not_found.
  - intros name. exists (callTool name args). split; [reflexivity|].
    now apply callTool_not_found.
Qed.

Lemma refresh_leaves_stale_descriptors_witness :
  let i := fst (integration_initialize Scenario.desktop Scenario.upstream Scenario.boot
                                       new_integration) in
  let refreshed := fst (mcp_refresh Scenario.desktop Scenario.upstream Scenario.boot i) in
  stats_toolCount (mcp_get_stats i) = 2 /\
  stats_toolCount (mcp_get_stats refreshed) = 0 /\
  getTool refreshed "echo" = Some (agent_tool_of "delta/echo" (tool_entry_of "delta" Scenario.echo)).
Proof.
  cbn zeta. split; [vm_compute; reflexivity|].
  assert (Hm : mcpManager (fst (integration_initialize Scenario.desktop Scenario.upstream
                                  Scenario.boot new_integration)) =
               Some (final Scenario.started))
    by (vm_compute; reflexivity).
  assert (Hinit : int_isInitialized (fst (integration_initialize Scenario.desktop
                     Scenario.upstream Scenario.boot new_integration)) = true)
    by (vm_compute; reflexivity).
  assert (Hget : getTool (fst (integration_initialize Scenario.desktop Scenario.upstream
                                 Scenario.boot new_integration)) "echo" =
                 Some (agent_tool_of "delta/echo" (tool_entry_of "delta" Scenario.echo)))
    by (vm_compute; reflexivity).
  destruct (@refresh_leaves_stale_descriptors Scenario.desktop Scenario.upstream
              Scenario.boot Scenario.boot _ _ "echo" "{}" _ Hm Hinit Hget)
    as (_ & Hstats & Hstill & _).
  split; [now rewrite Hstats | exact Hstill].
Defined.

(** X16: the integration starts from its configuration, once per
    process.  On an integration that is not initialized, [initialize]
    fails with the configuration-file error and changes nothing when the
    file cannot be loaded.  When the file is loaded and the IPC channels
    have no handler yet, [initialize] (every request of the manager
    settling) completes, holds the manager that [initialize] of a new
    manager for this configuration leaves, is initialized, and its
    registry is the flattened tools registry of that manager; and the
    channels have their handlers from then on.  [MCPIntegration.shutdown]
    brings the integration back to the state of a new one; but
    [initialize] after it, in the same process, gets to
    [setupIPCHandlers], where [ipcMain.handle] throws: it fails, and
    leaves a new manager that was never initialized and an empty
    registry. *)
Theorem integration_starts_once_per_process
    (h : host) (env : oracle) (a a' a'' : ambient) (i : integration)
    (configured : list (string * server_config)) :
  int_isInitialized i = false ->
  config_file h = Some configured ->
  ipc_accepts h = true ->
  let started := final (run env a (initialize (new_manager configured))) in
  let first := integration_initialize h env a i in
  let h' := host_after_initialize h i in
  first = ({| mcpManager := Some started; int_isInitialized := true;
              toolRegistry := flatten (tools started) |}, Normal tt) /\
  config_file h' = Some configured /\
  ipc_accepts h' = false /\
  integration_shutdown env a' (fst first) = (new_integration, Normal tt) /\
  integration_initialize h' env a'' (fst (integration_shutdown env a' (fst first))) =
    ({| mcpManager := Some (new_manager configured); int_isInitialized := false;
        toolRegistry := [] |}, Thrown IpcHandlerError) /\
  (forall h0, config_file h0 = None ->
     integration_initialize h0 env a i = (i, Thrown ConfigFileError) /\
     host_after_initialize h0 i = h0).
Proof.
  intros Hinit Hfile Hipc. cbn zeta.
  assert (Hfirst : integration_initialize h env a i =
            ({| mcpManager := Some (final (run env a (initialize (new_manager configured))));
                int_isInitialized := true;
                toolRegistry := flatten (tools (final (run env a
                                   (initialize (new_manager configured))))) |}, Normal tt)).
  { unfold integration_initialize. rewrite Hinit, Hfile, Hipc. cbn [negb]. cbn zeta.
    rewrite (initialize_run env a (new_manager configured)).
    cbn [new_manager isInitialized result final]. cbn zeta. cbn [result final].
    reflexivity. }
  rewrite Hfirst. cbn [fst].
  assert (Hdown : forall j, integration_shutdown env a' j = (new_integration, Normal tt)).
  { intros j. unfold integration_shutdown. destruct (mcpManager j) as [m|] eqn:Hm.
    - rewrite shutdown_run. reflexivity.
    - unfold with_int_isInitialized, with_toolRegistry. cbn. now rewrite Hm. }
  rewrite Hdown. cbn [fst].
  unfold host_after_initialize. rewrite Hinit, Hfile. cbn [config_file ipc_accepts].
  split; [reflexivity|]. split; [reflexivity|]. split; [reflexivity|].
  split; [reflexivity|]. split.
  - unfold integration_initialize. cbn. reflexivity.
  - intros h0 Hnone. unfold integration_initialize. rewrite Hinit, Hnone. now split.
Qed.

Lemma integration_starts_once_per_process_witness :
  let first := integration_initialize Scenario.desktop Scenario.upstream Scenario.boot
                                      new_integration in
  let h' := host_after_initialize Scenario.desktop new_integration in
  getToolNames (fst first) = ["echo"] /\
  snd (integration_initialize h' Scenario.upstream Scenario.boot
         (fst (integration_shutdown Scenario.upstream Scenario.boot (fst first)))) =
    Thrown IpcHandlerError.
Proof.
  cbn zeta.
  destruct (@integration_starts_once_per_process Scenario.desktop Scenario.upstream
              Scenario.boot Scenario.boot Scenario.boot new_integration Scenario.configured
              eq_refl eq_refl eq_refl) as (Hfirst & _ & _ & _ & Hsecond & _).
  rewrite Hsecond. split; [|reflexivity].
  rewrite Hfirst. vm_compute. reflexivity.
Defined.

(** ** ResponseCache *)

Module CacheFacts.
Import Cache.

Lemma with_files_same (c : cache) : with_files (files c) c = c.
Proof. now destruct c. Qed.

(** [delete] on a cache that is enabled and whose directory is writable. *)
Lemma delete_run (key : string) (c : cache) :
  enabled c = true ->
  writable c = true ->
  delete key c =
  {| enabled := true; ttl := ttl c; maxSize := maxSize c;
     index := JsMap.delete (index c) key;
     files := JsMap.delete (files c) key;
     index_file := Some (JsMap.delete (index c) key);
     writable := true |}.
Proof.
  intros He Hw. unfold delete, saveIndex, with_index_file, with_index, with_files.
  cbn [enabled writable index files ttl maxSize index_file].
  rewrite He, Hw. cbn [negb].
  destruct (JsMap.has (files c) key) eqn:Hfile; [reflexivity|].
  now rewrite (JsMapFacts.delete_absent (files c) key) by exact Hfile.
Qed.

Lemma evict_frame (entries : list (string * index_entry)) (totalSize freed : Z) (c : cache) :
  enabled c = true ->
  writable c = true ->
  enabled (evict entries totalSize freed c) = true /\
  writable (evict entries totalSize freed c) = true /\
  ttl (evict entries totalSize freed c) = ttl c /\
  maxSize (evict entries totalSize freed c) = maxSize c.
Proof.
  revert freed c. induction entries as [|[key entry] rest IH]; intros freed c He Hw; cbn [evict].
  - auto.
  - cbn zeta. rewrite (@delete_run key c He Hw).
    destruct (5 * (totalSize - (freed + size entry)) <? 4 * maxSize c)%Z; [cbn; auto|].
    match goal with |- context [evict rest totalSize ?f ?c1] =>
      destruct (IH f c1 eq_refl eq_refl) as (H1 & H2 & H3 & H4) end.
    cbn in H3, H4. auto.
Qed.

Lemma evictIfNeeded_frame (c : cache) :
  enabled c = true ->
  writable c = true ->
  enabled (_evictIfNeeded c) = true /\
  writable (_evictIfNeeded c) = true /\
  ttl (_evictIfNeeded c) = ttl c /\
  maxSize (_evictIfNeeded c) = maxSize c.
Proof.
  intros He Hw. unfold _evictIfNeeded. cbn zeta.
  destruct (total (index c) <? maxSize c)%Z; [auto | now apply evict_frame].
Qed.

(** *** Eviction *)

Lemma total_from (x : list (string * index_entry)) (z : Z) :
  fold_left (fun sum entry => (sum + size (snd entry))%Z) x z = (z + total x)%Z.
Proof.
  unfold total. revert z. induction x as [|e x IH]; intros z; cbn [fold_left]; [lia|].
  rewrite (IH (z + size (snd e))%Z), (IH (0 + size (snd e))%Z). lia.
Qed.

Lemma total_cons (e : string * index_entry) (x : list (string * index_entry)) :
  total (e :: x) = (size (snd e) + total x)%Z.
Proof. unfold total at 1. cbn [fold_left]. rewrite total_from. lia. Qed.

Lemma in_delete_iff {V : Type} (m : list (string * V)) (key : string) (x : string * V) :
  In x (JsMap.delete m key) <-> In x m /\ fst x <> key.
Proof.
  split; [apply JsMapFacts.in_delete|].
  intros [Hin Hne]. unfold JsMap.delete. apply filter_In. split; [exact Hin|].
  cbn. now rewrite (proj2 (String.eqb_neq _ _) Hne).
Qed.

Lemma wf_delete {V : Type} (m : list (string * V)) (key : string) :
  JsMap.wf m -> JsMap.wf (JsMap.delete m key).
Proof.
  unfold JsMap.wf, JsMap.keys, JsMap.delete.
  induction m as [|[k v] m IH]; cbn; [auto|].
  intros Hnd. inversion Hnd as [|? ? Hnotin Hnd']; subst.
  destruct (negb (String.eqb k key)); [|auto].
  cbn. constructor; [|auto].
  intros Hin. apply Hnotin. apply in_map_iff in Hin as [x [Hfst Hin]].
  apply filter_In in Hin as [Hin _]. apply in_map_iff. now exists x.
Qed.

Lemma wf_same_key {V : Type} (m : list (string * V)) (x y : string * V) :
  JsMap.wf m -> In x m -> In y m -> fst x = fst y -> x = y.
Proof.
  intros Hwf Hx Hy Hk. destruct x as [k v], y as [k' v']. cbn in Hk. subst k'.
  apply JsMapFacts.in_get in Hx; [|exact Hwf].
  apply JsMapFacts.in_get in Hy; [|exact Hwf]. congruence.
Qed.

Lemma delete_cons {V : Type} (k : string) (v : V) (m : list (string * V)) (key : string) :
  JsMap.delete ((k, v) :: m) key =
  if String.eqb k key then JsMap.delete m key else (k, v) :: JsMap.delete m key.
Proof. unfold JsMap.delete. cbn. now destruct (String.eqb k key). Qed.

Lemma total_delete (x : list (string * index_entry)) (key : string) (entry : index_entry) :
  JsMap.wf x -> In (key, entry) x ->
  total (JsMap.delete x key) = (total x - size entry)%Z.
Proof.
  unfold JsMap.wf, JsMap.keys.
  induction x as [|[k e] x IH]; intros Hnd Hin; [destruct Hin|].
  cbn in Hnd. inversion Hnd as [|? ? Hnotin Hnd']; subst.
  rewrite delete_cons, total_cons. cbn [snd].
  destruct (String.eqb k key) eqn:E.
  - apply String.eqb_eq in E. subst k.
    destruct Hin as [Heq | Hin].
    + injection Heq as ->. rewrite JsMapFacts.delete_absent; [lia|].
      unfold JsMap.has. destruct (JsMap.get x key) as [e'|] eqn:G; [|reflexivity].
      apply JsMapFacts.get_in in G. exfalso. apply Hnotin.
      change key with (fst (key, e')). now apply in_map.
    + exfalso. apply Hnotin. change key with (fst (key, entry)). now apply in_map.
  - destruct Hin as [Heq | Hin].
    + injection Heq as -> _. now rewrite String.eqb_refl in E.
    + rewrite total_cons. cbn [snd]. rewrite (IH Hnd' Hin). lia.
Qed.

Lemma insert_perm (x : string * index_entry) (l : list (string * index_entry)) :
  Permutation (insert x l) (x :: l).
Proof.
  induction l as [|y r IH]; cbn; [apply Permutation_refl|].
  destruct (timestamp (snd x) <=? timestamp (snd y))%Z; [apply Permutation_refl|].
  eapply Permutation_trans; [apply perm_skip, IH | apply perm_swap].
Qed.

Lemma sort_perm (l : list (string * index_entry)) : Permutation (sort l) l.
Proof.
  induction l as [|x l IH]; cbn; [apply Permutation_refl|].
  eapply Permutation_trans; [apply insert_perm | now apply perm_skip].
Qed.

Lemma insert_sorted (x : string * index_entry) (l : list (string * index_entry)) :
  StronglySorted (fun a b => (timestamp (snd a) <= timestamp (snd b))%Z) l ->
  StronglySorted (fun a b => (timestamp (snd a) <= timestamp (snd b))%Z) (insert x l).
Proof.
  induction l as [|y r IH]; intros Hs; cbn.
  - constructor; constructor.
  - inversion Hs as [|? ? Hr Hall]; subst.
    destruct (timestamp (snd x) <=? timestamp (snd y))%Z eqn:E.
    + apply Z.leb_le in E. constructor; [exact Hs|].
      constructor; [exact E|]. eapply Forall_impl; [|exact Hall]. cbn. intros; lia.
    + apply Z.leb_gt in E. constructor; [now apply IH|].
      apply Forall_forall. intros z Hz.
      apply (Permutation_in _ (insert_perm x r)) in Hz. destruct Hz as [<- | Hz]; [lia|].
      rewrite Forall_forall in Hall. now apply Hall.
Qed.

Lemma sort_sorted (l : list (string * index_entry)) :
  StronglySorted (fun a b => (timestamp (snd a) <= timestamp (snd b))%Z) (sort l).
Proof.
  induction l as [|x l IH]; cbn; [constructor | now apply insert_sorted].
Qed.

Lemma sorted_app (l1 l2 : list (string * index_entry)) (a b : string * index_entry) :
  StronglySorted (fun a b => (timestamp (snd a) <= timestamp (snd b))%Z) (l1 ++ l2) ->
  In a l1 -> In b l2 -> (timestamp (snd a) <= timestamp (snd b))%Z.
Proof.
  induction l1 as [|x l1 IH]; intros Hs Ha Hb; [destruct Ha|].
  cbn in Hs. inversion Hs as [|? ? Hr Hall]; subst.
  destruct Ha as [-> | Ha]; [|now apply IH].
  rewrite Forall_forall in Hall. apply Hall. apply in_or_app. now right.
Qed.

(** The loop of [_evictIfNeeded] deletes the entries of a beginning of
    the list it walks. *)
Lemma evict_spec (entries : list (string * index_entry)) (totalSize freed : Z) (c : cache) :
  enabled c = true ->
  writable c = true ->
  JsMap.wf (index c) ->
  NoDup (map fst entries) ->
  (forall x, In x entries -> In x (index c)) ->
  total (index c) = (totalSize - freed)%Z ->
  let c' := evict entries totalSize freed c in
  exists gone kept,
    entries = gone ++ kept /\
    (entries <> [] -> gone <> []) /\
    (kept = [] \/ (5 * total (index c') < 4 * maxSize c)%Z) /\
    JsMap.wf (index c') /\
    (forall x, In x (index c') <-> In x (index c) /\ ~ In (fst x) (map fst gone)) /\
    (forall x, In x gone -> JsMap.has (files c') (fst x) = false).
Proof.
  revert freed c.
  induction entries as [|[key entry] rest IH]; intros freed c He Hw Hwf Hnd Hin Htotal;
    cbn zeta; cbn [evict].
  - exists [], []. split; [reflexivity|]. split; [congruence|]. split; [now left|].
    split; [exact Hwf|]. split; [|intros x []].
    intros x. cbn. tauto.
  - cbn zeta. cbn in Hnd. inversion Hnd as [|? ? Hnotin Hnd']; subst.
    assert (Hentry : In (key, entry) (index c)) by (apply Hin; now left).
    assert (Hc1 : delete key c =
                  {| enabled := true; ttl := ttl c; maxSize := maxSize c;
                     index := JsMap.delete (index c) key;
                     files := JsMap.delete (files c) key;
                     index_file := Some (JsMap.delete (index c) key);
                     writable := true |}) by now apply delete_run.
    assert (Ht1 : total (JsMap.delete (index c) key) = (totalSize - (freed + size entry))%Z)
      by (rewrite (@total_delete (index c) key entry Hwf Hentry); lia).
    destruct (5 * (totalSize - (freed + size entry)) <? 4 * maxSize c)%Z eqn:Estop.
    + apply Z.ltb_lt in Estop. exists [(key, entry)], rest.
      split; [reflexivity|]. split; [discriminate|]. rewrite Hc1. cbn [index files].
      split; [right; lia|]. split; [now apply wf_delete|]. split.
      * intros x. rewrite in_delete_iff. cbn. intuition congruence.
      * intros x [<- | []]. cbn. apply JsMapFacts.has_delete.
    + rewrite Hc1.
      match goal with |- context [evict rest totalSize ?f ?c1] =>
        destruct (IH f c1 eq_refl eq_refl) as (gone & kept & Hsplit & _ & Hstop & Hwf' & Hmem & Hfiles)
      end.
      * cbn [index]. now apply wf_delete.
      * exact Hnd'.
      * cbn [index]. intros x Hx. apply in_delete_iff. split; [apply Hin; now right|].
        intros Heq. apply Hnotin. rewrite <- Heq. now apply in_map.
      * cbn [index]. exact Ht1.
      * cbn zeta in Hstop, Hwf', Hmem, Hfiles. cbn [index files maxSize] in *.
        exists ((key, entry) :: gone), kept.
        split; [now rewrite Hsplit|]. split; [discriminate|]. split; [exact Hstop|].
        split; [exact Hwf'|]. split.
        -- intros x. rewrite Hmem, in_delete_iff. cbn. intuition congruence.
        -- intros x [<- | Hx]; [|now apply Hfiles]. cbn [fst].
           match goal with |- JsMap.has (files ?c2) key = false =>
             destruct (JsMap.has (files c2) key) eqn:Hh; [|reflexivity]
           end.
           exfalso.
           assert (Hkeep : forall (l : list (string * index_entry)) f (c0 : cache),
                      enabled c0 = true -> writable c0 = true ->
                      JsMap.has (files c0) key = false ->
                      JsMap.has (files (evict l totalSize f c0)) key = false).
           { clear. induction l as [|[k e] l IHl]; intros f c0 He0 Hw0 Hno; cbn [evict];
               [exact Hno|].
             cbn zeta. rewrite (@delete_run k c0 He0 Hw0).
             assert (Hno1 : JsMap.has (JsMap.delete (files c0) k) key = false).
             { destruct (JsMap.has (JsMap.delete (files c0) k) key) eqn:Hd; [|reflexivity].
               unfold JsMap.has in *.
               destruct (String.eqb k key) eqn:Ek.
               - apply String.eqb_eq in Ek. subst.
                 pose proof (JsMapFacts.has_delete (files c0) key) as Hx.
                 unfold JsMap.has in Hx. congruence.
               - apply String.eqb_neq in Ek.
                 rewrite JsMapFacts.get_delete_other in Hd by exact Ek. congruence. }
             destruct (5 * (totalSize - (f + size e)) <? 4 * maxSize c0)%Z; [exact Hno1|].
             now apply IHl. }
           rewrite Hkeep in Hh; [discriminate | reflexivity | reflexivity |].
           cbn [files]. apply JsMapFacts.has_delete.
Qed.

(** What [_evictIfNeeded] leaves of the index. *)
Lemma evictIfNeeded_shrinks (c : cache) :
  enabled c = true ->
  writable c = true ->
  JsMap.wf (index c) ->
  JsMap.wf (index (_evictIfNeeded c)) /\
  (forall x, In x (index (_evictIfNeeded c)) -> In x (index c)) /\
  (index (_evictIfNeeded c) = [] \/
   (total (index (_evictIfNeeded c)) < maxSize c)%Z \/
   (5 * total (index (_evictIfNeeded c)) < 4 * maxSize c)%Z).
Proof.
  intros He Hw Hwf. unfold _evictIfNeeded. cbn zeta.
  destruct (total (index c) <? maxSize c)%Z eqn:E.
  - apply Z.ltb_lt in E. split; [exact Hwf|]. split; [auto|]. right. now left.
  - destruct (@evict_spec (sort (index c)) (total (index c)) 0 c He Hw Hwf)
      as (gone & kept & Hsplit & _ & Hstop & Hwf' & Hmem & _).
    + apply (Permutation_NoDup (l := map fst (index c))); [|exact Hwf].
      apply Permutation_map, Permutation_sym, sort_perm.
    + intros x Hx. now apply (Permutation_in _ (sort_perm (index c))).
    + lia.
    + cbn zeta in Hstop, Hwf', Hmem. split; [exact Hwf'|].
      split; [intros x Hx; now apply Hmem|].
      destruct Hstop as [-> | Hstop]; [left | right; now right].
      rewrite app_nil_r in Hsplit.
      destruct (index (evict (sort (index c)) (total (index c)) 0 c)) as [|x l] eqn:Eidx;
        [reflexivity|].
      exfalso. destruct (proj1 (Hmem x) (or_introl eq_refl)) as [Hin Hnot].
      apply Hnot. apply in_map. rewrite <- Hsplit.
      now apply (Permutation_in _ (Permutation_sym (sort_perm (index c)))).
Qed.

(** X20: eviction takes the oldest entries.  On an enabled cache with a
    writable directory, [_evictIfNeeded] changes nothing while the sizes
    in the index add up to less than [maxSize].  Otherwise it deletes
    entries, at least one if there is any: what stays was there before,
    every deleted entry is at most as recent as every entry that stays and
    its file is deleted too, and either the index is left empty or the
    sizes that stay add up to less than 0.8 times [maxSize]. *)
Theorem eviction_removes_the_oldest (c : cache) :
  enabled c = true ->
  writable c = true ->
  JsMap.wf (index c) ->
  let c' := _evictIfNeeded c in
  ((total (index c) < maxSize c)%Z -> c' = c) /\
  ((maxSize c <= total (index c))%Z ->
   (index c' = [] \/ (5 * total (index c') < 4 * maxSize c)%Z) /\
   (index c <> [] -> length (index c') < length (index c)) /\
   (forall x, In x (index c') -> In x (index c)) /\
   (forall kept gone,
       In kept (index c') -> In gone (index c) -> ~ In gone (index c') ->
       (timestamp (snd gone) <= timestamp (snd kept))%Z /\
       JsMap.has (files c') (fst gone) = false)).
Proof.
  intros He Hw Hwf. cbn zeta. unfold _evictIfNeeded. cbn zeta. split.
  - intros Hsmall. apply Z.ltb_lt in Hsmall. now rewrite Hsmall.
  - intros Hbig. apply Z.ltb_ge in Hbig. rewrite Hbig.
    pose proof (sort_perm (index c)) as Hperm.
    destruct (@evict_spec (sort (index c)) (total (index c)) 0 c He Hw Hwf)
      as (gone & kept & Hsplit & Hsome & Hstop & Hwf' & Hmem & Hfiles).
    + apply (Permutation_NoDup (l := map fst (index c))); [|exact Hwf].
      apply Permutation_map, Permutation_sym, Hperm.
    + intros x Hx. now apply (Permutation_in _ Hperm).
    + lia.
    + cbn zeta in Hstop, Hwf', Hmem, Hfiles.
      set (c' := evict (sort (index c)) (total (index c)) 0 c) in *.
      assert (Hgone : forall x, In x (index c) -> ~ In x (index c') -> In x gone).
      { intros x Hx Hnot.
        destruct (in_dec string_dec (fst x) (map fst gone)) as [Hk | Hk].
        - apply in_map_iff in Hk as [g [Hfst Hg]].
          assert (Hgc : In g (index c)).
          { apply (Permutation_in _ Hperm). rewrite Hsplit. apply in_or_app. now left. }
          now rewrite <- (@wf_same_key _ (index c) g x Hwf Hgc Hx Hfst).
        - exfalso. apply Hnot. now apply Hmem. }
      split; [|split; [|split]].
      * destruct Hstop as [-> | Hstop]; [left | now right].
        rewrite app_nil_r in Hsplit.
        destruct (index c') as [|x l] eqn:Eidx; [reflexivity|].
        exfalso. destruct (proj1 (Hmem x) (or_introl eq_refl)) as [Hin Hnot].
        apply Hnot. apply in_map. rewrite <- Hsplit.
        now apply (Permutation_in _ (Permutation_sym Hperm)).
      * intros Hne.
        assert (Hsorted : sort (index c) <> []).
        { intros Hnil. rewrite Hnil in Hperm. apply Permutation_nil in Hperm. contradiction. }
        destruct gone as [|g gone']; [now destruct (Hsome Hsorted)|].
        assert (Hg : In g (index c)).
        { apply (Permutation_in _ Hperm). rewrite Hsplit. now left. }
        assert (Hg' : ~ In g (index c')).
        { intros Hin. apply Hmem in Hin as [_ Hnot]. apply Hnot. now left. }
        destruct (Nat.lt_ge_cases (length (index c')) (length (index c))) as [Hlt | Hge];
          [exact Hlt|].
        exfalso. apply Hg'.
        apply (NoDup_length_incl (l := index c') (l' := index c)); auto.
        -- apply (NoDup_map_inv fst). exact Hwf'.
        -- intros x Hx. now apply Hmem.
      * intros x Hx. now apply Hmem.
      * intros keptx gonex Hk Hg Hnot.
        pose proof (Hgone gonex Hg Hnot) as Hingone. split; [|now apply Hfiles].
        apply Hmem in Hk as [Hkc Hknot].
        assert (Hkept : In keptx kept).
        { apply (Permutation_in _ (Permutation_sym Hperm)) in Hkc. rewrite Hsplit in Hkc.
          apply in_app_or in Hkc as [Hkc | Hkc]; [|exact Hkc].
          exfalso. apply Hknot. now apply in_map. }
        apply (@sorted_app gone kept gonex keptx); auto.
        rewrite <- Hsplit. apply sort_sorted.
Qed.

Section Facts.
Context {response number : Type}.
Variable falsy : number -> bool.
Variables default_temperature default_max_tokens : number.
Variable digest : normalized number -> string.
Variable stringify : response -> string.
Variable parse : string -> option response.
Variable byte_length : string -> Z.

Local Abbreviation key_of := (_generateKey falsy default_temperature default_max_tokens digest).
Local Abbreviation cache_get := (get falsy default_temperature default_max_tokens digest parse).
Local Abbreviation cache_set :=
  (set falsy default_temperature default_max_tokens digest stringify byte_length).

(** [set] on a cache that is enabled and whose directory is writable. *)
Lemma set_run (p : params number) (r : response) (now : Z) (c : cache) :
  enabled c = true ->
  writable c = true ->
  let c1 := _evictIfNeeded c in
  let entry := {| timestamp := now; size := byte_length (stringify r);
                  entry_provider := provider p; entry_model := model p |} in
  cache_set p r now c =
  {| enabled := true; ttl := ttl c; maxSize := maxSize c;
     index := JsMap.set (index c1) (key_of p) entry;
     files := JsMap.set (files c1) (key_of p) (stringify r);
     index_file := Some (JsMap.set (index c1) (key_of p) entry);
     writable := true |}.
Proof.
  intros He Hw. cbn zeta. unfold set. rewrite He. cbn [negb]. cbn zeta.
  destruct (@evictIfNeeded_frame c He Hw) as (He1 & Hw1 & Httl & Hmax).
  rewrite Hw1. unfold saveIndex, with_index_file, with_index, with_files.
  cbn [enabled writable negb index files ttl maxSize index_file].
  rewrite He1, Hw1, Httl, Hmax. reflexivity.
Qed.

(** A look-up under the key of what was stored. *)
Lemma get_after_set (p p' : params number) (r : response) (now later : Z) (c : cache) :
  enabled c = true ->
  writable c = true ->
  parse (stringify r) = Some r ->
  key_of p' = key_of p ->
  let stored := cache_set p r now c in
  ((later - now <= ttl c)%Z ->
   cache_get p' later stored =
     (stored, Some {| hit_response := r; hit_cacheAge := (later - now)%Z |})) /\
  ((ttl c < later - now)%Z ->
   snd (cache_get p' later stored) = None /\
   JsMap.has (index (fst (cache_get p' later stored))) (key_of p) = false /\
   JsMap.has (files (fst (cache_get p' later stored))) (key_of p) = false).
Proof.
  intros He Hw Hparse Hkey. cbn zeta. rewrite (@set_run p r now c He Hw). cbn zeta.
  unfold get. cbn [enabled negb index files ttl]. cbn zeta. rewrite Hkey.
  rewrite !JsMapFacts.get_set_same. cbn [timestamp]. split.
  - intros Hfresh. apply Z.ltb_ge in Hfresh. rewrite Hfresh, Hparse. reflexivity.
  - intros Hold. apply Z.ltb_lt in Hold. rewrite Hold. cbn [fst snd].
    rewrite delete_run by reflexivity. cbn [index files].
    split; [reflexivity|]. split; apply JsMapFacts.has_delete.
Qed.

(** X17: what [set] stores, [get] returns until it expires.  On an
    enabled cache with a writable directory, for a response that survives
    JSON, [get] with the same parameters returns the response with its
    age and leaves the cache as it is as long as the age is at most
    [ttl]; once the age exceeds [ttl] it returns null and removes the
    entry from the index and its file from the directory. *)
Theorem set_then_get (p : params number) (r : response) (now later : Z) (c : cache) :
  enabled c = true ->
  writable c = true ->
  parse (stringify r) = Some r ->
  let stored := cache_set p r now c in
  ((later - now <= ttl c)%Z ->
   cache_get p later stored =
     (stored, Some {| hit_response := r; hit_cacheAge := (later - now)%Z |})) /\
  ((ttl c < later - now)%Z ->
   snd (cache_get p later stored) = None /\
   JsMap.has (index (fst (cache_get p later stored))) (key_of p) = false /\
   JsMap.has (files (fst (cache_get p later stored))) (key_of p) = false).
Proof. intros He Hw Hparse. now apply get_after_set. Qed.

Lemma or_default_twice (x : option number) (d : number) :
  or_default falsy (Some (or_default falsy x d)) d = or_default falsy x d.
Proof.
  unfold or_default. destruct x as [v|].
  - destruct (falsy v) eqn:E; [now destruct (falsy d) | now rewrite E].
  - now destruct (falsy d).
Qed.

(** X18: the key is taken after the defaults are filled in, so requests
    that differ only in an option that is missing, zero or NaN on the one
    side and the default (0.7, 1000) on the other have one key: the
    response stored for the one is returned for the other. *)
Theorem defaults_share_the_entry
    (p p' : params number) (r : response) (now later : Z) (c : cache) :
  provider p' = provider p ->
  model p' = model p ->
  prompt p' = prompt p ->
  request_options p' =
    Some {| temperature :=
              Some (or_default falsy
                      (match request_options p with Some o => temperature o | None => None end)
                      default_temperature);
            max_tokens :=
              Some (or_default falsy
                      (match request_options p with Some o => max_tokens o | None => None end)
                      default_max_tokens) |} ->
  key_of p' = key_of p /\
  (enabled c = true ->
   writable c = true ->
   parse (stringify r) = Some r ->
   (later - now <= ttl c)%Z ->
   snd (cache_get p' later (cache_set p r now c)) =
     Some {| hit_response := r; hit_cacheAge := (later - now)%Z |}).
Proof.
  intros Hprov Hmodel Hprompt Hopts.
  assert (Hkey : key_of p' = key_of p).
  { unfold _generateKey, normalize. rewrite Hprov, Hmodel, Hprompt, Hopts.
    cbn [temperature max_tokens]. now rewrite !or_default_twice. }
  split; [exact Hkey|].
  intros He Hw Hparse Hfresh.
  destruct (@get_after_set p p' r now later c He Hw Hparse Hkey) as [Hhit _].
  cbn zeta in Hhit. now rewrite (Hhit Hfresh).
Qed.

Lemma has_delete_str {V : Type} (m : list (string * V)) (key key' : string) :
  JsMap.has (JsMap.delete m key) key' = true -> JsMap.has m key' = true /\ key' <> key.
Proof.
  intros Hhas. destruct (String.eqb key key') eqn:E.
  - apply String.eqb_eq in E. subst. now rewrite JsMapFacts.has_delete in Hhas.
  - apply String.eqb_neq in E. unfold JsMap.has in *.
    rewrite JsMapFacts.get_delete_other in Hhas by exact E. split; [exact Hhas | congruence].
Qed.

Lemma has_delete_keeps {V : Type} (m : list (string * V)) (key key' : string) :
  JsMap.has m key' = true -> key' <> key -> JsMap.has (JsMap.delete m key) key' = true.
Proof.
  intros Hhas Hne. unfold JsMap.has in *.
  rewrite JsMapFacts.get_delete_other by congruence. exact Hhas.
Qed.

Lemma delete_consistent (key : string) (c : cache) :
  enabled c = true -> writable c = true ->
  consistent c -> consistent (delete key c).
Proof.
  intros He Hw [_ Hfiles]. rewrite (@delete_run key c He Hw).
  split; [reflexivity|]. cbn [index files]. intros k Hk.
  apply has_delete_str in Hk as [Hk Hne]. apply has_delete_keeps; auto.
Qed.

(** X19: the directory follows the index.  On an enabled cache with a
    writable directory, [set] leaves the index saved and every entry of
    the index with its file, provided every entry had its file before;
    and [get], [delete] and [clear] keep a cache in that state, so that
    the index a new cache loads from the directory is the index in
    memory. *)
Theorem operations_keep_directory_consistent
    (p : params number) (r : response) (now : Z) (key : string) (c : cache) :
  enabled c = true ->
  writable c = true ->
  ((forall k, JsMap.has (index c) k = true -> JsMap.has (files c) k = true) ->
   consistent (cache_set p r now c)) /\
  (consistent c ->
   consistent (fst (cache_get p now c)) /\
   consistent (delete key c) /\
   consistent (clear c) /\
   index (loadIndex c) = index c).
Proof.
  intros He Hw. split.
  - intros Hfiles. rewrite (@set_run p r now c He Hw). cbn zeta.
    split; [reflexivity|]. cbn [index files].
    assert (Hc1 : forall k, JsMap.has (index (_evictIfNeeded c)) k = true ->
                            JsMap.has (files (_evictIfNeeded c)) k = true).
    { unfold _evictIfNeeded. cbn zeta.
      destruct (total (index c) <? maxSize c)%Z; [exact Hfiles|].
      generalize (sort (index c)) (total (index c)) 0%Z. intros entries totalSize freed.
      revert freed c He Hw Hfiles.
      induction entries as [|[k0 e0] rest IH]; intros freed c He Hw Hfiles; cbn [evict];
        [exact Hfiles|].
      cbn zeta.
      assert (Hnext : forall k, JsMap.has (index (delete k0 c)) k = true ->
                                JsMap.has (files (delete k0 c)) k = true).
      { rewrite (@delete_run k0 c He Hw). cbn [index files]. intros k Hk.
        apply has_delete_str in Hk as [Hk Hne]. apply has_delete_keeps; auto. }
      destruct (5 * (totalSize - (freed + size e0)) <? 4 * maxSize c)%Z; [exact Hnext|].
      replace (maxSize c) with (maxSize (delete k0 c))
        by (rewrite (@delete_run k0 c He Hw); reflexivity).
      apply IH; [| |exact Hnext]; rewrite (@delete_run k0 c He Hw); reflexivity. }
    intros k Hk. destruct (String.eqb (key_of p) k) eqn:E.
    + apply String.eqb_eq in E. subst k. unfold JsMap.has.
      now rewrite JsMapFacts.get_set_same.
    + apply String.eqb_neq in E. unfold JsMap.has in *.
      rewrite JsMapFacts.get_set_other in Hk by exact E.
      rewrite JsMapFacts.get_set_other by exact E. now apply Hc1.
  - intros Hc. split; [|split; [|split]].
    + unfold get. rewrite He. cbn [negb]. cbn zeta.
      destruct (JsMap.get (index c) (key_of p)) as [entry|]; [|exact Hc].
      destruct (ttl c <? now - timestamp entry)%Z; [now apply delete_consistent|].
      destruct (JsMap.get (files c) (key_of p)) as [data|]; [|now apply delete_consistent].
      destruct (parse data); [exact Hc | now apply delete_consistent].
    + now apply delete_consistent.
    + unfold clear, saveIndex, with_index_file, with_index, with_files.
      cbn [enabled writable index files ttl maxSize index_file].
      rewrite He, Hw. cbn [negb].
      destruct (files c) eqn:Hf; (split; [reflexivity | intros k Hk; discriminate]).
    + unfold loadIndex. rewrite He. cbn [negb]. destruct Hc as [-> _]. reflexivity.
Qed.

Lemma set_cons {V : Type} (k : string) (v : V) (m : list (string * V)) (key : string) (e : V) :
  JsMap.set ((k, v) :: m) key e =
  if String.eqb k key then (key, e) :: m else (k, v) :: JsMap.set m key e.
Proof. reflexivity. Qed.

Lemma total_set_le (x : list (string * index_entry)) (key : string) (e : index_entry) :
  (forall y, In y x -> (0 <= size (snd y))%Z) ->
  (total (JsMap.set x key e) <= total x + size e)%Z.
Proof.
  induction x as [|[k v] x IH]; intros Hpos.
  - cbn [JsMap.set]. rewrite total_cons. cbn. lia.
  - rewrite set_cons. pose proof (Hpos (k, v) (or_introl eq_refl)) as Hv. cbn in Hv.
    destruct (String.eqb k key); rewrite !total_cons; cbn [snd]; [lia|].
    assert (IH' : (total (JsMap.set x key e) <= total x + size e)%Z)
      by (apply IH; intros y Hy; apply Hpos; now right).
    lia.
Qed.

(** X21: [set] evicts before it writes, so the index may exceed
    [maxSize], but by less than the response just stored.  On an enabled
    cache with a writable directory, a positive [maxSize] and no negative
    size in the index, after [set] the sizes in the index add up to less
    than [maxSize] plus the size of the stored response; the index still
    has one entry per key and no negative size, so the bound holds after
    every later [set] as well. *)
Theorem set_keeps_total_bounded (p : params number) (r : response) (now : Z) (c : cache) :
  enabled c = true ->
  writable c = true ->
  JsMap.wf (index c) ->
  (0 < maxSize c)%Z ->
  (forall x, In x (index c) -> (0 <= size (snd x))%Z) ->
  (0 <= byte_length (stringify r))%Z ->
  let stored := cache_set p r now c in
  (total (index stored) < maxSize c + byte_length (stringify r))%Z /\
  enabled stored = true /\ writable stored = true /\ maxSize stored = maxSize c /\
  JsMap.wf (index stored) /\
  (forall x, In x (index stored) -> (0 <= size (snd x))%Z).
Proof.
  intros He Hw Hwf Hmax Hpos Hsize. cbn zeta.
  rewrite (@set_run p r now c He Hw). cbn zeta. cbn [index enabled writable maxSize].
  destruct (@evictIfNeeded_shrinks c He Hw Hwf) as (Hwf1 & Hincl & Hbound).
  assert (Hpos1 : forall x, In x (index (_evictIfNeeded c)) -> (0 <= size (snd x))%Z)
    by (intros x Hx; apply Hpos; now apply Hincl).
  assert (Hless : (total (index (_evictIfNeeded c)) < maxSize c)%Z).
  { destruct Hbound as [Hnil | [Hlt | Hlt]]; [rewrite Hnil; cbn; lia | lia | lia]. }
  split; [|split; [reflexivity|split; [reflexivity|split; [reflexivity|split]]]].
  - match goal with |- (total (JsMap.set ?x ?k ?e) < _)%Z =>
      pose proof (@total_set_le x k e Hpos1) as Hle; cbn [size] in Hle end.
    lia.
  - now apply JsMapFacts.wf_set.
  - intros x Hx. destruct x as [k e]. apply in_set_entry in Hx as [[= -> ->] | Hx]; [exact Hsize|].
    now apply (Hpos1 (k, e)).
Qed.

End Facts.

Lemma set_then_get_witness :
  snd (CacheScenario.look_up (CacheScenario.ask "first" None) 1500
         (CacheScenario.store (CacheScenario.ask "first" None) "answer" 1000
            CacheScenario.fresh)) =
  Some {| hit_response := "answer"; hit_cacheAge := 500 |}.
Proof.
  destruct (@set_then_get string Z CacheScenario.falsy 7%Z 1000%Z CacheScenario.digest
              (fun s => s) (fun s => Some s) CacheScenario.byte_length
              (CacheScenario.ask "first" None) "answer" 1000%Z 1500%Z CacheScenario.fresh
              eq_refl eq_refl eq_refl) as [Hhit _].
  unfold CacheScenario.look_up, CacheScenario.store.
  rewrite Hhit; [reflexivity | cbn; lia].
Defined.

Lemma defaults_share_the_entry_witness :
  snd (CacheScenario.look_up (CacheScenario.ask "first" (Some 7%Z)) 1500
         (CacheScenario.store
            {| provider := Some "openai"; model := Some "gpt-4o-mini";
               prompt := Some "first";
               request_options := Some {| temperature := Some 0%Z;
                                          max_tokens := Some 1000%Z |} |}
            "answer" 1000 CacheScenario.fresh)) =
  Some {| hit_response := "answer"; hit_cacheAge := 500 |}.
Proof.
  destruct (@defaults_share_the_entry string Z CacheScenario.falsy 7%Z 1000%Z
              CacheScenario.digest (fun s => s) (fun s => Some s) CacheScenario.byte_length
              {| provider := Some "openai"; model := Some "gpt-4o-mini";
                 prompt := Some "first";
                 request_options := Some {| temperature := Some 0%Z;
                                            max_tokens := Some 1000%Z |} |}
              {| provider := Some "openai"; model := Some "gpt-4o-mini";
                 prompt := Some "first";
                 request_options := Some {| temperature := Some 7%Z;
                                            max_tokens := Some 1000%Z |} |}
              "answer" 1000%Z 1500%Z CacheScenario.fresh
              eq_refl eq_refl eq_refl eq_refl) as [Hkey Hhit].
  unfold CacheScenario.look_up, CacheScenario.store, CacheScenario.ask,
    get in *.
  cbn [enabled negb] in *. cbn zeta in *.
  exact (Hhit eq_refl eq_refl eq_refl ltac:(cbn; lia)).
Defined.

Lemma operations_keep_directory_consistent_witness :
  consistent CacheScenario.filled /\
  consistent (clear CacheScenario.filled).
Proof.
  assert (Hfirst : consistent (CacheScenario.store (CacheScenario.ask "first" None) "answer"
                                 1000 CacheScenario.fresh)).
  { apply (@operations_keep_directory_consistent string Z CacheScenario.falsy 7%Z 1000%Z
             CacheScenario.digest (fun s => s) (fun s => Some s) CacheScenario.byte_length
             (CacheScenario.ask "first" None) "answer" 1000%Z EmptyString CacheScenario.fresh
             eq_refl eq_refl).
    intros k Hk. discriminate Hk. }
  assert (Hfilled : consistent CacheScenario.filled).
  { apply (@operations_keep_directory_consistent string Z CacheScenario.falsy 7%Z 1000%Z
             CacheScenario.digest (fun s => s) (fun s => Some s) CacheScenario.byte_length
             (CacheScenario.ask "second" None) "answer" 2000%Z EmptyString
             (CacheScenario.store (CacheScenario.ask "first" None) "answer" 1000
                CacheScenario.fresh)
             eq_refl eq_refl).
    apply Hfirst. }
  split; [exact Hfilled|].
  apply (@operations_keep_directory_consistent string Z CacheScenario.falsy 7%Z 1000%Z
           CacheScenario.digest (fun s => s) (fun s => Some s) CacheScenario.byte_length
           (CacheScenario.ask "first" None) "answer" 0%Z EmptyString CacheScenario.filled
           eq_refl eq_refl).
  exact Hfilled.
Defined.

Lemma eviction_removes_the_oldest_witness :
  total (index CacheScenario.filled) = 12%Z /\
  JsMap.keys (index (_evictIfNeeded CacheScenario.filled)) = ["second|0.7|1000"] /\
  (5 * total (index (_evictIfNeeded CacheScenario.filled)) < 4 * 10)%Z.
Proof.
  split; [vm_compute; reflexivity|]. split; [vm_compute; reflexivity|].
  assert (Hwf : JsMap.wf (index CacheScenario.filled)).
  { unfold JsMap.wf. vm_compute. repeat constructor; cbn; intuition discriminate. }
  destruct (@eviction_removes_the_oldest CacheScenario.filled eq_refl eq_refl Hwf)
    as [_ Hbig].
  destruct Hbig as ([Hnil | Hlt] & _); [vm_compute; discriminate | | exact Hlt].
  vm_compute in Hnil. discriminate Hnil.
Defined.

Lemma set_keeps_total_bounded_witness :
  (total (index CacheScenario.filled) < 10 + 6)%Z.
Proof.
  apply (@set_keeps_total_bounded string Z CacheScenario.falsy 7%Z 1000%Z
           CacheScenario.digest (fun s => s) CacheScenario.byte_length
           (CacheScenario.ask "second" None) "answer" 2000%Z
           (CacheScenario.store (CacheScenario.ask "first" None) "answer" 1000
              CacheScenario.fresh)).
  - reflexivity.
  - reflexivity.
  - unfold JsMap.wf. vm_compute. repeat constructor; cbn; intuition discriminate.
  - reflexivity.
  - intros x Hx. vm_compute in Hx. destruct Hx as [<- | []]. vm_compute. discriminate.
  - vm_compute. discriminate.
Defined.

End CacheFacts.

(** ** ProviderRouter *)

Module RouterFacts.
Import Cache Router CacheFacts.

Lemma has_in_entry {V : Type} (m : list (string * V)) (key : string) :
  JsMap.has m key = true <-> exists v, In (key, v) m.
Proof.
  unfold JsMap.has. split.
  - destruct (JsMap.get m key) as [v|] eqn:G; [|discriminate].
    intros _. exists v. now apply JsMapFacts.get_in.
  - intros [v Hin]. destruct (JsMap.get m key) eqn:G; [reflexivity|].
    apply JsMapFacts.get_none_notin in G. exfalso. apply G.
    change key with (fst (key, v)). now apply in_map.
Qed.

Lemma tl_snoc {A : Type} (l : list A) (x : A) : l <> [] -> tl (l ++ [x]) = tl l ++ [x].
Proof. destruct l; [congruence | reflexivity]. Qed.

Section Facts.
Context {number reply context : Type}.
Variable falsy : number -> bool.
Variables default_temperature default_max_tokens : number.
Variable digest : normalized number -> string.
Variable stringify : response reply -> string.
Variable parse : string -> option (response reply).
Variable byte_length : string -> Z.
Variable selectProvider : request number context -> routing.
Variable provider_complete :
  string -> option string -> option string -> option (options number) -> option reply.

Local Abbreviation key_of := (_generateKey falsy default_temperature default_max_tokens digest).
Local Abbreviation router_complete :=
  (complete falsy default_temperature default_max_tokens digest stringify parse byte_length
            selectProvider provider_complete).

(** [_recordRequest] keeps the history within its bound. *)
Lemma recordRequest_history (e : history_entry) (s : router) :
  length (requestHistory s) <= maxHistorySize ->
  requestHistory (_recordRequest e s) =
    (if Nat.ltb (length (requestHistory s)) maxHistorySize
     then requestHistory s else tl (requestHistory s)) ++ [e] /\
  length (requestHistory (_recordRequest e s)) =
    Nat.min (S (length (requestHistory s))) maxHistorySize.
Proof.
  intros Hle. unfold _recordRequest. cbn [requestHistory]. rewrite length_app. cbn [length].
  destruct (Nat.ltb (length (requestHistory s)) maxHistorySize) eqn:E.
  - apply Nat.ltb_lt in E.
    assert (Hno : Nat.ltb maxHistorySize (length (requestHistory s) + 1) = false)
      by (apply Nat.ltb_ge; lia).
    rewrite Hno, length_app. cbn [length]. split; [reflexivity | lia].
  - apply Nat.ltb_ge in E.
    assert (Hyes : Nat.ltb maxHistorySize (length (requestHistory s) + 1) = true)
      by (apply Nat.ltb_lt; lia).
    rewrite Hyes.
    assert (Hne : requestHistory s <> []).
    { intros Hnil. rewrite Hnil in E. unfold maxHistorySize in E. cbn in E. lia. }
    rewrite (tl_snoc _ Hne). split; [reflexivity|].
    rewrite length_app. cbn [length].
    destruct (requestHistory s) as [|x l]; [congruence|]. cbn [tl length] in *. lia.
Qed.

(** The first steps of [complete] when the look-up finds no entry. *)
Lemma complete_miss (p : request number context) (t : readings) (s : router) :
  enabled (cache_of s) = true ->
  JsMap.has (index (cache_of s)) (key_of (lookup_params p)) = false ->
  get falsy default_temperature default_max_tokens digest parse
      (lookup_params p) (t_get t) (cache_of s) = (cache_of s, None).
Proof.
  intros He Hmiss. unfold get. rewrite He. cbn [negb]. cbn zeta.
  unfold JsMap.has in Hmiss.
  now destruct (JsMap.get (index (cache_of s)) (key_of (lookup_params p))).
Qed.

(** X22: a request that leaves the choice of provider or model to the
    policy is looked up under its own parameters and stored under the
    routed ones.  When the policy names a model, the two requests that
    the key is computed from differ, whatever the digest; and as soon as
    their keys differ, the answer is stored where no repetition of the
    request looks: after [complete] the look-up key is still absent from
    the index, and every repetition asks the provider again. *)
Theorem routed_answer_is_stored_out_of_reach
    (p : request number context) (t : readings) (s : router)
    (name : string) (answer : reply) :
  enabled (cache_of s) = true ->
  writable (cache_of s) = true ->
  JsMap.wf (index (cache_of s)) ->
  truthy (req_provider p) && truthy (req_model p) = false ->
  provider_named (route_provider (selectProvider p)) = Some name ->
  truthy (route_model (selectProvider p)) = true ->
  provider_complete name (req_prompt p) (route_model (selectProvider p)) (req_options p)
    = Some answer ->
  JsMap.has (index (cache_of s)) (key_of (lookup_params p)) = false ->
  normalize falsy default_temperature default_max_tokens (lookup_params p) <>
  normalize falsy default_temperature default_max_tokens (store_params p (selectProvider p)) /\
  (key_of (store_params p (selectProvider p)) <> key_of (lookup_params p) ->
   let first := router_complete p t s in
   snd first = Answered {| body := answer; response_routing := selectProvider p;
                           response_latency := (t_latency t - t_start t)%Z |} /\
   JsMap.has (index (cache_of (fst first))) (key_of (store_params p (selectProvider p))) = true /\
   JsMap.has (index (cache_of (fst first))) (key_of (lookup_params p)) = false /\
   forall t',
     snd (router_complete p t' (fst first)) =
     Answered {| body := answer; response_routing := selectProvider p;
                 response_latency := (t_latency t' - t_start t')%Z |}).
Proof.
  intros He Hw Hwf Hpolicy Hname Hmodel Hanswer Hmiss.
  assert (Hprovider : truthy (route_provider (selectProvider p)) = true).
  { unfold provider_named in Hname.
    destruct (route_provider (selectProvider p)) as [n|]; [|discriminate].
    destruct n as [|ch n]; [discriminate | reflexivity]. }
  split.
  - unfold normalize, lookup_params, store_params. cbn [provider model]. intros Heq.
    injection Heq as Hp Hm.
    rewrite Hp, Hm, Hprovider, Hmodel in Hpolicy. discriminate.
  - intros Hkeys. cbn zeta.
    assert (Hrun : forall t0 s0,
               enabled (cache_of s0) = true -> writable (cache_of s0) = true ->
               JsMap.wf (index (cache_of s0)) ->
               JsMap.has (index (cache_of s0)) (key_of (lookup_params p)) = false ->
               snd (router_complete p t0 s0) =
                 Answered {| body := answer; response_routing := selectProvider p;
                             response_latency := (t_latency t0 - t_start t0)%Z |} /\
               enabled (cache_of (fst (router_complete p t0 s0))) = true /\
               writable (cache_of (fst (router_complete p t0 s0))) = true /\
               JsMap.wf (index (cache_of (fst (router_complete p t0 s0)))) /\
               JsMap.has (index (cache_of (fst (router_complete p t0 s0))))
                         (key_of (store_params p (selectProvider p))) = true /\
               JsMap.has (index (cache_of (fst (router_complete p t0 s0))))
                         (key_of (lookup_params p)) = false).
    { intros t0 s0 He0 Hw0 Hwf0 Hmiss0. unfold complete. cbn zeta.
      rewrite (@complete_miss p t0 s0 He0 Hmiss0).
      unfold _routeRequest. rewrite Hpolicy, Hname, Hanswer.
      cbn [fst snd cache_of _recordRequest].
      rewrite (set_run falsy default_temperature default_max_tokens digest stringify
                       byte_length _ _ _ _ He0 Hw0).
      cbn zeta. cbn [index enabled writable].
      destruct (@evictIfNeeded_shrinks _ He0 Hw0 Hwf0) as (Hwf1 & Hincl & _).
      split; [reflexivity|]. split; [reflexivity|]. split; [reflexivity|].
      split; [now apply JsMapFacts.wf_set|]. split.
      - unfold JsMap.has. now rewrite JsMapFacts.get_set_same.
      - unfold JsMap.has. rewrite JsMapFacts.get_set_other by exact Hkeys.
        destruct (JsMap.get (index (_evictIfNeeded (cache_of s0))) (key_of (lookup_params p)))
          as [v|] eqn:G; [|reflexivity].
        apply JsMapFacts.get_in, Hincl in G.
        assert (Hhas : JsMap.has (index (cache_of s0)) (key_of (lookup_params p)) = true)
          by (apply has_in_entry; now exists v).
        congruence. }
    destruct (Hrun t s He Hw Hwf Hmiss) as (Hout & He1 & Hw1 & Hwf1 & Hstored & Hstill).
    split; [exact Hout|]. split; [exact Hstored|]. split; [exact Hstill|].
    intros t'. now destruct (Hrun t' _ He1 Hw1 Hwf1 Hstill) as (Hagain & _).
Qed.

(** X23: a request that names its provider and its model is served from
    the cache.  Once [complete] has asked the provider and stored the
    answer, a repetition whose look-up comes at most [ttl] after the store
    returns the stored response with its age, and the provider is not
    asked. *)
Theorem explicit_request_is_served_from_cache
    (p : request number context) (t t' : readings) (s : router)
    (name : string) (answer : reply) :
  enabled (cache_of s) = true ->
  writable (cache_of s) = true ->
  truthy (req_provider p) && truthy (req_model p) = true ->
  provider_named (req_provider p) = Some name ->
  provider_complete name (req_prompt p) (req_model p) (req_options p) = Some answer ->
  JsMap.has (index (cache_of s)) (key_of (lookup_params p)) = false ->
  let r := {| body := answer;
              response_routing := {| route_provider := req_provider p;
                                     route_model := req_model p;
                                     route_reason := "explicit selection" |};
              response_latency := (t_latency t - t_start t)%Z |} in
  parse (stringify r) = Some r ->
  (t_get t' - t_set t <= ttl (cache_of s))%Z ->
  snd (router_complete p t s) = Answered r /\
  snd (router_complete p t' (fst (router_complete p t s))) =
    Cached {| hit_response := r; hit_cacheAge := (t_get t' - t_set t)%Z |} /\
  cache_of (fst (router_complete p t' (fst (router_complete p t s)))) =
    cache_of (fst (router_complete p t s)).
Proof.
  intros He Hw Hexplicit Hname Hanswer Hmiss. cbn zeta. intros Hparse Hfresh.
  assert (Hfirst : router_complete p t s =
            (_recordRequest {| h_provider := req_provider p; h_model := req_model p;
                               h_cached := false; h_success := true;
                               h_latency := (t_latency t - t_start t)%Z;
                               h_timestamp := t_record t |}
               {| cache_of :=
                    set falsy default_temperature default_max_tokens digest stringify
                        byte_length (lookup_params p)
                        {| body := answer;
                           response_routing := {| route_provider := req_provider p;
                                                  route_model := req_model p;
                                                  route_reason := "explicit selection" |};
                           response_latency := (t_latency t - t_start t)%Z |}
                        (t_set t) (cache_of s);
                  requestHistory := requestHistory s |},
             Answered {| body := answer;
                         response_routing := {| route_provider := req_provider p;
                                                route_model := req_model p;
                                                route_reason := "explicit selection" |};
                         response_latency := (t_latency t - t_start t)%Z |})).
  { unfold complete. cbn zeta. rewrite (@complete_miss p t s He Hmiss).
    unfold _routeRequest. rewrite Hexplicit. cbn [route_provider route_model].
    rewrite Hname, Hanswer. reflexivity. }
  rewrite Hfirst. cbn [fst snd]. split; [reflexivity|].
  unfold complete at 1 2. cbn zeta. cbn [cache_of _recordRequest].
  destruct (get_after_set falsy default_temperature default_max_tokens digest stringify
              parse byte_length (lookup_params p) (lookup_params p) (t_set t) (t_get t')
              _ He Hw Hparse eq_refl) as [Hhit _].
  cbn zeta in Hhit. rewrite (Hhit Hfresh). cbn [fst snd cache_of]. split; reflexivity.
Qed.

(** X24: every [complete] leaves one record, and the history is
    bounded.  Whether the call is served from the cache, answered by a
    provider or fails, exactly one record is pushed, stamped with the
    reading of [_recordRequest], marked [cached] for a cache hit alone and
    [success] unless the call failed; a history of at most 1000 records
    stays at most 1000 long, the oldest record leaving when it is full. *)
Theorem complete_records_once (p : request number context) (t : readings) (s : router) :
  length (requestHistory s) <= maxHistorySize ->
  let done := router_complete p t s in
  exists e,
    requestHistory (fst done) =
      (if Nat.ltb (length (requestHistory s)) maxHistorySize
       then requestHistory s else tl (requestHistory s)) ++ [e] /\
    length (requestHistory (fst done)) =
      Nat.min (S (length (requestHistory s))) maxHistorySize /\
    h_timestamp e = t_record t /\
    h_latency e = (t_latency t - t_start t)%Z /\
    h_cached e = (match snd done with Cached _ => true | _ => false end) /\
    h_success e = (match snd done with Failed _ => false | _ => true end).
Proof.
  intros Hle. cbn zeta. unfold complete. cbn zeta.
  destruct (get falsy default_temperature default_max_tokens digest parse
                (lookup_params p) (t_get t) (cache_of s)) as [c1 [cached|]].
  - cbn [fst snd]. eexists.
    match goal with |- context [_recordRequest ?e ?s0] =>
      destruct (@recordRequest_history e s0 Hle) as [H1 H2] end.
    cbn [requestHistory] in H1, H2.
    split; [exact H1|]. split; [exact H2|]. repeat split.
  - destruct (provider_named (route_provider (_routeRequest selectProvider p))) as [name|];
      [destruct (provider_complete name (req_prompt p)
                   (route_model (_routeRequest selectProvider p)) (req_options p))
         as [answer|]|];
      cbn [fst snd]; eexists;
      match goal with |- context [_recordRequest ?e ?s0] =>
        destruct (@recordRequest_history e s0 Hle) as [H1 H2] end;
      cbn [requestHistory] in H1, H2;
      (split; [exact H1|]); (split; [exact H2|]); repeat split.
Qed.

End Facts.

Lemma routed_answer_is_stored_out_of_reach_witness :
  let p := RouterScenario.ask None None in
  let first := RouterScenario.run p 1000 RouterScenario.idle in
  JsMap.keys (index (cache_of (fst first))) = ["openai|gpt-4o-mini|first"] /\
  snd (RouterScenario.run p 2000 (fst first)) =
    Answered {| body := "answer"; response_routing := RouterScenario.by_default;
                response_latency := 5 |}.
Proof.
  cbn zeta. split; [vm_compute; reflexivity|].
  destruct (@routed_answer_is_stored_out_of_reach Z string unit
              CacheScenario.falsy 7%Z 1000%Z RouterScenario.digest RouterScenario.stringify
              RouterScenario.parse CacheScenario.byte_length RouterScenario.selectProvider
              RouterScenario.provider_complete
              (RouterScenario.ask None None) (RouterScenario.at_time 1000)
              RouterScenario.idle "openai" "answer"
              eq_refl eq_refl (NoDup_nil string) eq_refl eq_refl eq_refl eq_refl eq_refl)
    as [_ Hrepeat].
  destruct Hrepeat as (_ & _ & _ & Hagain); [vm_compute; discriminate|].
  exact (Hagain (RouterScenario.at_time 2000)).
Defined.

Lemma explicit_request_is_served_from_cache_witness :
  let p := RouterScenario.ask (Some "openai") (Some "gpt-4o") in
  let first := RouterScenario.run p 1000 RouterScenario.idle in
  snd (RouterScenario.run p 2000 (fst first)) =
    Cached {| hit_response := {| body := "answer";
                                 response_routing := RouterScenario.explicit;
                                 response_latency := 5 |};
              hit_cacheAge := 995 |}.
Proof.
  cbn zeta.
  destruct (@explicit_request_is_served_from_cache Z string unit
              CacheScenario.falsy 7%Z 1000%Z RouterScenario.digest RouterScenario.stringify
              RouterScenario.parse CacheScenario.byte_length RouterScenario.selectProvider
              RouterScenario.provider_complete
              (RouterScenario.ask (Some "openai") (Some "gpt-4o"))
              (RouterScenario.at_time 1000) (RouterScenario.at_time 2000)
              RouterScenario.idle "openai" "answer"
              eq_refl eq_refl eq_refl eq_refl eq_refl eq_refl eq_refl
              ltac:(cbn; lia))
    as (_ & Hhit & _).
  exact Hhit.
Defined.

Lemma complete_records_once_witness :
  length (requestHistory (fst (RouterScenario.run (RouterScenario.ask None None) 1000
                                 RouterScenario.idle))) = 1.
Proof.
  destruct (@complete_records_once Z string unit
              CacheScenario.falsy 7%Z 1000%Z RouterScenario.digest RouterScenario.stringify
              RouterScenario.parse CacheScenario.byte_length RouterScenario.selectProvider
              RouterScenario.provider_complete
              (RouterScenario.ask None None) (RouterScenario.at_time 1000)
              RouterScenario.idle ltac:(cbn; lia))
    as (e & _ & Hlen & _).
  exact Hlen.
Defined.

End RouterFacts.
